(** * Beam search decoding for Token-and-Duration Transducer models

    A shallow embedding of [BeamTDTInfer]
    (nemo/collections/asr/parts/submodules/tdt_beam_decoding.py) and the
    properties of its deduplication, ranking, construction-time validation,
    language-model scoring and expansion steps, of the two searches as a
    whole, and of the decoding of a batch.

    Scores are Python floats in the source.  They are idealised here as real
    numbers: NaN and the infinities are not modelled, and the sums of
    scores are exact.  The merge of two scores, [torch.logaddexp] on
    float32 tensors, is a parameter of the searches, so that what does
    not depend on its value is proved for any function; [logaddexp] is
    the exact function and [logaddexp_float32] the rounded one.  The
    durations are the 64-bit integers of the array that numpy makes of
    them.  Tensor computations of the networks (joint, log-softmax,
    top-k) are external to the search logic and enter the model through
    their results, and so does the loader of KenLM, which may raise. *)

From Stdlib Require Import Reals Lra Lia ZArith List Bool String Ascii.
From Stdlib Require Import Permutation Sorted.
From Stdlib Require Import DecimalString.
From Stdlib Require DecimalPos DecimalZ.
Import ListNotations.

Local Open Scope R_scope.

(** ** Real-valued comparisons, as booleans *)

Definition Rltb (x y : R) : bool := if Rlt_dec x y then true else false.
Definition Reqb (x y : R) : bool := if Req_dec_T x y then true else false.

(** The logarithm of the sum of the exponentials of two scores, on the
    reals: the function that [torch.logaddexp(a, b)] approximates. *)
Definition logaddexp (a b : R) : R := ln (exp a + exp b).

(** Rounding to the nearest integer, ties to the even one. *)
Definition round_half_even (x : R) : Z :=
  let n := Int_part x in
  if Rlt_dec (frac_part x) (1 / 2) then n
  else if Rlt_dec (1 / 2) (frac_part x) then (n + 1)%Z
  else if Z.even n then n else (n + 1)%Z.

(** The exponent of the unit in the last place of the float32 numbers
    around [x]: 24 significant bits, and [2 ^ -149] for the subnormal
    numbers. *)
Definition float32_exponent (x : R) : Z :=
  Z.max (Int_part (ln (Rabs x) / ln 2) - 23) (-149).

(** [torch.tensor(x)] for a Python float [x]: the float32 number nearest
    to [x], ties to even, for [x] in the finite range of float32 (the
    infinities of larger magnitudes are left out). *)
Definition float32 (x : R) : R :=
  if Req_dec_T x 0 then 0
  else IZR (round_half_even (x / powerRZ 2 (float32_exponent x)))
       * powerRZ 2 (float32_exponent x).

(** [torch.logaddexp(torch.tensor(a), torch.tensor(b))]: the tensors are
    of the default type float32, so both scores are rounded and so is the
    result, taken here as the float32 number nearest to the exact value
    (the library is within a unit in the last place of it, and gives this
    very number when [exp (b - a)] underflows). *)
Definition logaddexp_float32 (a b : R) : R :=
  float32 (logaddexp (float32 a) (float32 b)).

(** ** Python's list primitives over a real-valued key *)

Section PySort.
Context {A : Type}.
Variable key : A -> R.

(** [sorted(l, key=key, reverse=True)]: descending and stable, elements
    with equal keys keep their input order. *)
Fixpoint insert_desc (x : A) (l : list A) : list A :=
  match l with
  | [] => [x]
  | y :: l' => if Rltb (key x) (key y) then y :: insert_desc x l' else x :: l
  end.

Definition sorted_desc (l : list A) : list A := fold_right insert_desc [] l.

(** [sorted(l, key=key)]: ascending and stable. *)
Fixpoint insert_asc (x : A) (l : list A) : list A :=
  match l with
  | [] => [x]
  | y :: l' => if Rltb (key y) (key x) then y :: insert_asc x l' else x :: l
  end.

Definition sorted_asc (l : list A) : list A := fold_right insert_asc [] l.

(** [m = max(x :: l, key=key)] followed by [(x :: l).remove(m)]: the first
    maximal element, and the list without it. *)
Fixpoint pop_max (x : A) (l : list A) : A * list A :=
  match l with
  | [] => (x, [])
  | y :: l' =>
      let (m, r) := pop_max y l' in
      if Rltb (key x) (key m) then (m, x :: r) else (x, l)
  end.

Definition py_max (x : A) (l : list A) : A := fst (pop_max x l).

(** Every element is followed by elements of smaller or equal keys. *)
Definition descending : list A -> Prop :=
  StronglySorted (fun a b => key b <= key a).
End PySort.

(** ** Exceptions *)

Inductive exn : Type :=
| ValueError | NotImplementedError | ImportError
| IndexError | ZeroDivisionError | AttributeError | TypeError | NameError
| OSError.

Inductive result (A : Type) : Type :=
| Ok (a : A)
| Raise (e : exn).
Arguments Ok {A} a.
Arguments Raise {A} e.

Definition bind {A B : Type} (r : result A) (f : A -> result B) : result B :=
  match r with
  | Ok a => f a
  | Raise e => Raise e
  end.

Notation "x <- r ;; k" := (bind r (fun x => k))
  (at level 61, r at next level, right associativity).
Notation "' p <- r ;; k" := (bind r (fun p => k))
  (at level 61, p pattern, r at next level, right associativity).

(** [l[i]]: a negative index counts from the end, an index out of range
    raises. *)
Definition getitem {A : Type} (l : list A) (i : Z) : result A :=
  let n := Z.of_nat (List.length l) in
  let j := if (i <? 0)%Z then (i + n)%Z else i in
  if (j <? 0)%Z then Raise IndexError
  else match nth_error l (Z.to_nat j) with
       | Some a => Ok a
       | None => Raise IndexError
       end.

(** [l[:n]] *)
Definition slice_to {A : Type} (l : list A) (n : Z) : list A :=
  let len := Z.of_nat (List.length l) in
  firstn (Z.to_nat (if (n <? 0)%Z then (len + n)%Z else n)) l.

(** [i % k] and [i // k] *)
Definition py_mod (i k : Z) : result Z :=
  if (k =? 0)%Z then Raise ZeroDivisionError else Ok (i mod k)%Z.
Definition py_floordiv (i k : Z) : result Z :=
  if (k =? 0)%Z then Raise ZeroDivisionError else Ok (i / k)%Z.

(** ** Duration bins *)

(** [durations.index(0)], [None] when [ValueError] is caught. *)
Fixpoint index_of_zero (durations : list Z) : option nat :=
  match durations with
  | [] => None
  | d :: ds => if (d =? 0)%Z then Some 0%nat
               else option_map S (index_of_zero ds)
  end.

(** [np.ma.masked_where(np.array(durations) == 0, durations)]: [None] is a
    masked entry. *)
Definition masked_where_zero (durations : list Z) : list (option Z) :=
  map (fun d => if (d =? 0)%Z then None else Some d) durations.

(** The largest value of numpy's [int64], the type of an array of Python
    integers: [np.argmin] of a masked array fills the masked entries with
    it ([minimum_fill_value]) before the minimum is searched. *)
Definition INT64_MAX : Z := 9223372036854775807.

(** The values of [int64]. *)
Definition int64 (d : Z) : Prop := (- INT64_MAX - 1 <= d <= INT64_MAX)%Z.

(** [masked.filled(minimum_fill_value(masked))] *)
Definition filled (l : list (option Z)) : list Z :=
  map (fun x => match x with Some d => d | None => INT64_MAX end) l.

Fixpoint argmin_from (best : Z) (best_idx idx : nat) (l : list Z) : nat :=
  match l with
  | [] => best_idx
  | x :: l' => if (x <? best)%Z
               then argmin_from x idx (S idx) l'
               else argmin_from best best_idx (S idx) l'
  end.

(** [np.argmin] of a masked array: the first index of the minimum of the
    filled array; [ValueError] on an empty array. *)
Definition np_argmin (l : list (option Z)) : result nat :=
  match filled l with
  | [] => Raise ValueError
  | x :: l' => Ok (argmin_from x 0%nat 1%nat l')
  end.

(** ** Python strings *)

(** A [str] as the sequence of its code points. *)
Definition pystr : Type := list Z.

(** [str(n)] for an integer: its decimal digits. *)
Definition py_str_int (n : Z) : pystr :=
  map (fun c => Z.of_nat (nat_of_ascii c))
      (list_ascii_of_string (NilZero.string_of_int (Z.to_int n))).

(** [chr(i)]: [ValueError] outside the range of Unicode. *)
Definition py_chr (i : Z) : result pystr :=
  if ((0 <=? i) && (i <? 1114112))%Z then Ok [i] else Raise ValueError.

(** ** Arguments of the constructor *)

Module Args.
Record t : Type := mk {
  blank_idx : Z;                   (* decoder_model.blank_idx *)
  vocab_size : Z;                  (* decoder_model.vocab_size *)
  durations : list Z;
  beam_size : Z;
  search_type : string;
  score_norm : bool;
  return_best_hypothesis : bool;
  maes_num_steps : Z;
  maes_prefix_alpha : Z;
  maes_expansion_gamma : R;
  maes_expansion_beta : Z;
  softmax_temperature : R;
  preserve_alignments : bool;
  ngram_lm_model : option string;
  ngram_lm_alpha : R
}.
End Args.

(** Truth value of an [Optional[str]]: [None] and the empty string are
    false. *)
Definition truthy (s : option string) : bool :=
  match s with
  | None => false
  | Some EmptyString => false
  | Some (String _ _) => true
  end.

Inductive SearchAlgorithm : Type :=
| default_beam_search_alg
| modified_adaptive_expansion_search_alg.

(** ** Hypothesis ([Hyp]: the source's name is a reserved word here) *)

Section Decoder.
(** Opaque values owned by the external collaborators: the decoder's
    recurrent state, its cached outputs, and the n-gram LM state. *)
Context {DecState DecOut LMState : Type}.
(** A loaded n-gram model ([kenlm.Model]) and the batched state of the
    decoder. *)
Context {KenLM BeamState : Type}.

(** [dec_out] is the list of cached decoder outputs, empty where the
    source leaves the field at its default; [hyp_length] is the field
    [length]. *)
Record Hyp : Type := mkHyp {
  score : R;
  y_sequence : list Z;
  dec_state : DecState;
  dec_out : list DecOut;
  timestep : list Z;
  hyp_length : Z;
  last_frame : Z;
  ngram_lm_state : option LMState
}.

Definition set_score (h : Hyp) (s : R) : Hyp :=
  mkHyp s (y_sequence h) (dec_state h) (dec_out h) (timestep h)
        (hyp_length h) (last_frame h) (ngram_lm_state h).

(** [kept_hyp.y_sequence == hyp.y_sequence and
     kept_hyp.last_frame == hyp.last_frame] *)
Definition is_duplicate (kept_hyp hyp : Hyp) : bool :=
  (if list_eq_dec Z.eq_dec (y_sequence kept_hyp) (y_sequence hyp)
   then true else false)
  && (last_frame kept_hyp =? last_frame hyp)%Z.

(** *** remove_duplicate_hypotheses *)

(** [torch.logaddexp] as the library computes it on two scores: any
    function; [logaddexp] is the exact one and [logaddexp_float32] the
    rounded one. *)
Variable torch_logaddexp : R -> R -> R.

(** The inner loop: the first kept hypothesis that duplicates [hyp]
    absorbs its score; [None] stands for [is_present = False]. *)
Fixpoint absorb (hyp : Hyp) (kept_hyps : list Hyp)
  : option (list Hyp) :=
  match kept_hyps with
  | [] => None
  | kept_hyp :: rest =>
      if is_duplicate kept_hyp hyp
      then Some (set_score kept_hyp
                   (torch_logaddexp (score kept_hyp) (score hyp))
                   :: rest)
      else option_map (cons kept_hyp) (absorb hyp rest)
  end.

(** What [absorb] does to a kept hypothesis. *)
Definition absorbed (hyp kept_hyp : Hyp) : Hyp :=
  if is_duplicate kept_hyp hyp
  then set_score kept_hyp (torch_logaddexp (score kept_hyp) (score hyp))
  else kept_hyp.

Definition dedup_step (kept_hyps : list Hyp) (hyp : Hyp)
  : list Hyp :=
  match absorb hyp kept_hyps with
  | Some kept_hyps' => kept_hyps'
  | None => kept_hyps ++ [hyp]
  end.

Definition remove_duplicate_hypotheses (hypotheses : list Hyp)
  : list Hyp :=
  let sorted_hyps := sorted_desc score hypotheses in
  fold_left dedup_step sorted_hyps [].

(** The hypotheses of [l] that duplicate [h]. *)
Definition group (h : Hyp) (l : list Hyp) : list Hyp :=
  filter (fun g => is_duplicate g h) l.

(** The scores of a group merged one after the other, as the loop does. *)
Definition merge_scores (xs : list R) : R :=
  match xs with
  | [] => 0
  | x :: xs' => fold_left torch_logaddexp xs' x
  end.

(** [h] with the merged score of its group in [l]. *)
Definition merged (l : list Hyp) (h : Hyp) : Hyp :=
  set_score h (merge_scores (map score (group h l))).


(** What makes two hypotheses duplicates of each other. *)
Definition hkey (h : Hyp) : list Z * Z := (y_sequence h, last_frame h).

(** The first hypothesis of every group, in the order of [l]. *)
Definition firsts_step (acc : list Hyp) (h : Hyp) : list Hyp :=
  if existsb (fun k => is_duplicate k h) acc then acc else acc ++ [h].

Definition firsts (l : list Hyp) : list Hyp := fold_left firsts_step l [].

(** The triples (token sequence, last frame, score) that survive. *)
Definition triple (h : Hyp) : list Z * Z * R :=
  (y_sequence h, last_frame h, score h).

Definition survivors (l : list Hyp) : list (list Z * Z * R) :=
  map triple (remove_duplicate_hypotheses l).

(** A hypothesis with one timestep for every token. *)
Definition lengths_agree (h : Hyp) : Prop :=
  List.length (y_sequence h) = List.length (timestep h).

(** *** sort_nbest *)

(** The ranking of hypotheses that have tokens, as those of the two
    searches have (they start with the blank token): with [score_norm],
    Python's division by [len(x.y_sequence)] raises [ZeroDivisionError]
    on a hypothesis without tokens, which is left out here. *)
Definition sort_nbest (score_norm : bool) (hyps : list Hyp) : list Hyp :=
  if score_norm
  then sorted_desc
         (fun x => score x / INR (List.length (y_sequence x))) hyps
  else sorted_desc score hyps.

(** The key of the final ranking. *)
Definition rank_key (score_norm : bool) (x : Hyp) : R :=
  if score_norm then score x / INR (List.length (y_sequence x))
  else score x.

(** "A ranks before B iff the key of A is greater than or equal to the
    key of B", for the hypotheses at any two different positions of the
    ranked list. *)
Definition ranked_iff_ge (score_norm : bool) (hyps : list Hyp) : Prop :=
  forall (i j : nat) (a b : Hyp),
    i <> j ->
    nth_error (sort_nbest score_norm hyps) i = Some a ->
    nth_error (sort_nbest score_norm hyps) j = Some b ->
    ((i < j)%nat <-> rank_key score_norm b <= rank_key score_norm a).

(** *** The decoder object *)

Record BeamTDTInfer : Type := mkBeamTDTInfer {
  durations : list Z;
  token_offset : Z;
  search_type : string;
  blank : Z;
  vocab_size : Z;
  return_best_hypothesis : bool;
  beam_size : Z;
  score_norm : bool;
  max_candidates : Z;
  softmax_temperature : R;
  preserve_alignments : bool;
  search_algorithm : SearchAlgorithm;
  (* set only when search_type is maes *)
  maes_num_steps : Z;
  maes_prefix_alpha : Z;
  maes_expansion_beta : Z;
  maes_expansion_gamma : R;
  zero_duration_idx : option nat;
  min_non_zero_duration_idx : nat;
  ngram_lm : option KenLM;
  ngram_lm_alpha : R
}.

(** [kenlm.Model(path)], the library's loader, which raises when it
    cannot read the file, and the module flag [KENLM_AVAILABLE]: the name
    [kenlm] is bound in the module exactly when the flag is true. *)
Variable kenlm_Model : string -> result KenLM.
Variable KENLM_AVAILABLE : bool.

Definition select_search (search_type : string) : result SearchAlgorithm :=
  if String.eqb search_type "default" then Ok default_beam_search_alg
  else if String.eqb search_type "tsd" then Raise NotImplementedError
  else if String.eqb search_type "alsd" then Raise NotImplementedError
  else if String.eqb search_type "nsc" then Raise NotImplementedError
  else if String.eqb search_type "maes"
       then Ok modified_adaptive_expansion_search_alg
  else Raise NotImplementedError.

(** The checks of the [maes] block; the value is [max_candidates]. *)
Definition init_maes (a : Args.t) : result Z :=
  if String.eqb (Args.search_type a) "maes" then
    if (Args.maes_prefix_alpha a <? 0)%Z then Raise ValueError
    else if (Args.vocab_size a
             <? Args.beam_size a + Args.maes_expansion_beta a)%Z
         then Raise ValueError
    else if (Args.maes_num_steps a <? 2)%Z then Raise ValueError
    else Ok (Args.beam_size a + Args.maes_expansion_beta a)%Z
  else Ok (Args.beam_size a).

Definition init_ngram_lm (a : Args.t) : result (option KenLM) :=
  if truthy (Args.ngram_lm_model a) then
    if negb (String.eqb (Args.search_type a) "maes") then Raise ValueError
    else if KENLM_AVAILABLE
         then match Args.ngram_lm_model a with
              | Some path => lm <- kenlm_Model path ;; Ok (Some lm)
              | None => Ok None
              end
    else Raise ImportError
  else Ok None.

(** The configurations that the constructor is said to refuse.  A model
    of the language is supplied when the argument is a string that is
    not empty. *)
Definition supported (search_type : string) : Prop :=
  search_type = "default"%string \/ search_type = "maes"%string.

Definition rejected (a : Args.t) : Prop :=
  (Args.beam_size a < 1)%Z
  \/ ~ supported (Args.search_type a)
  \/ Args.preserve_alignments a = true
  \/ (Args.search_type a = "maes"%string
      /\ ((Args.maes_num_steps a < 2)%Z
          \/ (Args.maes_prefix_alpha a < 0)%Z
          \/ (Args.vocab_size a
              < Args.beam_size a + Args.maes_expansion_beta a)%Z))
  \/ (truthy (Args.ngram_lm_model a) = true
      /\ Args.search_type a <> "maes"%string)
  \/ (truthy (Args.ngram_lm_model a) = true /\ KENLM_AVAILABLE = false).

(** The loader cannot read the model of the language that is supplied. *)
Definition load_fails (a : Args.t) : Prop :=
  truthy (Args.ngram_lm_model a) = true
  /\ exists path e,
      Args.ngram_lm_model a = Some path /\ kenlm_Model path = Raise e.

(** The constructor passes every check before the loader, and the loader
    raises [e] on the model of the language that is supplied. *)
Definition load_raises (a : Args.t) (e : exn) : Prop :=
  ~ rejected a /\ Args.durations a <> []
  /\ truthy (Args.ngram_lm_model a) = true
  /\ exists path,
      Args.ngram_lm_model a = Some path /\ kenlm_Model path = Raise e.

(** The two indices that the constructor computes from [durations]. *)
Definition durations_indexed (self : BeamTDTInfer) : Prop :=
  zero_duration_idx self = index_of_zero (durations self)
  /\ np_argmin (masked_where_zero (durations self))
     = Ok (min_non_zero_duration_idx self).

(** [BeamTDTInfer.__init__] *)
Definition init (a : Args.t) : result BeamTDTInfer :=
  if Args.preserve_alignments a then Raise ValueError
  else if (Args.beam_size a <? 1)%Z then Raise ValueError
  else if Args.preserve_alignments a then Raise NotImplementedError
  else
    alg <- select_search (Args.search_type a) ;;
    max_cand <- init_maes a ;;
    let zero_idx := index_of_zero (Args.durations a) in
    min_idx <- np_argmin (masked_where_zero (Args.durations a)) ;;
    lm <- init_ngram_lm a ;;
    Ok (mkBeamTDTInfer
          (Args.durations a) 0%Z (Args.search_type a) (Args.blank_idx a)
          (Args.vocab_size a) (Args.return_best_hypothesis a)
          (Args.beam_size a) (Args.score_norm a) max_cand
          (Args.softmax_temperature a) (Args.preserve_alignments a) alg
          (Args.maes_num_steps a) (Args.maes_prefix_alpha a)
          (Args.maes_expansion_beta a) (Args.maes_expansion_gamma a)
          zero_idx min_idx lm (Args.ngram_lm_alpha a)).

(** *** compute_ngram_score *)

(** [ngram_lm.BaseScore(in_state, word, out_state)]: the score, in
    base-10 logarithm, and the state written to [out_state]. *)
Variable BaseScore : KenLM -> LMState -> pystr -> R * LMState.

(** [np.log10] and [np.e] *)
Definition np_log10 (x : R) : R := ln x / ln 10.
Definition np_e : R := exp 1.


(** The label given to the language model. *)
Definition lm_label (self : BeamTDTInfer) (label : Z) : result pystr :=
  if (token_offset self =? 0)%Z
  then Ok (py_str_int label)
  else py_chr (label + token_offset self).

Definition compute_ngram_score (self : BeamTDTInfer)
           (current_lm_state : LMState) (label : Z)
  : result (R * LMState) :=
  label' <- lm_label self label ;;
  (* kenlm.State() *)
  if negb KENLM_AVAILABLE then Raise NameError
  else
    match ngram_lm self with
    | None => Raise AttributeError
    | Some lm =>
        let (lm_score, next_state) := BaseScore lm current_lm_state label' in
        Ok (lm_score * (1 / np_log10 np_e), next_state)
    end.

(** *** default_beam_search *)

(** What the networks give for one hypothesis at one frame: the decoder
    state of [score_hypothesis], the two log-softmax vectors of the joint
    output, and the results of the three [topk] calls.  The indices that
    [topk] returns are positions in a tensor: natural numbers. *)
Record JointOut : Type := mkJointOut {
  decoder_state : DecState;
  logp : list R;
  durations_logp : list R;
  logp_topk_idxs : list Z;
  durations_logp_topk_idxs : list nat;
  total_logp_topks : list R;
  total_logp_topk_idxs : list nat
}.

Variable score_frame : Z -> Hyp -> JointOut.

(** [duration_idx == self.zero_duration_idx] *)
Definition is_zero_duration_idx (self : BeamTDTInfer) (duration_idx : nat)
  : bool :=
  match zero_duration_idx self with
  | Some z => (duration_idx =? z)%nat
  | None => false
  end.

(** One pair of the loop over (token, duration) pairs: the duration and
    the new hypothesis. *)
Definition default_nonblank_hyp (self : BeamTDTInfer) (time_idx : Z)
           (encoded_lengths beam_k : Z) (max_hyp : Hyp) (o : JointOut)
           (total_logp_topk : R) (total_logp_topk_idx : nat)
  : result (Z * Hyp) :=
  i <- py_mod (Z.of_nat total_logp_topk_idx) beam_k ;;
  token_idx <- getitem (logp_topk_idxs o) i ;;
  j <- py_floordiv (Z.of_nat total_logp_topk_idx) beam_k ;;
  duration_idx <- getitem (durations_logp_topk_idxs o) j ;;
  duration <- getitem (durations self) (Z.of_nat duration_idx) ;;
  Ok (duration,
      mkHyp (score max_hyp + total_logp_topk)
            (y_sequence max_hyp ++ [token_idx])
            (decoder_state o)
            []
            (timestep max_hyp ++ [(time_idx + duration)%Z])
            encoded_lengths
            (last_frame max_hyp + duration)%Z
            None).

(** The loop over the pairs; [hyps] and [kept_hyps] grow by appending. *)
Fixpoint default_nonblank (self : BeamTDTInfer) (time_idx : Z)
         (encoded_lengths beam_k : Z) (max_hyp : Hyp) (o : JointOut)
         (pairs : list (R * nat)) (hyps kept_hyps : list Hyp)
  : result (list Hyp * list Hyp) :=
  match pairs with
  | [] => Ok (hyps, kept_hyps)
  | (total_logp_topk, total_logp_topk_idx) :: pairs' =>
      ' (duration, new_hyp) <-
          default_nonblank_hyp self time_idx encoded_lengths beam_k
            max_hyp o total_logp_topk total_logp_topk_idx ;;
      if (duration =? 0)%Z
      then default_nonblank self time_idx encoded_lengths beam_k max_hyp o
             pairs' (hyps ++ [new_hyp]) kept_hyps
      else default_nonblank self time_idx encoded_lengths beam_k max_hyp o
             pairs' hyps (kept_hyps ++ [new_hyp])
  end.

(** One duration of the loop for the blank token: [None] stands for
    [continue]. *)
Definition default_blank_hyp (self : BeamTDTInfer) (encoded_lengths : Z)
           (max_hyp : Hyp) (o : JointOut) (duration_idx : nat)
  : result (option Hyp) :=
  let emit (duration_idx : nat) : result (option Hyp) :=
    duration <- getitem (durations self) (Z.of_nat duration_idx) ;;
    logp_blank <- getitem (logp o) (blank self) ;;
    duration_logp <- getitem (durations_logp o) (Z.of_nat duration_idx) ;;
    Ok (Some (mkHyp (score max_hyp + logp_blank + duration_logp)
                    (y_sequence max_hyp)
                    (dec_state max_hyp)
                    []
                    (timestep max_hyp)
                    encoded_lengths
                    (last_frame max_hyp + duration)%Z
                    None)) in
  if is_zero_duration_idx self duration_idx then
    if (List.length (durations_logp_topk_idxs o) =? 1)%nat
    then emit (min_non_zero_duration_idx self)
    else Ok None
  else emit duration_idx.

Fixpoint default_blank (self : BeamTDTInfer) (encoded_lengths : Z)
         (max_hyp : Hyp) (o : JointOut) (idxs : list nat)
         (kept_hyps : list Hyp) : result (list Hyp) :=
  match idxs with
  | [] => Ok kept_hyps
  | duration_idx :: idxs' =>
      new_hyp <- default_blank_hyp self encoded_lengths max_hyp o
                   duration_idx ;;
      default_blank self encoded_lengths max_hyp o idxs'
        (match new_hyp with
         | Some h => kept_hyps ++ [h]
         | None => kept_hyps
         end)
  end.

(** The pending hypotheses whose score is greater than the best score of
    the working set [x :: hyps']. *)
Definition dominating (x : Hyp) (hyps' kept_hyps : list Hyp) : list Hyp :=
  filter (fun hyp => Rltb (score (py_max score x hyps')) (score hyp))
         kept_hyps.

(** "Every blank expansion of default beam search advances the frame",
    under the assumptions that the durations are not negative and that
    one of them is not zero. *)
Definition blank_advances_frame (self : BeamTDTInfer) : Prop :=
  Forall (fun d => (0 <= d)%Z) (durations self) ->
  Exists (fun d => d <> 0%Z) (durations self) ->
  durations_indexed self ->
  forall (encoded_lengths : Z) (max_hyp : Hyp) (o : JointOut)
         (duration_idx : nat) (child : Hyp),
    default_blank_hyp self encoded_lengths max_hyp o duration_idx
    = Ok (Some child) ->
    (last_frame max_hyp < last_frame child)%Z.

(** How one pass of the [while] loop ends. *)
Inductive pass : Type :=
| Next (hyps kept_hyps : list Hyp)     (* back to the loop test *)
| Break (kept_hyps : list Hyp).

(** The end of a pass, after the duplicates are removed: the test for
    stopping the frame early, or the cut to [beam] hypotheses. *)
Definition default_prune (beam : Z) (hyps kept_hyps : list Hyp) : pass :=
  match hyps with
  | x :: hyps' =>
      let hyps_max := score (py_max score x hyps') in
      let kept_most_prob :=
        sorted_asc score
          (filter (fun hyp => Rltb hyps_max (score hyp)) kept_hyps) in
      if (beam <=? Z.of_nat (List.length kept_most_prob))%Z
      then Break kept_most_prob
      else Next hyps kept_hyps
  | [] => Next [] (slice_to (sorted_desc score kept_hyps) beam)
  end.

(** One pass of the [while] loop, entered with [x :: hyps'] not empty. *)
Definition default_pass (self : BeamTDTInfer) (time_idx : Z)
           (encoded_lengths beam beam_k : Z)
           (x : Hyp) (hyps' kept_hyps : list Hyp) : result pass :=
  let (max_hyp, hyps) := pop_max score x hyps' in
  let o := score_frame time_idx max_hyp in
  ' (hyps, kept_hyps) <-
      default_nonblank self time_idx encoded_lengths beam_k max_hyp o
        (combine (total_logp_topks o) (total_logp_topk_idxs o))
        hyps kept_hyps ;;
  kept_hyps <- default_blank self encoded_lengths max_hyp o
                 (durations_logp_topk_idxs o) kept_hyps ;;
  let kept_hyps := remove_duplicate_hypotheses kept_hyps in
  Ok (default_prune beam hyps kept_hyps).

(** The [while] loop of one frame.  A hypothesis of duration zero comes
    back into [hyps], so the loop is bounded by [fuel]; [None] when it
    runs out. *)
Fixpoint default_frame (fuel : nat) (self : BeamTDTInfer) (time_idx : Z)
         (encoded_lengths beam beam_k : Z) (hyps kept_hyps : list Hyp)
  : option (result (list Hyp)) :=
  match hyps with
  | [] => Some (Ok kept_hyps)
  | x :: hyps' =>
      match fuel with
      | O => None
      | S fuel' =>
          match default_pass self time_idx encoded_lengths beam beam_k
                  x hyps' kept_hyps with
          | Raise e => Some (Raise e)
          | Ok (Break kept_hyps') => Some (Ok kept_hyps')
          | Ok (Next hyps1 kept_hyps1) =>
              default_frame fuel' self time_idx encoded_lengths beam beam_k
                hyps1 kept_hyps1
          end
      end
  end.

(** The loop over the frames [time_idxs]. *)
Fixpoint default_frames (fuel : nat) (self : BeamTDTInfer)
         (encoded_lengths beam beam_k : Z) (time_idxs : list Z)
         (kept_hyps : list Hyp) : option (result (list Hyp)) :=
  match time_idxs with
  | [] => Some (Ok kept_hyps)
  | time_idx :: rest =>
      let hyps :=
        filter (fun hyp => (last_frame hyp =? time_idx)%Z) kept_hyps in
      let kept_hyps :=
        filter (fun hyp => (time_idx <? last_frame hyp)%Z) kept_hyps in
      match default_frame fuel self time_idx encoded_lengths beam beam_k
              hyps kept_hyps with
      | Some (Ok kept_hyps') =>
          default_frames fuel self encoded_lengths beam beam_k rest
            kept_hyps'
      | r => r
      end
  end.

(** [range(n)] *)
Definition py_range (n : Z) : list Z :=
  map Z.of_nat (seq 0 (Z.to_nat n)).

(** [decoder.initialize_state] *)
Variable initialize_state : DecState.

Definition default_beam_search (fuel : nat) (self : BeamTDTInfer)
           (encoded_lengths : Z) (partial_hypotheses : option Hyp)
  : option (result (list Hyp)) :=
  match partial_hypotheses with
  | Some _ => Some (Raise NotImplementedError)
  | None =>
      let beam := Z.min (beam_size self) (vocab_size self) in
      let beam_k := Z.min beam (vocab_size self - 1) in
      let start_hyp :=
        mkHyp 0 [blank self] initialize_state [] [(-1)%Z] 0%Z 0%Z None in
      match default_frames fuel self encoded_lengths beam beam_k
              (py_range encoded_lengths) [start_hyp] with
      | Some (Ok kept_hyps) =>
          Some (Ok (sort_nbest (score_norm self) kept_hyps))
      | r => r
      end
  end.

(** *** greedy_search *)

Definition greedy_search (encoded_lengths : Z)
           (partial_hypotheses : option Hyp) : result (list Hyp) :=
  Raise NotImplementedError.

(** *** modified_adaptive_expansion_search *)

(** What the networks give for one hypothesis of the batch at one frame:
    its rows of the two log-softmax tensors, of the [topk] results, of the
    flattened sums, the indices kept by the prune-by-value mask, and the
    index of the most probable duration. *)
Record BeamOut : Type := mkBeamOut {
  beam_logp : list R;
  beam_duration_logp : list R;
  beam_idx_topks : list Z;
  beam_duration_idx_topks : list nat;
  beam_total_logp : list R;
  beam_kexpansions_idxs : list nat;
  beam_max_duration_idx : nat
}.

Variable joint_batch : Z -> list Hyp -> list BeamOut.
Variable batch_initialize_states : BeamState -> list DecState -> BeamState.
Variable batch_score_hypothesis :
  list Hyp -> BeamState -> list DecOut * BeamState.
Variable batch_select_state : BeamState -> Z -> DecState.
Variable initial_beam_state : BeamState.
(** [kenlm.State()] after [BeginSentenceWrite]. *)
Variable BeginSentenceWrite : KenLM -> LMState.

(** The list [hyp_expansions] of one hypothesis. *)
Fixpoint hyp_expansions (self : BeamTDTInfer) (o : BeamOut)
         (idxs : list nat) : result (list (Z * nat * R)) :=
  match idxs with
  | [] => Ok []
  | idx :: idxs' =>
      i <- py_mod (Z.of_nat idx) (max_candidates self) ;;
      k <- getitem (beam_idx_topks o) i ;;
      j <- py_floordiv (Z.of_nat idx) (max_candidates self) ;;
      duration_idx <- getitem (beam_duration_idx_topks o) j ;;
      total_logp <- getitem (beam_total_logp o) (Z.of_nat idx) ;;
      rest <- hyp_expansions self o idxs' ;;
      Ok ((k, duration_idx, total_logp) :: rest)
  end.

(** The three lists filled by the expansions: blank emissions, non-blank
    emissions of non-zero duration, and non-blank emissions of duration
    zero. *)
Record emissions : Type := mkEmissions {
  list_b : list Hyp;
  list_nb : list Hyp;
  list_exp : list Hyp
}.

(** The duration index an expansion is given: a blank token on the
    zero-duration bin is moved to the smallest non-zero duration. *)
Definition maes_duration_idx (self : BeamTDTInfer) (k : Z)
           (duration_idx : nat) : nat :=
  if (k =? blank self)%Z
     && (match zero_duration_idx self with Some _ => true | None => false end)
     && is_zero_duration_idx self duration_idx
  then min_non_zero_duration_idx self
  else duration_idx.

(** The shallow fusion of a non-blank expansion. *)
Definition maes_lm_fusion (self : BeamTDTInfer) (hyp new_hyp : Hyp)
           (k : Z) : result Hyp :=
  match ngram_lm self with
  | Some _ =>
      match ngram_lm_state hyp with
      | Some st =>
          ' (lm_score, next_state) <- compute_ngram_score self st k ;;
          Ok (mkHyp (score new_hyp + ngram_lm_alpha self * lm_score)
                    (y_sequence new_hyp) (dec_state new_hyp)
                    (dec_out new_hyp) (timestep new_hyp)
                    (hyp_length new_hyp) (last_frame new_hyp)
                    (Some next_state))
      | None => Raise TypeError
      end
  | None => Ok new_hyp
  end.

(** One expansion [(k, duration_idx, total_logp)] of [hyp]. *)
Definition maes_expand (self : BeamTDTInfer) (time_idx : Z) (hyp : Hyp)
           (e : Z * nat * R) (ls : emissions) : result emissions :=
  let '(k, duration_idx, total_logp) := e in
  let duration_idx := maes_duration_idx self k duration_idx in
  duration <- getitem (durations self) (Z.of_nat duration_idx) ;;
  let new_hyp :=
    mkHyp (score hyp + total_logp) (y_sequence hyp) (dec_state hyp)
          (dec_out hyp) (timestep hyp) time_idx
          (last_frame hyp + duration)%Z
          (match ngram_lm self with
           | Some _ => ngram_lm_state hyp
           | None => None
           end) in
  if (k =? blank self)%Z
  then Ok (mkEmissions (list_b ls ++ [new_hyp]) (list_nb ls) (list_exp ls))
  else
    let new_hyp :=
      mkHyp (score new_hyp) (y_sequence new_hyp ++ [k])
            (dec_state new_hyp) (dec_out new_hyp)
            (timestep new_hyp ++ [time_idx]) (hyp_length new_hyp)
            (last_frame new_hyp) (ngram_lm_state new_hyp) in
    new_hyp <- maes_lm_fusion self hyp new_hyp k ;;
    if (duration =? 0)%Z
    then Ok (mkEmissions (list_b ls) (list_nb ls) (list_exp ls ++ [new_hyp]))
    else Ok (mkEmissions (list_b ls) (list_nb ls ++ [new_hyp]) (list_exp ls)).

(** "A blank expansion of mAES on the zero-duration bin is skipped when
    the zero-duration bin is not the only candidate among the top
    durations", the rule of default beam search. *)
Definition maes_skips_zero_duration_blank (self : BeamTDTInfer) : Prop :=
  forall (time_idx : Z) (hyp : Hyp) (o : BeamOut)
         (es : list (Z * nat * R)) (z : nat) (total_logp : R)
         (ls ls' : emissions),
    hyp_expansions self o (beam_kexpansions_idxs o) = Ok es ->
    In (blank self, z, total_logp) es ->
    zero_duration_idx self = Some z ->
    List.length (beam_duration_idx_topks o) <> 1%nat ->
    maes_expand self time_idx hyp (blank self, z, total_logp) ls = Ok ls' ->
    ls' = ls.

Fixpoint maes_expand_hyp (self : BeamTDTInfer) (time_idx : Z) (hyp : Hyp)
         (es : list (Z * nat * R)) (ls : emissions) : result emissions :=
  match es with
  | [] => Ok ls
  | e :: es' =>
      ls' <- maes_expand self time_idx hyp e ls ;;
      maes_expand_hyp self time_idx hyp es' ls'
  end.

(** The loop over [enumerate(hyps)]. *)
Fixpoint maes_expand_all (self : BeamTDTInfer) (time_idx : Z)
         (outs : list BeamOut) (hyp_idx : Z) (hyps : list Hyp)
         (ls : emissions) : result emissions :=
  match hyps with
  | [] => Ok ls
  | hyp :: hyps' =>
      o <- getitem outs hyp_idx ;;
      es <- hyp_expansions self o (beam_kexpansions_idxs o) ;;
      ls' <- maes_expand_hyp self time_idx hyp es ls ;;
      maes_expand_all self time_idx outs (hyp_idx + 1)%Z hyps' ls'
  end.

(** The decoder is run on the hypotheses that do not end with blank:
    each of them gets its new output appended and its new state. *)
Fixpoint maes_update_states (beam_decoder_output : list DecOut)
         (beam_state : BeamState) (hyp_idx : Z) (hyps_to_update : list Hyp)
  : result (list Hyp) :=
  match hyps_to_update with
  | [] => Ok []
  | hyp :: rest =>
      out <- getitem beam_decoder_output hyp_idx ;;
      let hyp' :=
        mkHyp (score hyp) (y_sequence hyp)
              (batch_select_state beam_state hyp_idx)
              (dec_out hyp ++ [out]) (timestep hyp) (hyp_length hyp)
              (last_frame hyp) (ngram_lm_state hyp) in
      rest' <- maes_update_states beam_decoder_output beam_state
                 (hyp_idx + 1)%Z rest ;;
      Ok (hyp' :: rest')
  end.

(** On the last step the blank token is added to the expansions of
    duration zero. *)
Definition maes_add_blank (self : BeamTDTInfer) (o : BeamOut) (hyp : Hyp)
  : result Hyp :=
  let duration_idx := beam_max_duration_idx o in
  let duration_idx :=
    if is_zero_duration_idx self duration_idx
    then min_non_zero_duration_idx self
    else duration_idx in
  logp_blank <- getitem (beam_logp o) (blank self) ;;
  duration_logp <- getitem (beam_duration_logp o) (Z.of_nat duration_idx) ;;
  let total_logp := logp_blank + duration_logp in
  duration <- getitem (durations self) (Z.of_nat duration_idx) ;;
  Ok (mkHyp (score hyp + total_logp) (y_sequence hyp) (dec_state hyp)
            (dec_out hyp) (timestep hyp) (hyp_length hyp)
            (last_frame hyp + duration)%Z (ngram_lm_state hyp)).

Fixpoint maes_add_blanks (self : BeamTDTInfer) (outs : list BeamOut)
         (hyp_idx : Z) (hyps : list Hyp) : result (list Hyp) :=
  match hyps with
  | [] => Ok []
  | hyp :: rest =>
      o <- getitem outs hyp_idx ;;
      hyp' <- maes_add_blank self o hyp ;;
      rest' <- maes_add_blanks self outs (hyp_idx + 1)%Z rest ;;
      Ok (hyp' :: rest')
  end.

(** The steps [ns] of one frame. *)
Fixpoint maes_steps (self : BeamTDTInfer) (time_idx beam : Z)
         (ns : list Z) (hyps kept_hyps list_b0 list_nb0 : list Hyp)
         (beam_state : BeamState) : result (list Hyp * BeamState) :=
  match ns with
  | [] => Ok (kept_hyps, beam_state)
  | n :: ns' =>
      ls <- maes_expand_all self time_idx (joint_batch time_idx hyps) 0%Z
              hyps (mkEmissions list_b0 list_nb0 []) ;;
      let hyps_to_update := list_nb ls ++ list_exp ls in
      ' (updated, beam_state) <-
          (match hyps_to_update with
           | [] => Ok ([], beam_state)
           | _ :: _ =>
               let beam_state :=
                 batch_initialize_states beam_state
                   (map dec_state hyps_to_update) in
               let (beam_decoder_output, beam_state) :=
                 batch_score_hypothesis hyps_to_update beam_state in
               updated <- maes_update_states beam_decoder_output beam_state
                            0%Z hyps_to_update ;;
               Ok (updated, beam_state)
           end) ;;
      let list_nb1 := firstn (List.length (list_nb ls)) updated in
      let list_exp1 := skipn (List.length (list_nb ls)) updated in
      match list_exp1 with
      | [] =>
          let kept_hyps :=
            remove_duplicate_hypotheses
              (kept_hyps ++ list_b ls ++ list_nb1) in
          Ok (slice_to (sorted_desc score kept_hyps) beam, beam_state)
      | _ :: _ =>
          if (n <? maes_num_steps self - 1)%Z
          then maes_steps self time_idx beam ns'
                 (remove_duplicate_hypotheses list_exp1) kept_hyps
                 (list_b ls) list_nb1 beam_state
          else
            list_exp2 <- maes_add_blanks self
                           (joint_batch time_idx list_exp1) 0%Z list_exp1 ;;
            let kept_hyps :=
              remove_duplicate_hypotheses
                (kept_hyps ++ list_b ls ++ list_exp2 ++ list_nb1) in
            maes_steps self time_idx beam ns' hyps
              (slice_to (sorted_desc score kept_hyps) beam)
              (list_b ls) list_nb1 beam_state
      end
  end.

Fixpoint maes_frames (self : BeamTDTInfer) (beam : Z) (time_idxs : list Z)
         (kept_hyps : list Hyp) (beam_state : BeamState)
  : result (list Hyp) :=
  match time_idxs with
  | [] => Ok kept_hyps
  | time_idx :: rest =>
      let hyps :=
        filter (fun x => (last_frame x =? time_idx)%Z) kept_hyps in
      let kept_hyps :=
        filter (fun x => (time_idx <? last_frame x)%Z) kept_hyps in
      match hyps with
      | [] => maes_frames self beam rest kept_hyps beam_state
      | _ :: _ =>
          ' (kept_hyps, beam_state) <-
              maes_steps self time_idx beam
                (py_range (maes_num_steps self)) hyps kept_hyps [] []
                beam_state ;;
          maes_frames self beam rest kept_hyps beam_state
      end
  end.

(** The set-up of the language model: [kenlm.State()] and
    [BeginSentenceWrite], when the decoder has a model. *)
Definition maes_init_lm_state (self : BeamTDTInfer)
  : result (option LMState) :=
  match ngram_lm self with
  | Some lm =>
      if KENLM_AVAILABLE then Ok (Some (BeginSentenceWrite lm))
      else Raise NameError
  | None => Ok None
  end.

Definition modified_adaptive_expansion_search (self : BeamTDTInfer)
           (encoded_lengths : Z) (partial_hypotheses : option Hyp)
  : result (list Hyp) :=
  match partial_hypotheses with
  | Some _ => Raise NotImplementedError
  | None =>
      let beam := Z.min (beam_size self) (vocab_size self) in
      let beam_state := initial_beam_state in
      let start_hyp :=
        mkHyp 0 [blank self] (batch_select_state beam_state 0%Z) []
              [(-1)%Z] 0%Z 0%Z None in
      let (beam_decoder_output, beam_state) :=
        batch_score_hypothesis [start_hyp] beam_state in
      let state := batch_select_state beam_state 0%Z in
      init_lm_state <- maes_init_lm_state self ;;
      out0 <- getitem beam_decoder_output 0%Z ;;
      let start_hyp_kept :=
        mkHyp 0 [blank self] state [out0] [(-1)%Z] 0%Z 0%Z init_lm_state in
      kept_hyps <- maes_frames self beam (py_range encoded_lengths)
                     [start_hyp_kept] beam_state ;;
      Ok (sort_nbest (score_norm self) kept_hyps)
  end.

End Decoder.

Arguments Hyp : clear implicits.
Arguments BeamTDTInfer : clear implicits.
Arguments JointOut : clear implicits.
Arguments emissions : clear implicits.
Arguments pass : clear implicits.
Arguments blank_advances_frame DecState DecOut LMState {KenLM} self.
Arguments maes_skips_zero_duration_blank DecState DecOut {LMState KenLM}
  KENLM_AVAILABLE BaseScore self.

(** ** The decoding of a batch *)

Section Driver.
Context {DecState DecOut LMState KenLM BeamState : Type}.
Variable torch_logaddexp : R -> R -> R.
Variable KENLM_AVAILABLE : bool.
Variable BaseScore : KenLM -> LMState -> pystr -> R * LMState.
Variable initialize_state : DecState.
Variable batch_initialize_states : BeamState -> list DecState -> BeamState.
Variable batch_score_hypothesis :
  list (Hyp DecState DecOut LMState) -> BeamState -> list DecOut * BeamState.
Variable batch_select_state : BeamState -> Z -> DecState.
Variable initial_beam_state : BeamState.
Variable BeginSentenceWrite : KenLM -> LMState.
(** [pack_hypotheses] of rnnt_beam_decoding. *)
Variable pack_hypotheses :
  list (Hyp DecState DecOut LMState) -> list (Hyp DecState DecOut LMState).

(** One sample of the batch: its encoded length, and what the networks
    give on its frames to each of the two searches. *)
Record Utterance : Type := mkUtterance {
  encoded_length : Z;
  frame_scores : Z -> Hyp DecState DecOut LMState -> JointOut DecState;
  batch_scores : Z -> list (Hyp DecState DecOut LMState) -> list BeamOut
}.

(** What is returned for a sample: the best hypothesis, or the container
    of all of them. *)
Inductive prediction : Type :=
| Best (h : Hyp DecState DecOut LMState)
| NBestHypotheses (l : list (Hyp DecState DecOut LMState)).

(** [self.search_algorithm(inseq, logitlen, partial_hypotheses=...)] *)
Definition run_search_algorithm (fuel : nat) (self : BeamTDTInfer KenLM)
           (u : Utterance)
           (partial_hypotheses : option (Hyp DecState DecOut LMState))
  : option (result (list (Hyp DecState DecOut LMState))) :=
  match search_algorithm self with
  | default_beam_search_alg =>
      default_beam_search torch_logaddexp (frame_scores u) initialize_state
        fuel self (encoded_length u) partial_hypotheses
  | modified_adaptive_expansion_search_alg =>
      Some (modified_adaptive_expansion_search torch_logaddexp KENLM_AVAILABLE
        BaseScore
              (batch_scores u) batch_initialize_states batch_score_hypothesis
              batch_select_state initial_beam_state BeginSentenceWrite self
              (encoded_length u) partial_hypotheses)
  end.

(** The body of the loop over the batch, for the sample [batch_idx]. *)
Definition decode_sample (fuel : nat) (self : BeamTDTInfer KenLM)
           (partial_hypotheses : option (list (Hyp DecState DecOut LMState)))
           (batch_idx : Z) (u : Utterance)
  : option (result prediction) :=
  match (match partial_hypotheses with
         | Some l => h <- getitem l batch_idx ;; Ok (Some h)
         | None => Ok None
         end) with
  | Raise e => Some (Raise e)
  | Ok partial_hypothesis =>
      match run_search_algorithm fuel self u partial_hypothesis with
      | None => None
      | Some (Raise e) => Some (Raise e)
      | Some (Ok nbest_hyps) =>
          let nbest_hyps := pack_hypotheses nbest_hyps in
          if return_best_hypothesis self
          then Some (h <- getitem nbest_hyps 0%Z ;; Ok (Best h))
          else Some (Ok (NBestHypotheses nbest_hyps))
      end
  end.

Fixpoint decode_samples (fuel : nat) (self : BeamTDTInfer KenLM)
         (partial_hypotheses : option (list (Hyp DecState DecOut LMState)))
         (batch_idx : Z) (us : list Utterance) (hypotheses : list prediction)
  : option (result (list prediction)) :=
  match us with
  | [] => Some (Ok hypotheses)
  | u :: us' =>
      match decode_sample fuel self partial_hypotheses batch_idx u with
      | None => None
      | Some (Raise e) => Some (Raise e)
      | Some (Ok best_hypothesis) =>
          decode_samples fuel self partial_hypotheses (batch_idx + 1)%Z us'
            (hypotheses ++ [best_hypothesis])
      end
  end.

(** [BeamTDTInfer.__call__], with the [training] flags of the decoder and
    of the joint network: the result, and the flags when the call ends.
    The two networks are put in evaluation mode before the loop, and the
    flags are set back after it.  The joint network is taken to have a
    parameter, for [next(self.joint.parameters())]; the conversion of the
    encoder output to its type does not enter the search logic. *)
Definition call (fuel : nat) (self : BeamTDTInfer KenLM)
           (decoder_training joint_training : bool) (us : list Utterance)
           (partial_hypotheses : option (list (Hyp DecState DecOut LMState)))
  : option (result (list prediction) * (bool * bool)) :=
  match decode_samples fuel self partial_hypotheses 0%Z us [] with
  | None => None
  | Some (Ok hypotheses) =>
      Some (Ok hypotheses, (decoder_training, joint_training))
  | Some (Raise e) => Some (Raise e, (false, false))
  end.
End Driver.

Arguments Utterance : clear implicits.
Arguments prediction : clear implicits.

(** ** Sample configurations

    A vocabulary of three tokens with the blank token at index 3, with
    [unit] for the states of the decoder and for the model of the language,
    and a natural number for the state of that model. *)

Module Sample.
Definition hyp (score : R) (y_sequence : list Z) (last_frame : Z)
  : Hyp unit unit nat :=
  mkHyp score y_sequence tt [] [(-1)%Z] 0%Z last_frame None.

Definition args (search_type : string) (beam_size : Z) (durations : list Z)
  : Args.t :=
  Args.mk 3 3 durations beam_size search_type true true 2 1 2.3 2 1 false
          None 0.3.

Definition kenlm_Model (path : string) : result unit := Ok tt.

(** A loader that finds no file to read, and the arguments of a decoder
    with a model of the language. *)
Definition kenlm_Model_unreadable (path : string) : result unit :=
  Raise OSError.

Definition args_lm (path : string) : Args.t :=
  Args.mk 3 3 [0; 1; 2]%Z 1 "maes" true true 2 1 2.3 2 1 false (Some path)
          0.3.

Definition decoder (search_type : string) (beam_size : Z)
           (durations : list Z) : result (BeamTDTInfer unit) :=
  init kenlm_Model true (args search_type beam_size durations).

(** The decoder built from [args], with explicit indices. *)
Definition built (search_type : string) (alg : SearchAlgorithm)
           (beam_size max_candidates : Z) (durations : list Z)
           (zero_idx : option nat) (min_idx : nat) (lm : option unit)
  : BeamTDTInfer unit :=
  mkBeamTDTInfer durations 0 search_type 3 3 true beam_size true
                 max_candidates 1 false alg 2 1 2 2.3 zero_idx min_idx
                 lm 0.3.

Definition default012 : BeamTDTInfer unit :=
  built "default" default_beam_search_alg 2 2 [0; 1; 2]%Z (Some 0%nat) 1
        None.

Definition default001 : BeamTDTInfer unit :=
  built "default" default_beam_search_alg 2 2 [0; 0; 1]%Z (Some 0%nat) 2
        None.

(** The decoder of the durations [0] and the largest [int64]. *)
Definition default0max : BeamTDTInfer unit :=
  built "default" default_beam_search_alg 2 2 [0; 9223372036854775807]%Z
        (Some 0%nat) 0 None.

Definition maes012 : BeamTDTInfer unit :=
  built "maes" modified_adaptive_expansion_search_alg 1 3 [0; 1; 2]%Z
        (Some 0%nat) 1 None.

(** [maes012] with a loaded model. *)
Definition maes012_lm : BeamTDTInfer unit :=
  built "maes" modified_adaptive_expansion_search_alg 1 3 [0; 1; 2]%Z
        (Some 0%nat) 1 (Some tt).

Definition BaseScore (lm : unit) (state : nat) (word : pystr) : R * nat :=
  (-1, S state).

(** Results of the joint network for default beam search with two top
    durations, [0] and [1] in [joint01], [1] and [2] in [joint12]. *)
Definition joint01 : JointOut unit :=
  mkJointOut tt [-1; -2; -3; -1] [-1; -1; -2] [0; 1]%Z [0; 1]%nat
             [-2; -2] [0; 1]%nat.

Definition joint12 : JointOut unit :=
  mkJointOut tt [-1; -2; -3; -1] [-2; -1; -1] [0; 1]%Z [1; 2]%nat
             [-2; -2] [0; 1]%nat.

(** A result of the joint network with one top duration, the
    zero-duration bin, for a decoder of two durations. *)
Definition joint0 : JointOut unit :=
  mkJointOut tt [-1; -2; -3; -1] [-1; -2] [0; 1]%Z [0]%nat [-2] [0]%nat.

(** A row of the batch of mAES: three top tokens, the blank token first,
    three top durations, the zero-duration bin first, and one expansion
    kept, the blank token on the zero-duration bin. *)
Definition row : BeamOut :=
  mkBeamOut [-1; -2; -3; -1] [-1; -1; -2] [3; 0; 1]%Z [0; 1; 2]%nat
            [-2; -2; -3; -2; -2; -3; -3; -3; -4] [0%nat] 0.
(** The scenario of two frames: two tokens [0] and [1], the blank token
    [2], a beam of two hypotheses, and a joint network that always prefers
    the token [0] and the duration [1]. *)
Definition scenario : BeamTDTInfer unit :=
  mkBeamTDTInfer [0; 1; 2]%Z 0 "default" 2 2 true 2 true 2 1 false
                 default_beam_search_alg 2 1 2 2.3 (Some 0%nat) 1 None 0.3.

Definition scenario_joint (time_idx : Z) (h : Hyp unit unit nat)
  : JointOut unit :=
  mkJointOut tt [-1; -3; -2] [-3; -1; -2] [0]%Z [1; 2]%nat [-2] [0]%nat.

(** The scenario of one frame of mAES, on [maes012]: the three top tokens
    are [0], the blank token and [1], the three top durations are [1],
    [0] and [2], and three expansions are kept: the token [0] with the
    duration [1], the blank token with the duration [1], and the token
    [0] with the duration [0].  The state of the batch counts the calls of
    the decoder. *)
Definition maes_row : BeamOut :=
  mkBeamOut [-1; -3; -4; -2] [-2; -1; -3] [0; 3; 1]%Z [1; 0; 2]%nat
            [-2; -3; -4; -3; -4; -5; -4; -5; -6] [0; 1; 3]%nat 1.

Definition joint_batch (time_idx : Z) (hyps : list (Hyp unit unit nat))
  : list BeamOut :=
  map (fun _ => maes_row) hyps.

Definition batch_initialize_states (beam_state : nat) (states : list unit)
  : nat := beam_state.

Definition batch_score_hypothesis (hyps : list (Hyp unit unit nat))
           (beam_state : nat) : list unit * nat :=
  (map (fun _ => tt) hyps, S beam_state).

Definition batch_select_state (beam_state : nat) (hyp_idx : Z) : unit := tt.

Definition BeginSentenceWrite (lm : unit) : nat := 0%nat.
End Sample.


(** * Properties *)

(** ** Real numbers *)

Lemma Rltb_true (x y : R) : Rltb x y = true <-> x < y.
Proof. unfold Rltb. destruct (Rlt_dec x y); split; intros; try easy. Qed.

Lemma Rltb_false (x y : R) : Rltb x y = false <-> y <= x.
Proof.
  unfold Rltb. destruct (Rlt_dec x y); split; intros; try easy; lra.
Qed.

Lemma logaddexp_bounds (a b : R) :
  Rmax a b <= logaddexp a b <= Rmax a b + ln 2.
Proof.
  unfold logaddexp.
  pose proof (exp_pos a) as Ha. pose proof (exp_pos b) as Hb.
  assert (Hmono : forall u v, u <= v -> exp u <= exp v).
  { intros u v [Huv | ->]; [left; now apply exp_increasing | right;
    reflexivity]. }
  assert (Hln : forall u v, 0 < u -> u <= v -> ln u <= ln v).
  { intros u v Hu [Huv | ->]; [left; apply ln_increasing; assumption
                              | right; reflexivity]. }
  set (m := Rmax a b).
  assert (Hm : exp m <= exp a + exp b).
  { unfold m, Rmax. destruct (Rle_dec a b); lra. }
  assert (HM : exp a + exp b <= 2 * exp m).
  { pose proof (Hmono a m (Rmax_l a b)). pose proof (Hmono b m (Rmax_r a b)).
    lra. }
  pose proof (exp_pos m) as Hpm.
  split.
  - rewrite <- (ln_exp m) at 1. apply Hln; assumption.
  - replace (m + ln 2) with (ln (2 * exp m)).
    + apply Hln; lra.
    + rewrite ln_mult by lra. rewrite ln_exp. lra.
Qed.

(** *** Rounding to float32 *)

Lemma ln_2_pos : 0 < ln 2.
Proof. rewrite <- ln_1. apply ln_increasing; lra. Qed.

Lemma ln_powerRZ_2 (k : Z) : ln (powerRZ 2 k) = IZR k * ln 2.
Proof.
  destruct k as [| p | p]; simpl.
  - rewrite ln_1. lra.
  - rewrite ln_pow by lra. now rewrite INR_IZR_INZ, positive_nat_Z.
  - rewrite ln_Rinv by (apply pow_lt; lra).
    rewrite ln_pow by lra. rewrite INR_IZR_INZ, positive_nat_Z.
    change (Z.neg p) with (- Z.pos p)%Z. rewrite opp_IZR. lra.
Qed.

Lemma Int_part_eq (r : R) (n : Z) : IZR n <= r < IZR n + 1 -> Int_part r = n.
Proof.
  intros H. symmetry. apply Int_part_spec. lra.
Qed.

Lemma float32_exponent_eq (x : R) (k : Z) :
  powerRZ 2 k <= Rabs x < powerRZ 2 (k + 1) ->
  float32_exponent x = Z.max (k - 23) (-149).
Proof.
  intros [H1 H2]. unfold float32_exponent. f_equal. f_equal.
  pose proof ln_2_pos as Hl.
  assert (Hp : 0 < powerRZ 2 k) by (apply powerRZ_lt; lra).
  apply Int_part_eq. split.
  - apply Rmult_le_reg_r with (ln 2); [assumption |].
    unfold Rdiv. rewrite Rmult_assoc, Rinv_l, Rmult_1_r by lra.
    rewrite <- ln_powerRZ_2.
    destruct H1 as [H1 | <-]; [left; apply ln_increasing; assumption | right;
      reflexivity].
  - apply Rmult_lt_reg_r with (ln 2); [assumption |].
    unfold Rdiv. rewrite Rmult_assoc, Rinv_l, Rmult_1_r by lra.
    rewrite <- plus_IZR, <- ln_powerRZ_2.
    apply ln_increasing; lra.
Qed.

Lemma round_half_even_eq (r : R) (n : Z) :
  Rabs (r - IZR n) < 1 / 2 -> round_half_even r = n.
Proof.
  intros H. apply Rabs_def2 in H. destruct H as [H1 H2].
  unfold round_half_even, frac_part.
  destruct (Rle_lt_dec (IZR n) r) as [Hr | Hr].
  - rewrite (Int_part_eq r n) by lra.
    destruct (Rlt_dec _ _); [reflexivity | lra].
  - rewrite (Int_part_eq r (n - 1)) by (rewrite minus_IZR; lra).
    rewrite minus_IZR.
    destruct (Rlt_dec _ _); [lra |].
    destruct (Rlt_dec _ _); [lia | lra].
Qed.

(** A real in the binade of [2 ^ k] that is within half a unit in the last
    place of [n * 2 ^ (k - 23)] is rounded to it. *)
Lemma float32_eq (x : R) (k n : Z) :
  (-126 <= k)%Z ->
  powerRZ 2 k <= Rabs x < powerRZ 2 (k + 1) ->
  Rabs (x / powerRZ 2 (k - 23) - IZR n) < 1 / 2 ->
  float32 x = IZR n * powerRZ 2 (k - 23).
Proof.
  intros Hk Hx Hn. unfold float32.
  assert (Hp : 0 < powerRZ 2 k) by (apply powerRZ_lt; lra).
  destruct (Req_dec_T x 0) as [-> | _].
  - rewrite Rabs_R0 in Hx. lra.
  - rewrite (float32_exponent_eq x k Hx).
    rewrite Z.max_l by lia.
    now rewrite (round_half_even_eq _ n Hn).
Qed.

Lemma float32_tenth : float32 (-0.1) = -13421773 / 134217728.
Proof.
  rewrite (float32_eq (-0.1) (-4) (-13421773)).
  - simpl. lra.
  - lia.
  - rewrite Rabs_left by lra. simpl. lra.
  - simpl. apply Rabs_def1; lra.
Qed.

Lemma float32_thousand : float32 (-1000) = -1000.
Proof.
  rewrite (float32_eq (-1000) 9 (-16384000)).
  - simpl. lra.
  - lia.
  - rewrite Rabs_left by lra. simpl. lra.
  - simpl. apply Rabs_def1; lra.
Qed.

Lemma exp_INR_ge (n : nat) : 2 ^ n <= exp (INR n).
Proof.
  induction n as [| n IH].
  - simpl. rewrite exp_0. lra.
  - rewrite S_INR, exp_plus. simpl.
    assert (H : 2 <= exp 1) by (pose proof (exp_ineq1 1); lra).
    assert (0 < 2 ^ n) by (apply pow_lt; lra). nra.
Qed.

Lemma logaddexp_near (a b : R) :
  a < logaddexp a b <= a + exp (b - a).
Proof.
  unfold logaddexp. pose proof (exp_pos a). pose proof (exp_pos b).
  split.
  - rewrite <- (ln_exp a) at 1. apply ln_increasing; lra.
  - rewrite <- (ln_exp (a + exp (b - a))).
    assert (H1 : exp a + exp b <= exp (a + exp (b - a))).
    { rewrite exp_plus.
      assert (Hb : exp b = exp a * exp (b - a))
        by (rewrite <- exp_plus; f_equal; lra).
      pose proof (exp_pos (b - a)) as Hp.
      assert (H2 : 1 + exp (b - a) <= exp (exp (b - a)))
        by (pose proof (exp_ineq1 (exp (b - a))); lra).
      rewrite Hb. nra. }
    destruct H1 as [H1 | ->]; [left; apply ln_increasing; lra | right;
      reflexivity].
Qed.

Lemma logaddexp_float32_tenth :
  logaddexp_float32 (-0.1) (-1000) = -13421773 / 134217728.
Proof.
  unfold logaddexp_float32. rewrite float32_tenth, float32_thousand.
  pose proof (logaddexp_near (-13421773 / 134217728) (-1000)) as [H1 H2].
  assert (He : exp (-1000 - -13421773 / 134217728) < / 2 ^ 30).
  { apply Rlt_le_trans with (exp (- INR 30)).
    - apply exp_increasing. simpl. lra.
    - rewrite exp_Ropp. apply Rinv_le_contravar; [apply pow_lt; lra |].
      apply exp_INR_ge. }
  set (y := logaddexp (-13421773 / 134217728) (-1000)) in *.
  simpl in He.
  rewrite (float32_eq y (-4) (-13421773)).
  - simpl. lra.
  - lia.
  - rewrite Rabs_left by lra. simpl. lra.
  - simpl. apply Rabs_def1; lra.
Qed.


(** ** Sorting *)

Section PySortFacts.
Context {A : Type}.
Variable key : A -> R.

Lemma insert_desc_permutation (x : A) (l : list A) :
  Permutation (insert_desc key x l) (x :: l).
Proof.
  induction l as [| y l IH]; simpl; [reflexivity |].
  destruct (Rltb (key x) (key y)); [| reflexivity].
  rewrite IH. apply perm_swap.
Qed.

Lemma sorted_desc_permutation (l : list A) :
  Permutation (sorted_desc key l) l.
Proof.
  induction l as [| x l IH]; simpl; [reflexivity |].
  rewrite insert_desc_permutation. now constructor.
Qed.

Lemma insert_desc_descending (x : A) (l : list A) :
  descending key l -> descending key (insert_desc key x l).
Proof.
  unfold descending.
  induction l as [| y l IH]; simpl; intros Hs.
  - repeat constructor.
  - destruct (Rltb (key x) (key y)) eqn:E.
    + apply Rltb_true in E. inversion Hs as [| ? ? Hl Hy]; subst.
      constructor; [now apply IH |].
      eapply Permutation_Forall.
      * symmetry. apply insert_desc_permutation.
      * constructor; [lra | assumption].
    + apply Rltb_false in E. inversion Hs as [| ? ? Hl Hy]; subst.
      constructor; [assumption |].
      constructor; [assumption |].
      eapply Forall_impl; [| exact Hy]. simpl. intros; lra.
Qed.

Lemma sorted_desc_descending (l : list A) :
  descending key (sorted_desc key l).
Proof.
  induction l as [| x l IH]; simpl.
  - constructor.
  - now apply insert_desc_descending.
Qed.

(** Stability: elements of equal keys keep their order.  [f] selects
    elements whose keys are all equal. *)
Lemma insert_desc_filter (f : A -> bool) (x : A) (l : list A) :
  (forall y, In y l -> f x = true -> f y = true -> key y = key x) ->
  filter f (insert_desc key x l) = filter f (x :: l).
Proof.
  induction l as [| y l IH]; intros Hf; [reflexivity |].
  simpl. destruct (Rltb (key x) (key y)) eqn:E; [| reflexivity].
  apply Rltb_true in E. simpl.
  rewrite IH by (intros; apply Hf; simpl; auto).
  simpl. destruct (f x) eqn:Fx, (f y) eqn:Fy; try reflexivity.
  specialize (Hf y (or_introl eq_refl) eq_refl Fy). lra.
Qed.

Lemma sorted_desc_filter (f : A -> bool) (l : list A) :
  (forall x y, In x l -> In y l -> f x = true -> f y = true ->
               key x = key y) ->
  filter f (sorted_desc key l) = filter f l.
Proof.
  induction l as [| x l IH]; intros Hf; [reflexivity |].
  simpl sorted_desc. rewrite insert_desc_filter.
  - simpl. rewrite IH; [reflexivity |].
    intros; apply Hf; simpl; auto.
  - intros y Hy Fx Fy. apply Hf; simpl; auto.
    right. eapply Permutation_in; [apply sorted_desc_permutation | exact Hy].
Qed.

Lemma insert_asc_permutation (x : A) (l : list A) :
  Permutation (insert_asc key x l) (x :: l).
Proof.
  induction l as [| y l IH]; simpl; [reflexivity |].
  destruct (Rltb (key y) (key x)); [| reflexivity].
  rewrite IH. apply perm_swap.
Qed.

Lemma sorted_asc_permutation (l : list A) :
  Permutation (sorted_asc key l) l.
Proof.
  induction l as [| x l IH]; simpl; [reflexivity |].
  rewrite insert_asc_permutation. now constructor.
Qed.

Lemma pop_max_spec (x : A) (l : list A) :
  let (m, r) := pop_max key x l in
  Permutation (m :: r) (x :: l) /\ Forall (fun y => key y <= key m) (x :: l).
Proof.
  revert x. induction l as [| y l IH]; intros x; simpl.
  - split; [reflexivity | repeat constructor; lra].
  - specialize (IH y). destruct (pop_max key y l) as [m r].
    destruct IH as [HP HF].
    destruct (Rltb (key x) (key m)) eqn:E.
    + apply Rltb_true in E. split.
      * rewrite perm_swap. now constructor.
      * constructor; [lra | assumption].
    + apply Rltb_false in E. split; [reflexivity |].
      constructor; [lra |].
      eapply Forall_impl; [| exact HF]. simpl. intros; lra.
Qed.

Lemma py_max_in (x : A) (l : list A) : In (py_max key x l) (x :: l).
Proof.
  unfold py_max. pose proof (pop_max_spec x l) as H.
  destruct (pop_max key x l) as [m r]. destruct H as [HP _].
  cbn [fst]. eapply Permutation_in; [exact HP | now left].
Qed.

Lemma py_max_ge (x : A) (l : list A) (y : A) :
  In y (x :: l) -> key y <= key (py_max key x l).
Proof.
  unfold py_max. pose proof (pop_max_spec x l) as H.
  destruct (pop_max key x l) as [m r]. destruct H as [_ HF].
  simpl fst. rewrite Forall_forall in HF. apply HF.
Qed.
End PySortFacts.

(** ** Duplicates *)

Section DedupFacts.
Variables DecState DecOut LMState : Type.
Variable torch_logaddexp : R -> R -> R.
Abbreviation hyp := (Hyp DecState DecOut LMState).
Implicit Types (h g k : hyp) (l p : list hyp).

Lemma is_duplicate_iff h g :
  is_duplicate h g = true <->
  y_sequence h = y_sequence g /\ last_frame h = last_frame g.
Proof.
  unfold is_duplicate. rewrite andb_true_iff, Z.eqb_eq.
  destruct (list_eq_dec Z.eq_dec (y_sequence h) (y_sequence g));
    intuition congruence.
Qed.

Lemma is_duplicate_refl h : is_duplicate h h = true.
Proof. apply is_duplicate_iff. split; reflexivity. Qed.

Lemma is_duplicate_sym h g : is_duplicate h g = is_duplicate g h.
Proof.
  destruct (is_duplicate h g) eqn:E1, (is_duplicate g h) eqn:E2;
    try reflexivity.
  - apply is_duplicate_iff in E1. destruct E1 as [E1 E1'].
    assert (is_duplicate g h = true) by (apply is_duplicate_iff; split;
      congruence).
    congruence.
  - apply is_duplicate_iff in E2. destruct E2 as [E2 E2'].
    assert (is_duplicate h g = true) by (apply is_duplicate_iff; split;
      congruence).
    congruence.
Qed.

Lemma is_duplicate_trans h g k :
  is_duplicate h g = true -> is_duplicate g k = true ->
  is_duplicate h k = true.
Proof.
  rewrite !is_duplicate_iff. intros [-> ->] [-> ->]. split; reflexivity.
Qed.

Lemma is_duplicate_congr h g k :
  is_duplicate h g = true -> is_duplicate k h = is_duplicate k g.
Proof.
  intros E. destruct (is_duplicate k h) eqn:E1, (is_duplicate k g) eqn:E2;
    try reflexivity.
  - rewrite (is_duplicate_trans k h g E1 E) in E2. discriminate.
  - rewrite is_duplicate_sym in E.
    rewrite (is_duplicate_trans k g h E2 E) in E1. discriminate.
Qed.

Lemma is_duplicate_set_score_l h g s :
  is_duplicate (set_score h s) g = is_duplicate h g.
Proof. reflexivity. Qed.

Lemma set_score_same h : set_score h (score h) = h.
Proof. destruct h; reflexivity. Qed.

Lemma set_score_twice h s t : set_score (set_score h s) t = set_score h t.
Proof. reflexivity. Qed.

(** *** Groups and their merged score *)

Lemma group_app h l p : group h (l ++ p) = group h l ++ group h p.
Proof. apply filter_app. Qed.

Lemma group_congr h g l :
  is_duplicate h g = true -> group h l = group g l.
Proof.
  intros E. unfold group. apply filter_ext.
  intros x. now apply is_duplicate_congr.
Qed.

Lemma group_permutation h l p :
  Permutation l p -> Permutation (group h l) (group h p).
Proof.
  unfold group. induction 1; simpl.
  - constructor.
  - destruct (is_duplicate x h); [now constructor | assumption].
  - destruct (is_duplicate x h), (is_duplicate y h);
      try reflexivity. apply perm_swap.
  - etransitivity; eassumption.
Qed.

Lemma group_fresh h l :
  (forall g, In g l -> is_duplicate g h = false) -> group h l = [].
Proof.
  intros Hn. unfold group. induction l as [| x l IH]; [reflexivity |].
  simpl. rewrite (Hn x) by now left. apply IH. intros; apply Hn; now right.
Qed.

Lemma group_snoc h g l :
  group h (l ++ [g]) =
  if is_duplicate g h then group h l ++ [g] else group h l.
Proof.
  rewrite group_app. unfold group at 2. simpl.
  destruct (is_duplicate g h); [reflexivity | apply app_nil_r].
Qed.

Lemma merge_scores_snoc (xs : list R) (x : R) :
  xs <> [] ->
  merge_scores torch_logaddexp (xs ++ [x])
  = torch_logaddexp (merge_scores torch_logaddexp xs) x.
Proof.
  destruct xs as [| y ys]; [congruence |]. intros _.
  simpl. now rewrite fold_left_app.
Qed.

(** *** First occurrences *)

Lemma is_duplicate_hkey h g : is_duplicate h g = true <-> hkey h = hkey g.
Proof.
  rewrite is_duplicate_iff. unfold hkey. split.
  - intros [-> ->]. reflexivity.
  - intros E. inversion E. split; reflexivity.
Qed.

Lemma firsts_snoc p h : firsts (p ++ [h]) = firsts_step (firsts p) h.
Proof. unfold firsts. now rewrite fold_left_app. Qed.

Lemma firsts_step_cases acc h :
  (firsts_step acc h = acc /\
   exists k, In k acc /\ is_duplicate k h = true) \/
  (firsts_step acc h = acc ++ [h] /\
   forall k, In k acc -> is_duplicate k h = false).
Proof.
  unfold firsts_step.
  destruct (existsb (fun k => is_duplicate k h) acc) eqn:E.
  - left. split; [reflexivity |]. now apply existsb_exists in E.
  - right. split; [reflexivity |]. intros k Hk.
    destruct (is_duplicate k h) eqn:Ek; [| reflexivity].
    assert (existsb (fun k => is_duplicate k h) acc = true)
      by (apply existsb_exists; eauto).
    congruence.
Qed.

Lemma firsts_incl p h : In h (firsts p) -> In h p.
Proof.
  revert h. induction p as [| x p IH] using rev_ind; intros h.
  - easy.
  - rewrite firsts_snoc.
    destruct (firsts_step_cases (firsts p) x) as [[-> _] | [-> _]];
      rewrite ?in_app_iff; intros H.
    + left. now apply IH.
    + destruct H as [H | H]; [left; now apply IH | now right].
Qed.

Lemma firsts_cover p g :
  In g p -> exists h, In h (firsts p) /\ is_duplicate h g = true.
Proof.
  induction p as [| x p IH] using rev_ind; [easy |].
  rewrite in_app_iff, firsts_snoc. intros H.
  destruct (firsts_step_cases (firsts p) x) as [[-> [k [Hk Ek]]] | [-> Hn]].
  - destruct H as [H | [<- | []]]; [now apply IH |]. eauto.
  - destruct H as [H | [<- | []]].
    + destruct (IH H) as [h [Hh Eh]]. exists h.
      rewrite in_app_iff. auto.
    + exists x. rewrite in_app_iff. split; [right; now left |].
      apply is_duplicate_refl.
Qed.

Lemma firsts_fresh p h :
  (forall k, In k (firsts p) -> is_duplicate k h = false) ->
  forall g, In g p -> is_duplicate g h = false.
Proof.
  intros Hn g Hg. destruct (firsts_cover p g Hg) as [k [Hk Ek]].
  specialize (Hn k Hk).
  destruct (is_duplicate g h) eqn:E; [| reflexivity].
  rewrite (is_duplicate_trans k g h Ek E) in Hn. discriminate.
Qed.

Lemma firsts_nodup p : NoDup (map hkey (firsts p)).
Proof.
  induction p as [| x p IH] using rev_ind; [constructor |].
  rewrite firsts_snoc.
  destruct (firsts_step_cases (firsts p) x) as [[-> _] | [-> Hn]];
    [assumption |].
  rewrite map_app. apply NoDup_app; [assumption | repeat constructor; easy |].
  intros a Ha [<- | []]. apply in_map_iff in Ha.
  destruct Ha as [k [Ek Hk]]. apply is_duplicate_hkey in Ek.
  rewrite (Hn k Hk) in Ek. discriminate.
Qed.


(** *** The inner loop *)

Lemma absorb_none h l :
  (forall k, In k l -> is_duplicate k h = false) -> absorb torch_logaddexp h l
    = None.
Proof.
  induction l as [| k l IH]; intros Hn; [reflexivity |].
  simpl. rewrite (Hn k) by now left.
  rewrite IH; [reflexivity |]. intros; apply Hn; now right.
Qed.

Lemma absorbed_id h l :
  (forall k, In k l -> is_duplicate k h = false) ->
  map (absorbed torch_logaddexp h) l = l.
Proof.
  intros Hn. rewrite <- (map_id l) at 2. apply map_ext_in.
  intros k Hk. unfold absorbed. now rewrite (Hn k Hk).
Qed.

Lemma absorb_some h l :
  NoDup (map hkey l) ->
  (exists k, In k l /\ is_duplicate k h = true) ->
  absorb torch_logaddexp h l = Some (map (absorbed torch_logaddexp h) l).
Proof.
  induction l as [| k l IH]; intros Hnd [k0 [Hk0 Ek0]]; [easy |].
  simpl in Hnd. inversion Hnd as [| ? ? Hnotin Hnd']; subst.
  simpl. unfold absorbed at 1.
  destruct (is_duplicate k h) eqn:Ek.
  - rewrite absorbed_id; [reflexivity |].
    intros k' Hk'. destruct (is_duplicate k' h) eqn:Ek'; [| reflexivity].
    exfalso. apply Hnotin. apply in_map_iff. exists k'. split; [| assumption].
    apply is_duplicate_hkey. rewrite (is_duplicate_sym k h) in Ek.
    exact (is_duplicate_trans k' h k Ek' Ek).
  - destruct Hk0 as [-> | Hk0]; [congruence |].
    rewrite IH; [reflexivity | assumption | eauto].
Qed.

(** *** The outer loop *)

Lemma merged_snoc_other p x h :
  is_duplicate h x = false ->
  merged torch_logaddexp (p ++ [x]) h = merged torch_logaddexp p h.
Proof.
  intros E. unfold merged. now rewrite group_snoc, is_duplicate_sym, E.
Qed.

Lemma merged_snoc_dup p x h :
  In h p -> is_duplicate h x = true ->
  absorbed torch_logaddexp x (merged torch_logaddexp p h)
  = merged torch_logaddexp (p ++ [x]) h.
Proof.
  intros Hin E. unfold absorbed, merged.
  rewrite is_duplicate_set_score_l, E, set_score_twice.
  rewrite group_snoc, is_duplicate_sym, E, map_app. simpl map.
  rewrite merge_scores_snoc; [reflexivity |].
  assert (Hg : In h (group h p))
    by (apply filter_In; split; [assumption | apply is_duplicate_refl]).
  intros Hnil. apply (in_map score) in Hg. rewrite Hnil in Hg. contradiction.
Qed.

Lemma merged_snoc_new p x :
  (forall g, In g p -> is_duplicate g x = false) ->
  merged torch_logaddexp (p ++ [x]) x = x.
Proof.
  intros Hn. unfold merged.
  rewrite group_snoc, is_duplicate_refl, (group_fresh x p Hn).
  apply set_score_same.
Qed.

Lemma hkey_merged l p :
  map hkey (map (merged torch_logaddexp l) p) = map hkey p.
Proof. rewrite map_map. now apply map_ext. Qed.

Theorem dedup_loop_merged p :
  fold_left (dedup_step torch_logaddexp) p []
  = map (merged torch_logaddexp p) (firsts p).
Proof.
  induction p as [| x p IH] using rev_ind; [reflexivity |].
  rewrite fold_left_app, firsts_snoc. simpl. rewrite IH.
  unfold dedup_step.
  destruct (firsts_step_cases (firsts p) x) as [[-> [k [Hk Ek]]] | [-> Hn]].
  - rewrite absorb_some.
    + rewrite map_map. apply map_ext_in. intros f Hf.
      destruct (is_duplicate f x) eqn:E.
      * apply merged_snoc_dup; [now apply firsts_incl | assumption].
      * rewrite merged_snoc_other by assumption.
        unfold absorbed, merged. now rewrite is_duplicate_set_score_l, E.
    + rewrite hkey_merged. apply firsts_nodup.
    + exists (merged torch_logaddexp p k).
      split; [now apply in_map | assumption].
  - rewrite absorb_none.
    + rewrite map_app. simpl.
      rewrite merged_snoc_new by now apply firsts_fresh.
      f_equal. apply map_ext_in. intros f Hf.
      symmetry. apply merged_snoc_other. now apply Hn.
    + intros k Hk. apply in_map_iff in Hk. destruct Hk as [f [<- Hf]].
      exact (Hn f Hf).
Qed.

(** [remove_duplicate_hypotheses] keeps the first hypothesis of every
    group of the sorted list, with the merged score of the group. *)
Corollary remove_duplicate_hypotheses_merged l :
  remove_duplicate_hypotheses torch_logaddexp l =
  map (merged torch_logaddexp (sorted_desc score l))
      (firsts (sorted_desc score l)).
Proof. apply dedup_loop_merged. Qed.

Lemma remove_duplicate_hypotheses_nodup l :
  NoDup (map hkey (remove_duplicate_hypotheses torch_logaddexp l)).
Proof.
  rewrite remove_duplicate_hypotheses_merged, hkey_merged.
  apply firsts_nodup.
Qed.

(** Membership in the result, by groups of the sorted input. *)
Lemma remove_duplicate_hypotheses_in l m :
  In m (remove_duplicate_hypotheses torch_logaddexp l) <->
  exists h, In h (firsts (sorted_desc score l)) /\
            m = merged torch_logaddexp (sorted_desc score l) h.
Proof.
  rewrite remove_duplicate_hypotheses_merged, in_map_iff.
  split; intros [h [H1 H2]]; exists h; auto.
Qed.

Lemma remove_duplicate_hypotheses_cover l g :
  In g l ->
  exists m, In m (remove_duplicate_hypotheses torch_logaddexp l) /\
            is_duplicate m g = true /\
            score m = merge_scores torch_logaddexp
                        (map score (group g (sorted_desc score l))).
Proof.
  intros Hg.
  assert (Hs : In g (sorted_desc score l)).
  { eapply Permutation_in; [symmetry; apply sorted_desc_permutation | exact
    Hg]. }
  destruct (firsts_cover _ g Hs) as [f [Hf Ef]].
  exists (merged torch_logaddexp (sorted_desc score l) f). split; [| split].
  - apply remove_duplicate_hypotheses_in. eauto.
  - exact Ef.
  - simpl. now rewrite (group_congr f g _ Ef).
Qed.


(** *** The scores of a group in the sorted list *)

Lemma descending_scores l :
  descending score l -> descending (fun x : R => x) (map score l).
Proof.
  unfold descending. induction 1 as [| x l Hs IH Hx]; simpl; constructor.
  - assumption.
  - rewrite Forall_map. assumption.
Qed.

Lemma descending_group h l :
  descending score l -> descending score (group h l).
Proof.
  unfold descending, group. induction 1 as [| x l Hs IH Hx]; simpl.
  - constructor.
  - destruct (is_duplicate x h); [| assumption].
    constructor; [assumption |].
    rewrite Forall_forall in *. intros y Hy. apply Hx.
    now apply filter_In in Hy.
Qed.

(** Two descending lists of the same numbers are the same list. *)
Lemma descending_permutation_eq (xs ys : list R) :
  Permutation xs ys ->
  descending (fun x : R => x) xs -> descending (fun x : R => x) ys ->
  xs = ys.
Proof.
  unfold descending. revert ys.
  induction xs as [| x xs IH]; intros ys HP Hx Hy.
  - apply Permutation_nil in HP. now subst.
  - destruct ys as [| y ys].
    + symmetry in HP. apply Permutation_nil in HP. discriminate.
    + inversion Hx as [| ? ? Hxs Hxa]; subst.
      inversion Hy as [| ? ? Hys Hya]; subst.
      rewrite Forall_forall in Hxa, Hya.
      assert (E : x = y).
      { assert (Hin1 : In x (y :: ys))
          by (eapply Permutation_in; [exact HP | now left]).
        assert (Hin2 : In y (x :: xs))
          by (eapply Permutation_in; [symmetry; exact HP | now left]).
        destruct Hin1 as [-> | Hin1]; [reflexivity |].
        destruct Hin2 as [-> | Hin2]; [reflexivity |].
        specialize (Hxa y Hin2). specialize (Hya x Hin1). lra. }
      subst y. f_equal. apply IH; try assumption.
      now apply Permutation_cons_inv in HP.
Qed.

(** The scores of a group, in the order in which the loop meets them, do
    not depend on the order of the input. *)
Lemma sorted_group_scores h l l' :
  Permutation l l' ->
  map score (group h (sorted_desc score l))
  = map score (group h (sorted_desc score l')).
Proof.
  intros HP. apply descending_permutation_eq.
  - apply Permutation_map, group_permutation.
    rewrite !sorted_desc_permutation. exact HP.
  - apply descending_scores, descending_group, sorted_desc_descending.
  - apply descending_scores, descending_group, sorted_desc_descending.
Qed.

(** C4: after any call to remove_duplicate_hypotheses, no two hypotheses
    of the returned list (at two different positions) have both the same
    token sequence and the same last frame; this holds whatever
    [torch.logaddexp] computes. *)
Theorem remove_duplicate_hypotheses_no_duplicates l (i j : nat) a b :
  i <> j ->
  nth_error (remove_duplicate_hypotheses torch_logaddexp l) i = Some a ->
  nth_error (remove_duplicate_hypotheses torch_logaddexp l) j = Some b ->
  ~ (y_sequence a = y_sequence b /\ last_frame a = last_frame b).
Proof.
  intros Hij Ha Hb [Hy Hf].
  pose proof (remove_duplicate_hypotheses_nodup l) as Hnd.
  rewrite NoDup_nth_error in Hnd.
  apply Hij, Hnd.
  - rewrite length_map. apply nth_error_Some. congruence.
  - rewrite !nth_error_map, Ha, Hb. simpl. unfold hkey. congruence.
Qed.

Lemma survivors_in l (t : list Z * Z * R) :
  In t (survivors torch_logaddexp l) <->
  exists g, In g l /\
            t = (y_sequence g, last_frame g,
                 merge_scores torch_logaddexp
                   (map score (group g (sorted_desc score l)))).
Proof.
  unfold survivors. rewrite in_map_iff. split.
  - intros [m [<- Hm]]. apply remove_duplicate_hypotheses_in in Hm.
    destruct Hm as [h [Hh ->]]. exists h. split; [| reflexivity].
    eapply Permutation_in; [apply (sorted_desc_permutation score) |].
    now apply firsts_incl.
  - intros [g [Hg ->]].
    destruct (remove_duplicate_hypotheses_cover l g Hg) as (m & Hm & Ed & Es).
    exists m. split; [| assumption].
    apply is_duplicate_iff in Ed. destruct Ed as [Ey Ef].
    unfold triple. congruence.
Qed.

Lemma survivors_nodup l : NoDup (survivors torch_logaddexp l).
Proof.
  apply (NoDup_map_inv fst). unfold survivors. rewrite map_map.
  apply remove_duplicate_hypotheses_nodup.
Qed.

(** C3: the merge does not depend on the order of the input: for a list
    of hypotheses and any permutation of it, remove_duplicate_hypotheses
    leaves the same set of (token sequence, last frame, score) triples.
    The scores of a group are merged in descending order, so this holds
    whatever [torch.logaddexp] computes. *)
Theorem remove_duplicate_hypotheses_order_independent l l' :
  Permutation l l' ->
  (forall t, In t (survivors torch_logaddexp l)
             <-> In t (survivors torch_logaddexp l')) /\
  Permutation (survivors torch_logaddexp l) (survivors torch_logaddexp l').
Proof.
  intros HP.
  assert (H : forall t, In t (survivors torch_logaddexp l)
                        <-> In t (survivors torch_logaddexp l')).
  { intros t. rewrite !survivors_in.
    split; intros [g [Hg ->]]; exists g; split.
    - eapply Permutation_in; eassumption.
    - now rewrite (sorted_group_scores g l l' HP).
    - eapply Permutation_in; [symmetry |]; eassumption.
    - now rewrite (sorted_group_scores g l l' HP). }
  split; [exact H |].
  apply NoDup_Permutation; auto using survivors_nodup.
Qed.
End DedupFacts.

(** *** The exact merge *)

Section LogSumExp.
Variables DecState DecOut LMState : Type.
Abbreviation hyp := (Hyp DecState DecOut LMState).
Implicit Types (h g k : hyp) (l p : list hyp).





(** C1: when the group of duplicates of [h1] in the input is the pair
    [h1], [h2] (same token sequence, same last frame), the result holds
    one hypothesis for the pair, and its score is what [torch.logaddexp]
    gives for the higher and the lower of the two scores [a] and [b], in
    this order.  Whenever this value is within [eps] of the log-sum-exp
    [ln (exp a + exp b)], so is the merged score, which then lies between
    [max a b - eps] and [max a b + ln 2 + eps]; for the exact function,
    [eps = 0], it is the log-sum-exp itself, between [max a b] and
    [max a b + ln 2]. *)
Theorem merge_pair_log_sum_exp (torch_logaddexp : R -> R -> R) l h1 h2 :
  Permutation (group h1 l) [h1; h2] ->
  exists m,
    In m (remove_duplicate_hypotheses torch_logaddexp l) /\
    y_sequence m = y_sequence h1 /\ last_frame m = last_frame h1 /\
    score m = torch_logaddexp (Rmax (score h1) (score h2))
                              (Rmin (score h1) (score h2)) /\
    (forall eps : R,
        Rabs (torch_logaddexp (Rmax (score h1) (score h2))
                              (Rmin (score h1) (score h2))
              - ln (exp (score h1) + exp (score h2))) <= eps ->
        Rabs (score m - ln (exp (score h1) + exp (score h2))) <= eps /\
        Rmax (score h1) (score h2) - eps <= score m
          <= Rmax (score h1) (score h2) + ln 2 + eps) /\
    ((forall a b : R, torch_logaddexp a b = logaddexp a b) ->
     score m = ln (exp (score h1) + exp (score h2)) /\
     Rmax (score h1) (score h2) <= score m
       <= Rmax (score h1) (score h2) + ln 2).
Proof.
  intros HP.
  assert (Hin : In h1 l).
  { assert (H : In h1 (group h1 l))
      by (eapply Permutation_in; [symmetry; exact HP | now left]).
    unfold group in H. now apply filter_In in H. }
  destruct (remove_duplicate_hypotheses_cover _ _ _ torch_logaddexp l h1 Hin)
    as (m & Hm & Ed & Es).
  apply is_duplicate_iff in Ed. destruct Ed as [Ey Ef].
  assert (Eg : map score (group h1 (sorted_desc score l))
               = [Rmax (score h1) (score h2); Rmin (score h1) (score h2)]).
  { apply descending_permutation_eq.
    - transitivity (map score [h1; h2]).
      + apply Permutation_map. transitivity (group h1 l); [| exact HP].
        apply group_permutation, sorted_desc_permutation.
      + simpl. unfold Rmax, Rmin.
        destruct (Rle_dec (score h1) (score h2));
          [apply perm_swap | reflexivity].
    - apply descending_scores, descending_group, sorted_desc_descending.
    - unfold descending.
      apply SSorted_cons; [apply SSorted_cons; constructor |].
      apply Forall_cons; [| apply Forall_nil].
      unfold Rmax, Rmin. destruct (Rle_dec (score h1) (score h2)); lra. }
  rewrite Eg in Es. simpl in Es.
  pose proof (logaddexp_bounds (score h1) (score h2)) as Hb.
  unfold logaddexp in Hb.
  assert (Hsym : logaddexp (Rmax (score h1) (score h2))
                           (Rmin (score h1) (score h2))
                 = ln (exp (score h1) + exp (score h2))).
  { unfold logaddexp, Rmax, Rmin.
    destruct (Rle_dec (score h1) (score h2)); f_equal; lra. }
  exists m. repeat split; try assumption.
  - rewrite Es. assumption.
  - rewrite Es. unfold Rabs in H. destruct (Rcase_abs _) in H; lra.
  - rewrite Es. unfold Rabs in H. destruct (Rcase_abs _) in H; lra.
  - rewrite Es, H. exact Hsym.
  - rewrite Es, H, Hsym. apply Hb.
  - rewrite Es, H, Hsym. apply Hb.
Qed.

End LogSumExp.

(** ** Ranking *)

Section RankFacts.
Variables DecState DecOut LMState : Type.
Abbreviation hyp := (Hyp DecState DecOut LMState).
Implicit Types (a b : hyp) (hyps : list hyp).

Lemma sort_nbest_sorted_desc (score_norm : bool) hyps :
  sort_nbest score_norm hyps = sorted_desc (rank_key score_norm) hyps.
Proof. destruct score_norm; reflexivity. Qed.

Lemma descending_nth {A : Type} (key : A -> R) (l : list A) :
  descending key l ->
  forall (i j : nat) (x y : A),
    (i < j)%nat -> nth_error l i = Some x -> nth_error l j = Some y ->
    key y <= key x.
Proof.
  unfold descending. induction 1 as [| z l Hs IH Hz]; intros i j x y Hij Hi Hj.
  - destruct i; discriminate.
  - destruct j as [| j]; [lia |]. simpl in Hj.
    destruct i as [| i]; simpl in Hi.
    + injection Hi as <-. rewrite Forall_forall in Hz.
      apply Hz. eapply nth_error_In; eassumption.
    + apply (IH i j); [lia | assumption | assumption].
Qed.

(** C7: the final ranking is a rearrangement of the hypotheses, in
    descending order of [score / len(token_sequence)] when [score_norm]
    is true and of the raw score when it is false; hypotheses of equal
    keys keep their input order.  For the hypotheses A and B at two
    positions of the ranked list: if A ranks before B then the key of A
    is greater than or equal to the key of B, and if the key of A is
    greater than the key of B then A ranks before B. *)
Theorem sort_nbest_ranking (score_norm : bool) hyps :
  Forall (fun h => y_sequence h <> []) hyps ->
  Permutation (sort_nbest score_norm hyps) hyps
  /\ descending (rank_key score_norm) (sort_nbest score_norm hyps)
  /\ (forall v : R,
        filter (fun h => Reqb (rank_key score_norm h) v)
               (sort_nbest score_norm hyps)
        = filter (fun h => Reqb (rank_key score_norm h) v) hyps)
  /\ (forall (i j : nat) a b,
        nth_error (sort_nbest score_norm hyps) i = Some a ->
        nth_error (sort_nbest score_norm hyps) j = Some b ->
        ((i < j)%nat -> rank_key score_norm b <= rank_key score_norm a)
        /\ (rank_key score_norm b < rank_key score_norm a -> (i < j)%nat)).
Proof.
  intros _. rewrite sort_nbest_sorted_desc.
  pose proof (sorted_desc_descending (rank_key score_norm) hyps) as Hd.
  split; [apply sorted_desc_permutation |].
  split; [exact Hd |].
  split.
  - intros v. apply sorted_desc_filter.
    intros x y _ _ Hx Hy. unfold Reqb in Hx, Hy.
    destruct (Req_dec_T (rank_key score_norm x) v); [| discriminate].
    destruct (Req_dec_T (rank_key score_norm y) v); [| discriminate].
    congruence.
  - intros i j a b Hi Hj. split.
    + intros Hij. exact (descending_nth _ _ Hd i j a b Hij Hi Hj).
    + intros Hlt. destruct (Nat.lt_trichotomy i j) as [H | [H | H]].
      * exact H.
      * subst j. rewrite Hi in Hj. injection Hj as <-. lra.
      * pose proof (descending_nth _ _ Hd j i b a H Hj Hi). lra.
Qed.
End RankFacts.

(** ** Construction *)

Section InitFacts.
Variables KenLM : Type.
Variable kenlm_Model : string -> result KenLM.
Variable KENLM_AVAILABLE : bool.

Ltac init_cases :=
  repeat match goal with
    | |- context [String.eqb ?s ?t] =>
        destruct (String.eqb_spec s t); try subst s; simpl
    | |- context [(?x <? ?y)%Z] => destruct (Z.ltb_spec x y); simpl
    | |- context [truthy ?m] => destruct (truthy m) eqn:?; simpl
    | |- context [if ?b then _ else _] => is_var b; destruct b; simpl
    end.

Ltac init_close :=
  split;
  [ intros [? ?]; try discriminate;
    first [ solve [intuition (try lia; try congruence)]
          | solve [right; right; split; [reflexivity | eauto]] ]
  | intros Hd;
    first [ solve [eexists; reflexivity]
          | exfalso;
            destruct Hd as [Hd | [Hd | (Ht & p & e' & Hp & Hk)]];
            [ intuition (try lia; try congruence)
            | intuition (try lia; try congruence)
            | try discriminate; try (injection Hp as <-; congruence) ] ] ].

(** C8: for a list of [int64] durations, the constructor raises exactly
    for the refused configurations, for an empty list of durations (the
    search for the smallest non-zero duration raises on it) and when the
    loader cannot read the model of the language that is supplied; for
    every other configuration it returns the decoder. *)
Theorem init_raises_iff (a : Args.t) :
  Forall int64 (Args.durations a) ->
  ((exists e, init kenlm_Model KENLM_AVAILABLE a = Raise e) <->
   rejected KENLM_AVAILABLE a \/ Args.durations a = []
   \/ load_fails kenlm_Model a)
  /\ ((exists self, init kenlm_Model KENLM_AVAILABLE a = Ok self) <->
      ~ rejected KENLM_AVAILABLE a /\ Args.durations a <> []
      /\ ~ load_fails kenlm_Model a).
Proof.
  intros _.
  assert (H : (exists e, init kenlm_Model KENLM_AVAILABLE a = Raise e) <->
              rejected KENLM_AVAILABLE a \/ Args.durations a = []
              \/ load_fails kenlm_Model a).
  { destruct a as [bl vs ds bs st sn rb ns pa ga be te pr lm al].
    unfold init, rejected, supported, select_search, init_maes,
      init_ngram_lm, load_fails, bind; simpl.
    destruct lm as [path |];
      [destruct (kenlm_Model path) as [m | e0] eqn:Em |];
      destruct ds as [| d ds]; simpl; init_cases; init_close. }
  split; [exact H |].
  destruct (init kenlm_Model KENLM_AVAILABLE a) as [self | e] eqn:E.
  - split; [intros _ | eauto].
    split; [| split]; intros Hr.
    + destruct (proj2 H (or_introl Hr)); discriminate.
    + destruct (proj2 H (or_intror (or_introl Hr))); discriminate.
    + destruct (proj2 H (or_intror (or_intror Hr))); discriminate.
  - split; [intros [? ?]; discriminate |].
    intros (Hn & Hd & Hl). exfalso.
    destruct (proj1 H (ex_intro _ e eq_refl)) as [? | [? | ?]]; auto.
Qed.
End InitFacts.

(** ** Language-model scores *)



Lemma getitem_nat {A : Type} (l : list A) (i : nat) (a : A) :
  getitem l (Z.of_nat i) = Ok a <-> nth_error l i = Some a.
Proof.
  unfold getitem.
  destruct (Z.ltb_spec (Z.of_nat i) 0); [lia |].
  destruct (Z.ltb_spec (Z.of_nat i) 0); [lia |].
  rewrite Nat2Z.id. destruct (nth_error l i); split; congruence.
Qed.

(** ** Duration bins *)

Lemma index_of_zero_nth (ds : list Z) (i : nat) :
  nth_error ds i = Some 0%Z ->
  (count_occ Z.eq_dec ds 0%Z <= 1)%nat ->
  index_of_zero ds = Some i.
Proof.
  revert i. induction ds as [| d ds IH]; intros i Hi Hc.
  - destruct i; discriminate.
  - simpl. destruct (Z.eqb_spec d 0) as [-> | Hd].
    + destruct i as [| i]; [reflexivity |].
      simpl in Hi. apply nth_error_In in Hi.
      apply (count_occ_In Z.eq_dec) in Hi.
      rewrite count_occ_cons_eq in Hc by reflexivity. lia.
    + destruct i as [| i]; simpl in Hi; [congruence |].
      rewrite count_occ_cons_neq in Hc by assumption.
      now rewrite (IH i Hi Hc).
Qed.

Lemma argmin_from_min (l pre : list Z) (best : Z) (best_idx idx : nat) :
  List.length pre = idx ->
  nth_error (pre ++ l) best_idx = Some best ->
  (forall e, In e pre -> (best <= e)%Z) ->
  (forall i e, (i < best_idx)%nat -> nth_error (pre ++ l) i = Some e ->
               (best < e)%Z) ->
  (best_idx < idx)%nat ->
  exists m,
    nth_error (pre ++ l) (argmin_from best best_idx idx l) = Some m
    /\ (forall e, In e (pre ++ l) -> (m <= e)%Z)
    /\ (forall i e, (i < argmin_from best best_idx idx l)%nat ->
                    nth_error (pre ++ l) i = Some e -> (m < e)%Z).
Proof.
  revert pre best best_idx idx.
  induction l as [| x l IH];
    intros pre best best_idx idx Hlen Hb Hpre Hfirst Hidx.
  - simpl. exists best. rewrite app_nil_r in *. auto.
  - simpl argmin_from.
    replace (pre ++ x :: l) with ((pre ++ [x]) ++ l) in *
      by (rewrite <- app_assoc; reflexivity).
    destruct (Z.ltb_spec x best) as [Hlt | Hge].
    + apply IH.
      * rewrite length_app. simpl. lia.
      * rewrite nth_error_app1 by (rewrite length_app; simpl; lia).
        rewrite nth_error_app2 by lia.
        now replace (idx - List.length pre)%nat with 0%nat by lia.
      * intros e He. apply in_app_iff in He.
        destruct He as [He | [<- | []]]; [| lia].
        apply Hpre in He. lia.
      * intros i e Hi He.
        rewrite nth_error_app1 in He by (rewrite length_app; simpl; lia).
        rewrite nth_error_app1 in He by lia.
        apply nth_error_In, Hpre in He. lia.
      * lia.
    + apply IH.
      * rewrite length_app. simpl. lia.
      * assumption.
      * intros e He. apply in_app_iff in He.
        destruct He as [He | [<- | []]]; auto.
      * assumption.
      * lia.
Qed.

Lemma nth_error_filled (ds : list Z) (i : nat) :
  nth_error (filled (masked_where_zero ds)) i
  = option_map (fun d => if (d =? 0)%Z then INT64_MAX else d)
               (nth_error ds i).
Proof.
  unfold filled, masked_where_zero. rewrite map_map, nth_error_map.
  destruct (nth_error ds i) as [d |]; [simpl | reflexivity].
  now destruct (d =? 0)%Z.
Qed.

(** What the constructor computes: the first index at which the
    durations, with every 0 replaced by the largest [int64], are
    smallest. *)
Lemma np_argmin_filled (ds : list Z) (m : nat) :
  np_argmin (masked_where_zero ds) = Ok m ->
  exists v,
    nth_error (filled (masked_where_zero ds)) m = Some v
    /\ (forall e, In e (filled (masked_where_zero ds)) -> (v <= e)%Z)
    /\ (forall i e, (i < m)%nat ->
                    nth_error (filled (masked_where_zero ds)) i = Some e ->
                    (v < e)%Z).
Proof.
  unfold np_argmin.
  destruct (filled (masked_where_zero ds)) as [| x l]; [discriminate |].
  intros H; injection H as <-.
  apply (argmin_from_min l [x] x 0 1); try reflexivity.
  - intros e [<- | []]. lia.
  - intros i e Hi. lia.
  - lia.
Qed.

(** With a duration that is neither 0 nor the largest [int64], the index
    found is the index of the smallest duration that is not 0. *)
Lemma np_argmin_smallest (ds : list Z) (m : nat) :
  np_argmin (masked_where_zero ds) = Ok m ->
  Exists (fun d => d <> 0%Z /\ (d < INT64_MAX)%Z) ds ->
  exists d,
    nth_error ds m = Some d /\ d <> 0%Z /\
    forall d', In d' ds -> d' <> 0%Z -> (d <= d')%Z.
Proof.
  intros Hm Hex. apply np_argmin_filled in Hm.
  destruct Hm as (v & Hv & Hmin & _).
  assert (Hin : forall d', In d' ds -> d' <> 0%Z ->
                           In d' (filled (masked_where_zero ds))).
  { intros d' Hd' Hnz. unfold filled, masked_where_zero.
    rewrite map_map. apply in_map_iff. exists d'. split; [| assumption].
    destruct (Z.eqb_spec d' 0); [contradiction | reflexivity]. }
  apply Exists_exists in Hex. destruct Hex as (d0 & Hd0 & Hnz0 & Hlt0).
  pose proof (Hmin _ (Hin _ Hd0 Hnz0)) as Hle0.
  rewrite nth_error_filled in Hv.
  destruct (nth_error ds m) as [d |]; [simpl in Hv | discriminate].
  injection Hv as Hv. exists d. split; [reflexivity |].
  destruct (Z.eqb_spec d 0) as [Hz | Hd].
  - exfalso. lia.
  - subst v.
    split; [assumption |]. intros d' Hd' Hnz'. apply Hmin. now apply Hin.
Qed.

Lemma np_argmin_nonzero (ds : list Z) (m : nat) :
  np_argmin (masked_where_zero ds) = Ok m ->
  Exists (fun d => d <> 0%Z /\ (d < INT64_MAX)%Z) ds ->
  exists d, nth_error ds m = Some d /\ d <> 0%Z.
Proof.
  intros Hm Hex.
  destruct (np_argmin_smallest ds m Hm Hex) as (d & Hd & Hnz & _). eauto.
Qed.

Lemma np_argmin_all_zero (ds : list Z) (m : nat) :
  np_argmin (masked_where_zero ds) = Ok m ->
  Forall (fun d => d = 0%Z) ds -> m = 0%nat.
Proof.
  intros Hm Hz. apply np_argmin_filled in Hm.
  destruct Hm as (v & Hv & _ & Hfirst).
  destruct m as [| m]; [reflexivity |]. exfalso.
  rewrite nth_error_filled in Hv.
  destruct (nth_error ds (S m)) as [d |] eqn:Ed; [simpl in Hv | discriminate].
  pose proof (nth_error_In _ _ Ed) as Hd.
  rewrite Forall_forall in Hz. rewrite (Hz _ Hd) in Hv. simpl in Hv.
  injection Hv as <-.
  destruct ds as [| d0 ds]; [destruct m; discriminate |].
  specialize (Hfirst 0%nat INT64_MAX ltac:(lia)).
  rewrite nth_error_filled in Hfirst. simpl in Hfirst.
  rewrite (Hz d0 (or_introl eq_refl)) in Hfirst. simpl in Hfirst.
  specialize (Hfirst eq_refl). lia.
Qed.

Section SearchFacts.
Variables DecState DecOut LMState KenLM : Type.
Variable KENLM_AVAILABLE : bool.
Variable BaseScore : KenLM -> LMState -> pystr -> R * LMState.
Abbreviation hyp_t := (Hyp DecState DecOut LMState).
Abbreviation self_t := (BeamTDTInfer KenLM).
Implicit Types (self : self_t) (hyp max_hyp child : hyp_t).

Lemma maes_duration_idx_nonblank self (k : Z) (duration_idx : nat) :
  k <> blank self -> maes_duration_idx self k duration_idx = duration_idx.
Proof.
  intros Hk. unfold maes_duration_idx.
  destruct (Z.eqb_spec k (blank self)); [contradiction | reflexivity].
Qed.




(** *** The early end of a frame *)

Lemma dominating_in (x : hyp_t) (hyps' kept_hyps : list hyp_t) (h : hyp_t) :
  In h (dominating x hyps' kept_hyps) <->
  In h kept_hyps /\ forall w, In w (x :: hyps') -> score w < score h.
Proof.
  unfold dominating. rewrite filter_In, Rltb_true. split.
  - intros [Hin Hlt]. split; [assumption |]. intros w Hw.
    pose proof (py_max_ge score x hyps' w Hw). lra.
  - intros [Hin Hall]. split; [assumption |].
    apply Hall, py_max_in.
Qed.

Variable torch_logaddexp : R -> R -> R.
Variable score_frame : Z -> hyp_t -> JointOut DecState.

(** C6: a pass of the loop of a frame takes the best hypothesis off the
    working set, expands it with the non-blank pairs and with the blank
    token, and merges the duplicates of the pending set.  The frame stops
    early after the pass exactly when the working set is then not empty
    and at least [beam] pending hypotheses have a score greater than the
    best score of the working set: the loop of the frame then returns
    precisely these pending hypotheses, in ascending order of score, and
    the next frames start from them.  Otherwise the loop goes on, with
    the same two sets when the working set is not empty and with the
    [beam] best pending hypotheses when it is empty. *)
Theorem default_early_stop self (time_idx encoded_lengths beam beam_k : Z)
        (x : hyp_t) (hyps' kept_hyps : list hyp_t) max_hyp
        (rest hyps1 kept_nb kept_b : list hyp_t) :
  pop_max score x hyps' = (max_hyp, rest) ->
  default_nonblank self time_idx encoded_lengths beam_k max_hyp
    (score_frame time_idx max_hyp)
    (combine (total_logp_topks (score_frame time_idx max_hyp))
             (total_logp_topk_idxs (score_frame time_idx max_hyp)))
    rest kept_hyps = Ok (hyps1, kept_nb) ->
  default_blank self encoded_lengths max_hyp (score_frame time_idx max_hyp)
    (durations_logp_topk_idxs (score_frame time_idx max_hyp)) kept_nb
  = Ok kept_b ->
  let kept1 := remove_duplicate_hypotheses torch_logaddexp kept_b in
  let stops :=
    exists y hyps1',
      hyps1 = y :: hyps1'
      /\ (beam <= Z.of_nat (List.length (dominating y hyps1' kept1)))%Z in
  ((exists carried,
       default_pass torch_logaddexp score_frame self time_idx
         encoded_lengths beam beam_k x hyps' kept_hyps
       = Ok (Break carried)) <-> stops)
  /\ (forall y hyps1',
        hyps1 = y :: hyps1' ->
        (beam <= Z.of_nat (List.length (dominating y hyps1' kept1)))%Z ->
        let carried := sorted_asc score (dominating y hyps1' kept1) in
        default_pass torch_logaddexp score_frame self time_idx
          encoded_lengths beam beam_k x hyps' kept_hyps
        = Ok (Break carried)
        /\ (forall fuel : nat,
              default_frame torch_logaddexp score_frame (S fuel) self
                time_idx encoded_lengths beam beam_k (x :: hyps') kept_hyps
              = Some (Ok carried))
        /\ (forall (fuel : nat) (time_idxs : list Z) (kept0 : list hyp_t),
              filter (fun hyp => (last_frame hyp =? time_idx)%Z) kept0
              = x :: hyps' ->
              filter (fun hyp => (time_idx <? last_frame hyp)%Z) kept0
              = kept_hyps ->
              default_frames torch_logaddexp score_frame (S fuel) self
                encoded_lengths beam beam_k (time_idx :: time_idxs) kept0
              = default_frames torch_logaddexp score_frame (S fuel) self
                  encoded_lengths beam beam_k time_idxs carried)
        /\ Permutation carried (dominating y hyps1' kept1)
        /\ (forall h,
              In h carried <->
              In h kept1 /\ forall w, In w hyps1 -> score w < score h))
  /\ (~ stops ->
      let kept_next :=
        match hyps1 with
        | [] => slice_to (sorted_desc score kept1) beam
        | _ :: _ => kept1
        end in
      default_pass torch_logaddexp score_frame self time_idx
        encoded_lengths beam beam_k x hyps' kept_hyps
      = Ok (Next hyps1 kept_next)
      /\ forall fuel : nat,
          default_frame torch_logaddexp score_frame (S fuel) self time_idx
            encoded_lengths beam beam_k (x :: hyps') kept_hyps
          = default_frame torch_logaddexp score_frame fuel self time_idx
              encoded_lengths beam beam_k hyps1 kept_next).
Proof.
  intros Hpop Hnb Hb kept1 stops.
  assert (Hpass : default_pass torch_logaddexp score_frame self time_idx
                    encoded_lengths beam beam_k x hyps' kept_hyps
                  = Ok (default_prune beam hyps1 kept1)).
  { unfold default_pass. rewrite Hpop, Hnb. simpl. rewrite Hb. reflexivity. }
  assert (Hprune : forall y hyps1',
             hyps1 = y :: hyps1' ->
             default_prune beam hyps1 kept1
             = if (beam <=? Z.of_nat
                              (List.length (dominating y hyps1' kept1)))%Z
               then Break (sorted_asc score (dominating y hyps1' kept1))
               else Next hyps1 kept1).
  { intros y hyps1' ->. unfold default_prune.
    fold (dominating y hyps1' kept1).
    now rewrite (Permutation_length
                   (sorted_asc_permutation score
                      (dominating y hyps1' kept1))). }
  split; [| split].
  - rewrite Hpass. subst stops. split.
    + intros [carried Hc]. destruct hyps1 as [| y hyps1'].
      * discriminate Hc.
      * exists y, hyps1'. split; [reflexivity |].
        rewrite (Hprune y hyps1' eq_refl) in Hc.
        destruct (Z.leb_spec beam
                    (Z.of_nat (List.length (dominating y hyps1' kept1))));
          [assumption | discriminate Hc].
    + intros (y & hyps1' & E & Hle). rewrite (Hprune y hyps1' E).
      rewrite (proj2 (Z.leb_le _ _) Hle). eauto.
  - intros y hyps1' E Hle carried.
    assert (Hc : default_pass torch_logaddexp score_frame self time_idx
                   encoded_lengths beam beam_k x hyps' kept_hyps
                 = Ok (Break carried)).
    { rewrite Hpass, (Hprune y hyps1' E).
      now rewrite (proj2 (Z.leb_le _ _) Hle). }
    assert (Hf : forall fuel : nat,
               default_frame torch_logaddexp score_frame (S fuel) self
                 time_idx encoded_lengths beam beam_k (x :: hyps')
                 kept_hyps = Some (Ok carried))
      by (intros fuel; simpl; now rewrite Hc).
    pose proof (sorted_asc_permutation score (dominating y hyps1' kept1))
      as HP.
    split; [exact Hc |]. split; [exact Hf |]. split; [| split].
    + intros fuel time_idxs kept0 E1 E2.
      change (default_frames torch_logaddexp score_frame (S fuel) self
                encoded_lengths beam beam_k (time_idx :: time_idxs) kept0)
        with (match default_frame torch_logaddexp score_frame (S fuel) self
                      time_idx encoded_lengths beam beam_k
                      (filter (fun hyp => (last_frame hyp =? time_idx)%Z)
                              kept0)
                      (filter (fun hyp => (time_idx <? last_frame hyp)%Z)
                              kept0) with
              | Some (Ok kept_hyps') =>
                  default_frames torch_logaddexp score_frame (S fuel) self
                    encoded_lengths beam beam_k time_idxs kept_hyps'
              | r => r
              end).
      now rewrite E1, E2, Hf.
    + exact HP.
    + intros h. subst hyps1. rewrite <- dominating_in.
      split; apply Permutation_in; [exact HP | symmetry; exact HP].
  - intros Hno kept_next.
    assert (Hc : default_pass torch_logaddexp score_frame self time_idx
                   encoded_lengths beam beam_k x hyps' kept_hyps
                 = Ok (Next hyps1 kept_next)).
    { rewrite Hpass. subst kept_next. destruct hyps1 as [| y hyps1'].
      - reflexivity.
      - rewrite (Hprune y hyps1' eq_refl).
        destruct (Z.leb_spec beam
                    (Z.of_nat (List.length (dominating y hyps1' kept1))));
          [| reflexivity].
        exfalso. apply Hno. subst stops. eauto. }
    split; [exact Hc |]. intros fuel. simpl. now rewrite Hc.
Qed.

(** *** Durations of the expansions *)

Lemma is_zero_duration_idx_true self (duration_idx : nat) :
  is_zero_duration_idx self duration_idx = true <->
  zero_duration_idx self = Some duration_idx.
Proof.
  unfold is_zero_duration_idx.
  destruct (zero_duration_idx self) as [z |]; [| split; discriminate].
  rewrite Nat.eqb_eq. split; congruence.
Qed.

Section Durations.
Variable self : self_t.
Hypothesis durations_nonneg : Forall (fun d => (0 <= d)%Z) (durations self).
Hypothesis durations_indexed_self : durations_indexed self.

Lemma duration_nonneg (i : nat) (d : Z) :
  getitem (durations self) (Z.of_nat i) = Ok d -> (0 <= d)%Z.
Proof.
  rewrite getitem_nat. intros H. apply nth_error_In in H.
  rewrite Forall_forall in durations_nonneg. now apply durations_nonneg.
Qed.

Lemma min_non_zero_duration_pos (d : Z) :
  Exists (fun d => d <> 0%Z /\ (d < INT64_MAX)%Z) (durations self) ->
  getitem (durations self) (Z.of_nat (min_non_zero_duration_idx self))
  = Ok d ->
  (0 < d)%Z.
Proof.
  intros Hex Hd. pose proof (duration_nonneg _ _ Hd) as Hn.
  apply getitem_nat in Hd.
  destruct durations_indexed_self as [_ Hmin].
  destruct (np_argmin_nonzero _ _ Hmin Hex) as (d' & Hd' & Hnz).
  assert (d = d') by congruence. lia.
Qed.

Lemma other_duration_pos (i : nat) (d : Z) :
  (count_occ Z.eq_dec (durations self) 0%Z <= 1)%nat ->
  is_zero_duration_idx self i = false ->
  getitem (durations self) (Z.of_nat i) = Ok d ->
  (0 < d)%Z.
Proof.
  intros Hone Hz Hd. pose proof (duration_nonneg _ _ Hd) as Hn.
  apply getitem_nat in Hd.
  destruct (Z.eq_dec d 0) as [-> | Hnz]; [| lia].
  exfalso. pose proof (index_of_zero_nth _ _ Hd Hone) as Hi.
  destruct durations_indexed_self as [Hzero _].
  rewrite <- Hzero in Hi. apply is_zero_duration_idx_true in Hi.
  congruence.
Qed.
End Durations.

Lemma maes_lm_fusion_last_frame self hyp (new_hyp h' : hyp_t) (k : Z) :
  maes_lm_fusion KENLM_AVAILABLE BaseScore self hyp new_hyp k = Ok h' ->
  last_frame h' = last_frame new_hyp.
Proof.
  unfold maes_lm_fusion.
  destruct (ngram_lm self); [| intros H; injection H as <-; reflexivity].
  destruct (ngram_lm_state hyp); [| discriminate].
  destruct (compute_ngram_score KENLM_AVAILABLE BaseScore self _ k) as
    [[lm_score nxt] | e];
    [| discriminate].
  simpl. intros H; injection H as <-. reflexivity.
Qed.

(** X27: with durations that are not negative, at least one of them
    neither zero nor the largest [int64], and the duration zero configured
    at most once, the child of every expansion of the two searches has a
    last frame greater than or equal to the last frame of its parent, and
    the child of every expansion with the blank token has a last frame
    greater than the last frame of its parent; so has a hypothesis to
    which the last step of mAES adds the blank token. *)
Theorem expansions_advance_frames self :
  Forall (fun d => (0 <= d)%Z) (durations self) ->
  Exists (fun d => d <> 0%Z /\ (d < INT64_MAX)%Z) (durations self) ->
  (count_occ Z.eq_dec (durations self) 0%Z <= 1)%nat ->
  durations_indexed self ->
  (forall (time_idx encoded_lengths beam_k : Z) max_hyp
          (o : JointOut DecState) (total_logp_topk : R)
          (total_logp_topk_idx : nat) (duration : Z) child,
      default_nonblank_hyp self time_idx encoded_lengths beam_k max_hyp o
        total_logp_topk total_logp_topk_idx = Ok (duration, child) ->
      (last_frame max_hyp <= last_frame child)%Z)
  /\ (forall (encoded_lengths : Z) max_hyp (o : JointOut DecState)
             (duration_idx : nat) child,
        default_blank_hyp self encoded_lengths max_hyp o duration_idx
        = Ok (Some child) ->
        (last_frame max_hyp < last_frame child)%Z)
  /\ (forall (time_idx : Z) hyp (k : Z) (duration_idx : nat)
             (total_logp : R) (ls ls' : emissions DecState DecOut LMState),
        maes_expand KENLM_AVAILABLE BaseScore self time_idx hyp
          (k, duration_idx, total_logp) ls = Ok ls' ->
        exists child,
          (k = blank self
           /\ ls' = mkEmissions (list_b ls ++ [child]) (list_nb ls)
                      (list_exp ls)
           /\ (last_frame hyp < last_frame child)%Z)
          \/ (k <> blank self
              /\ (ls' = mkEmissions (list_b ls) (list_nb ls ++ [child])
                          (list_exp ls)
                  \/ ls' = mkEmissions (list_b ls) (list_nb ls)
                             (list_exp ls ++ [child]))
              /\ (last_frame hyp <= last_frame child)%Z))
  /\ (forall (o : BeamOut) hyp hyp',
        maes_add_blank self o hyp = Ok hyp' ->
        (last_frame hyp < last_frame hyp')%Z).
Proof.
  intros Hnn Hex Hone Hidx.
  split; [| split; [| split]].
  - intros time_idx encoded_lengths beam_k max_hyp o lp idx duration child.
    unfold default_nonblank_hyp.
    destruct (py_mod _ _) as [i |]; [simpl | discriminate].
    destruct (getitem (logp_topk_idxs o) i) as [tok |]; [simpl | discriminate].
    destruct (py_floordiv _ _) as [j |]; [simpl | discriminate].
    destruct (getitem (durations_logp_topk_idxs o) j) as [didx |];
      [simpl | discriminate].
    destruct (getitem (durations self) (Z.of_nat didx)) as [d |] eqn:Ed;
      [simpl | discriminate].
    intros H; injection H as <- <-. simpl.
    pose proof (duration_nonneg self Hnn _ _ Ed). lia.
  - intros encoded_lengths max_hyp o duration_idx child.
    unfold default_blank_hyp.
    assert (Hemit : forall i,
               (forall d, getitem (durations self) (Z.of_nat i) = Ok d ->
                          (0 < d)%Z) ->
               (d <- getitem (durations self) (Z.of_nat i) ;;
                logp_blank <- getitem (logp o) (blank self) ;;
                duration_logp <- getitem (durations_logp o) (Z.of_nat i) ;;
                Ok (Some (mkHyp (score max_hyp + logp_blank + duration_logp)
                                (y_sequence max_hyp) (dec_state max_hyp) []
                                (timestep max_hyp) encoded_lengths
                                (last_frame max_hyp + d)%Z None)))
               = Ok (Some child) ->
               (last_frame max_hyp < last_frame child)%Z).
    { intros i Hpos.
      destruct (getitem (durations self) (Z.of_nat i)) as [d |];
        [simpl | discriminate].
      destruct (getitem (logp o) (blank self)); [simpl | discriminate].
      destruct (getitem (durations_logp o) (Z.of_nat i));
        [simpl | discriminate].
      intros H; injection H as <-. simpl.
      specialize (Hpos d eq_refl). lia. }
    destruct (is_zero_duration_idx self duration_idx) eqn:Ez.
    + destruct (List.length (durations_logp_topk_idxs o) =? 1)%nat;
        [| discriminate].
      apply Hemit. intros d. now apply min_non_zero_duration_pos.
    + apply Hemit. intros d. now apply other_duration_pos.
  - intros time_idx hyp k duration_idx lp ls ls'.
    unfold maes_expand.
    destruct (getitem (durations self) _) as [d |] eqn:Ed;
      [simpl | discriminate].
    destruct (Z.eqb_spec k (blank self)) as [Ek | Ek].
    + intros H; injection H as <-. eexists. left.
      split; [assumption |]. split; [reflexivity |]. simpl.
      enough (0 < d)%Z by lia.
      unfold maes_duration_idx in Ed.
      rewrite (proj2 (Z.eqb_eq k (blank self)) Ek) in Ed. simpl in Ed.
      destruct (is_zero_duration_idx self duration_idx) eqn:Ez.
      * destruct (zero_duration_idx self) eqn:E0.
        -- simpl in Ed. now apply (min_non_zero_duration_pos self). 
        -- unfold is_zero_duration_idx in Ez. rewrite E0 in Ez.
           discriminate.
      * rewrite andb_false_r in Ed. now apply (other_duration_pos self) in Ed.
    + destruct (maes_lm_fusion _ _ _ _ _ _) as [h' |] eqn:Ef;
        [simpl | discriminate].
      apply maes_lm_fusion_last_frame in Ef. simpl in Ef.
      pose proof (duration_nonneg self Hnn _ _ Ed) as Hd.
      destruct (d =? 0)%Z; intros H; injection H as <-;
        exists h'; right; (split; [assumption |]);
        (split; [auto | lia]).
  - intros o hyp hyp'. unfold maes_add_blank.
    destruct (getitem (beam_logp o) (blank self)); [simpl | discriminate].
    destruct (getitem (beam_duration_logp o) _); [simpl | discriminate].
    destruct (getitem (durations self) _) as [d |] eqn:Ed;
      [simpl | discriminate].
    intros H; injection H as <-. simpl.
    enough (0 < d)%Z by lia.
    destruct (is_zero_duration_idx self (beam_max_duration_idx o)) eqn:Ez.
    + now apply (min_non_zero_duration_pos self).
    + now apply (other_duration_pos self) in Ed.
Qed.

(** C2: in mAES a blank expansion on the zero-duration bin always gets
    the smallest non-zero duration and is emitted as a blank emission,
    whatever the number of candidates among the top durations; default
    beam search gives the blank token the smallest non-zero duration only
    when the zero-duration bin is the only top duration, and skips the
    candidate otherwise. *)
Theorem blank_on_zero_duration self (z : nat) :
  zero_duration_idx self = Some z ->
  (forall (time_idx : Z) hyp (total_logp : R)
          (ls : emissions DecState DecOut LMState) (duration : Z),
      getitem (durations self) (Z.of_nat (min_non_zero_duration_idx self))
      = Ok duration ->
      exists child,
        maes_expand KENLM_AVAILABLE BaseScore self time_idx hyp
          (blank self, z, total_logp) ls
        = Ok (mkEmissions (list_b ls ++ [child]) (list_nb ls) (list_exp ls))
        /\ last_frame child = (last_frame hyp + duration)%Z
        /\ score child = score hyp + total_logp
        /\ y_sequence child = y_sequence hyp)
  /\ (forall (encoded_lengths : Z) max_hyp (o : JointOut DecState),
        List.length (durations_logp_topk_idxs o) <> 1%nat ->
        default_blank_hyp self encoded_lengths max_hyp o z = Ok None)
  /\ (forall (encoded_lengths : Z) max_hyp (o : JointOut DecState)
             (duration : Z) (logp_blank duration_logp : R),
        List.length (durations_logp_topk_idxs o) = 1%nat ->
        getitem (durations self) (Z.of_nat (min_non_zero_duration_idx self))
        = Ok duration ->
        getitem (logp o) (blank self) = Ok logp_blank ->
        getitem (durations_logp o)
                (Z.of_nat (min_non_zero_duration_idx self))
        = Ok duration_logp ->
        exists child,
          default_blank_hyp self encoded_lengths max_hyp o z
          = Ok (Some child)
          /\ last_frame child = (last_frame max_hyp + duration)%Z
          /\ score child = score max_hyp + logp_blank + duration_logp
          /\ y_sequence child = y_sequence max_hyp).
Proof.
  intros Hz.
  assert (Ez : is_zero_duration_idx self z = true)
    by now apply is_zero_duration_idx_true.
  split; [| split].
  - intros time_idx hyp lp ls duration Hd.
    unfold maes_expand, maes_duration_idx.
    rewrite Z.eqb_refl, Hz, Ez. simpl. rewrite Hd. simpl.
    eexists. split; [reflexivity |]. simpl. auto.
  - intros encoded_lengths max_hyp o Hlen.
    unfold default_blank_hyp. rewrite Ez.
    now rewrite (proj2 (Nat.eqb_neq _ _) Hlen).
  - intros encoded_lengths max_hyp o duration logp_blank duration_logp
      Hlen Hd Hb Hl.
    unfold default_blank_hyp. rewrite Ez, Hlen. simpl.
    rewrite Hd, Hb, Hl. simpl.
    eexists. split; [reflexivity |]. simpl. auto.
Qed.
End SearchFacts.

(** * Further properties *)

(** ** Deduplication *)

Section DedupMore.
Variables DecState DecOut LMState : Type.
Variable torch_logaddexp : R -> R -> R.
Abbreviation hyp := (Hyp DecState DecOut LMState).
Implicit Types (h g k : hyp) (l p : list hyp).

Lemma firsts_length p : (List.length (firsts p) <= List.length p)%nat.
Proof.
  induction p as [| x p IH] using rev_ind; [reflexivity |].
  rewrite firsts_snoc, length_app. simpl.
  destruct (firsts_step_cases _ _ _ (firsts p) x) as [[-> _] | [-> _]].
  - lia.
  - rewrite length_app. simpl. lia.
Qed.

Lemma hkey_fresh p x :
  ~ In (hkey x) (map hkey p) ->
  forall k, In k p -> is_duplicate k x = false.
Proof.
  intros Hn k Hk. destruct (is_duplicate k x) eqn:E; [| reflexivity].
  exfalso. apply Hn. apply is_duplicate_hkey in E. rewrite <- E.
  now apply in_map.
Qed.

Lemma firsts_of_nodup p : NoDup (map hkey p) -> firsts p = p.
Proof.
  induction p as [| x p IH] using rev_ind; [reflexivity |].
  rewrite map_app. simpl. intros Hnd.
  apply NoDup_remove in Hnd. rewrite app_nil_r in Hnd.
  destruct Hnd as [Hnd Hx].
  rewrite firsts_snoc, (IH Hnd).
  destruct (firsts_step_cases _ _ _ p x) as [[_ [k [Hk Ek]]] | [-> _]];
    [| reflexivity].
  rewrite (hkey_fresh p x Hx k Hk) in Ek. discriminate.
Qed.

Lemma group_of_nodup p h :
  NoDup (map hkey p) -> In h p -> group h p = [h].
Proof.
  unfold group. induction p as [| x p IH]; [easy |].
  simpl. intros Hnd Hin. inversion Hnd as [| ? ? Hx Hnd']; subst.
  destruct Hin as [-> | Hin].
  - rewrite is_duplicate_refl. f_equal.
    apply (group_fresh _ _ _ h p). now apply hkey_fresh.
  - rewrite (IH Hnd' Hin).
    destruct (is_duplicate x h) eqn:E; [| reflexivity].
    exfalso. apply Hx. apply is_duplicate_hkey in E. rewrite E.
    now apply in_map.
Qed.

(** Without duplicates nothing is merged: the list is sorted only. *)
Lemma dedup_of_nodup l :
  NoDup (map hkey l) ->
  remove_duplicate_hypotheses torch_logaddexp l = sorted_desc score l.
Proof.
  intros Hnd.
  assert (Hs : NoDup (map hkey (sorted_desc score l))).
  { eapply Permutation_NoDup; [| exact Hnd].
    apply Permutation_map. symmetry. apply sorted_desc_permutation. }
  rewrite remove_duplicate_hypotheses_merged, (firsts_of_nodup _ Hs).
  rewrite <- (map_id (sorted_desc score l)) at 3.
  apply map_ext_in. intros h Hh. unfold merged.
  rewrite (group_of_nodup _ h Hs Hh). apply set_score_same.
Qed.

(** X1: the keys (token sequence, last frame) of the result of
    remove_duplicate_hypotheses are the keys of its input: no hypothesis
    loses its key and no key appears; the result is never longer than the
    input. *)
Theorem remove_duplicate_hypotheses_keys l :
  (forall key : list Z * Z,
      In key (map hkey (remove_duplicate_hypotheses torch_logaddexp l))
      <-> In key (map hkey l))
  /\ (List.length (remove_duplicate_hypotheses torch_logaddexp l)
      <= List.length l)%nat.
Proof.
  split.
  - intros key. rewrite !in_map_iff. split.
    + intros [m [<- Hm]]. apply remove_duplicate_hypotheses_in in Hm.
      destruct Hm as [h [Hh ->]]. exists h. split; [reflexivity |].
      eapply Permutation_in; [apply (sorted_desc_permutation score) |].
      now apply firsts_incl.
    + intros [g [<- Hg]].
      destruct (remove_duplicate_hypotheses_cover _ _ _ torch_logaddexp l g Hg)
        as (m & Hm & Ed & _).
      exists m. split; [| assumption]. now apply is_duplicate_hkey.
  - rewrite remove_duplicate_hypotheses_merged, length_map.
    rewrite <- (Permutation_length (sorted_desc_permutation score l)).
    apply firsts_length.
Qed.

(** X2: on a list without two hypotheses of the same token sequence and
    last frame, remove_duplicate_hypotheses changes no score and drops
    nothing: it returns the list in descending order of score, hypotheses
    of equal scores in their input order. *)
Theorem remove_duplicate_hypotheses_without_duplicates l :
  NoDup (map hkey l) ->
  remove_duplicate_hypotheses torch_logaddexp l = sorted_desc score l.
Proof. apply dedup_of_nodup. Qed.

(** X3: a second pass of remove_duplicate_hypotheses merges nothing: it
    only sorts the result of the first pass again. *)
Theorem remove_duplicate_hypotheses_twice l :
  remove_duplicate_hypotheses torch_logaddexp
    (remove_duplicate_hypotheses torch_logaddexp l)
  = sorted_desc score (remove_duplicate_hypotheses torch_logaddexp l).
Proof. apply dedup_of_nodup, remove_duplicate_hypotheses_nodup. Qed.
End DedupMore.
(** ** Construction *)

Lemma index_of_zero_first (ds : list Z) :
  match index_of_zero ds with
  | Some z =>
      nth_error ds z = Some 0%Z
      /\ forall i, (i < z)%nat -> nth_error ds i <> Some 0%Z
  | None => ~ In 0%Z ds
  end.
Proof.
  induction ds as [| d ds IH]; simpl; [tauto |].
  destruct (Z.eqb_spec d 0) as [-> | Hd].
  - split; [reflexivity | intros i Hi; lia].
  - destruct (index_of_zero ds) as [z |]; simpl.
    + destruct IH as [Hz Hfirst]. split; [assumption |].
      intros [| i] Hi; simpl; [congruence | apply Hfirst; lia].
    + intros [H | H]; [congruence | contradiction].
Qed.

(** Without a duration that is neither 0 nor the largest [int64], every
    entry counts as the largest [int64] and the first index is found. *)
Lemma np_argmin_masked (ds : list Z) (m : nat) :
  np_argmin (masked_where_zero ds) = Ok m ->
  Forall (fun d => d = 0%Z \/ d = INT64_MAX) ds -> m = 0%nat.
Proof.
  intros Hm Hz. apply np_argmin_filled in Hm.
  destruct Hm as (v & Hv & _ & Hfirst).
  destruct m as [| m]; [reflexivity |]. exfalso.
  rewrite Forall_forall in Hz.
  assert (Hfill : forall i e,
             nth_error (filled (masked_where_zero ds)) i = Some e ->
             e = INT64_MAX).
  { intros i e. rewrite nth_error_filled.
    destruct (nth_error ds i) as [d |] eqn:Ed; [simpl | discriminate].
    intros H; injection H as <-.
    destruct (Hz d (nth_error_In _ _ Ed)) as [-> | ->]; reflexivity. }
  pose proof (Hfill _ _ Hv) as ->.
  destruct (nth_error (filled (masked_where_zero ds)) 0) as [e |] eqn:E0.
  - pose proof (Hfill _ _ E0) as ->.
    specialize (Hfirst 0%nat INT64_MAX ltac:(lia) E0). lia.
  - apply nth_error_None in E0.
    assert (Hlt : (S m < List.length (filled (masked_where_zero ds)))%nat)
      by (apply nth_error_Some; congruence).
    lia.
Qed.

(** The index found is the first one of the smallest duration. *)
Lemma np_argmin_first (ds : list Z) (m : nat) (d : Z) :
  np_argmin (masked_where_zero ds) = Ok m ->
  nth_error ds m = Some d -> d <> 0%Z ->
  forall i d', (i < m)%nat -> nth_error ds i = Some d' ->
               d' = 0%Z \/ (d < d')%Z.
Proof.
  intros Hm Hd Hnz i d' Hi Hd'. apply np_argmin_filled in Hm.
  destruct Hm as (v & Hv & _ & Hfirst).
  rewrite nth_error_filled, Hd in Hv. simpl in Hv.
  destruct (Z.eqb_spec d 0); [contradiction |]. injection Hv as <-.
  specialize (Hfirst i (if (d' =? 0)%Z then INT64_MAX else d') Hi).
  rewrite nth_error_filled, Hd' in Hfirst. specialize (Hfirst eq_refl).
  destruct (Z.eqb_spec d' 0); [now left | now right].
Qed.

Section InitMore.
Variables KenLM : Type.
Variable kenlm_Model : string -> result KenLM.
Variable KENLM_AVAILABLE : bool.

Ltac init_split :=
  repeat match goal with
    | |- context [String.eqb ?s ?t] =>
        destruct (String.eqb_spec s t); try subst s; simpl
    | |- context [(?x <? ?y)%Z] => destruct (Z.ltb_spec x y); simpl
    | |- context [truthy ?m] => destruct (truthy m) eqn:?; simpl
    | |- context [if ?b then _ else _] => is_var b; destruct b; simpl
    end.

Ltac init_loader :=
  match goal with
  | H : _ /\ _ /\ _ /\ (exists _, _ /\ _) |- _ =>
      let p := fresh "p" in
      let Hp := fresh "Hp" in
      let Hk := fresh "Hk" in
      destruct H as (_ & _ & _ & p & Hp & Hk);
      try discriminate Hp; injection Hp as <-; congruence
  end.

Ltac init_checks := intuition (try lia; try congruence; try discriminate).

Ltac init_reached :=
  split; [| split; [| split]];
  [ init_checks | discriminate | first [assumption | reflexivity] | eauto ].

Ltac init_solve :=
  split;
  [ let Hr := fresh "Hr" in
    intros Hr; try discriminate Hr; try (injection Hr as Hr; subst);
    first [ solve [left; init_checks] | solve [right; init_reached] ]
  | intros [? | ?];
    first [ reflexivity
          | exfalso; first [ solve [init_checks] | init_loader ]
          | init_loader ] ].

(** X6: the exception of a refused construction, for a list of [int64]
    durations.  It is [NotImplementedError] exactly for a search type
    that is not supported (with [preserve_alignments] false and a beam of
    at least 1: the first two checks come before), or when the loader
    raises it; [ImportError] exactly when a model of the language is
    supplied with mAES, every other check passes and KenLM is not
    available, or when the loader raises it; and every exception is
    [ValueError], [NotImplementedError], [ImportError] or the exception
    that the loader raises on the model supplied, after every check; the
    second check of [preserve_alignments] is never reached. *)
Theorem init_exception (a : Args.t) :
  Forall int64 (Args.durations a) ->
  (init kenlm_Model KENLM_AVAILABLE a = Raise NotImplementedError <->
   (Args.preserve_alignments a = false /\ (1 <= Args.beam_size a)%Z
    /\ ~ supported (Args.search_type a))
   \/ load_raises kenlm_Model KENLM_AVAILABLE a NotImplementedError)
  /\ (init kenlm_Model KENLM_AVAILABLE a = Raise ImportError <->
      (Args.preserve_alignments a = false /\ (1 <= Args.beam_size a)%Z
       /\ Args.search_type a = "maes"%string
       /\ (0 <= Args.maes_prefix_alpha a)%Z
       /\ (Args.beam_size a + Args.maes_expansion_beta a
           <= Args.vocab_size a)%Z
       /\ (2 <= Args.maes_num_steps a)%Z
       /\ Args.durations a <> []
       /\ truthy (Args.ngram_lm_model a) = true
       /\ KENLM_AVAILABLE = false)
      \/ load_raises kenlm_Model KENLM_AVAILABLE a ImportError)
  /\ (forall e, init kenlm_Model KENLM_AVAILABLE a = Raise e ->
                e = ValueError \/ e = NotImplementedError
                \/ e = ImportError
                \/ load_raises kenlm_Model KENLM_AVAILABLE a e).
Proof.
  intros _.
  destruct a as [bl vs ds bs st sn rb ns pa ga be te pr lm al].
  unfold init, load_raises, rejected, supported, select_search, init_maes,
    init_ngram_lm, bind; simpl.
  split; [| split].
  - destruct lm as [path |];
      [destruct (kenlm_Model path) as [m | e0] eqn:Em |];
      destruct ds as [| d ds]; simpl; init_split; init_solve.
  - destruct lm as [path |];
      [destruct (kenlm_Model path) as [m | e0] eqn:Em |];
      destruct ds as [| d ds]; simpl; init_split; init_solve.
  - intros e.
    destruct lm as [path |];
      [destruct (kenlm_Model path) as [m | e0] eqn:Em |];
      destruct ds as [| d ds]; simpl; init_split;
      intros Hraise; try discriminate; injection Hraise as <-; auto;
      right; right; right; init_reached.
Qed.

(** X7: what a successful construction computes from a list of [int64]
    durations.  [max_candidates] is the beam size, plus
    [maes_expansion_beta] for mAES; the token offset is 0;
    [zero_duration_idx] is the index of the first duration 0, and [None]
    when no duration is 0; [min_non_zero_duration_idx] is the first index
    of the smallest duration that is not 0 when a duration is neither 0
    nor the largest [int64], and 0 when every duration is 0 or the
    largest [int64] (a masked 0 counts as the largest [int64]). *)
Theorem init_computes (a : Args.t) (self : BeamTDTInfer KenLM) :
  Forall int64 (Args.durations a) ->
  init kenlm_Model KENLM_AVAILABLE a = Ok self ->
  durations self = Args.durations a
  /\ token_offset self = 0%Z
  /\ max_candidates self
     = (if String.eqb (Args.search_type a) "maes"
        then Args.beam_size a + Args.maes_expansion_beta a
        else Args.beam_size a)%Z
  /\ match zero_duration_idx self with
     | Some z =>
         nth_error (durations self) z = Some 0%Z
         /\ forall i, (i < z)%nat -> nth_error (durations self) i <> Some 0%Z
     | None => ~ In 0%Z (durations self)
     end
  /\ (Exists (fun d => d <> 0%Z /\ (d < INT64_MAX)%Z) (durations self) ->
      exists d,
        nth_error (durations self) (min_non_zero_duration_idx self) = Some d
        /\ d <> 0%Z
        /\ (forall d', In d' (durations self) -> d' <> 0%Z -> (d <= d')%Z)
        /\ (forall i d',
               (i < min_non_zero_duration_idx self)%nat ->
               nth_error (durations self) i = Some d' ->
               d' = 0%Z \/ (d < d')%Z))
  /\ (Forall (fun d => d = 0%Z \/ d = INT64_MAX) (durations self) ->
      min_non_zero_duration_idx self = 0%nat).
Proof.
  intros _. unfold init.
  destruct (Args.preserve_alignments a); [discriminate |].
  destruct (Args.beam_size a <? 1)%Z; [discriminate |].
  destruct (select_search _); [simpl | discriminate].
  destruct (init_maes a) as [mc |] eqn:Em; [simpl | discriminate].
  destruct (np_argmin _) as [m |] eqn:E; [simpl | discriminate].
  destruct (init_ngram_lm _ _ a); [simpl | discriminate].
  intros H; injection H as <-. simpl.
  split; [reflexivity |]. split; [reflexivity |].
  split.
  { unfold init_maes in Em.
    destruct (String.eqb (Args.search_type a) "maes"); [| congruence].
    destruct (Args.maes_prefix_alpha a <? 0)%Z; [discriminate |].
    destruct (Args.vocab_size a <? _)%Z; [discriminate |].
    destruct (Args.maes_num_steps a <? 2)%Z; [discriminate |].
    congruence. }
  split; [apply index_of_zero_first |].
  split.
  - intros Hex.
    destruct (np_argmin_smallest _ _ E Hex) as (d & Hd & Hnz & Hmin).
    exists d. repeat split; try assumption.
    now apply (np_argmin_first _ _ _ E Hd Hnz).
  - now apply np_argmin_masked.
Qed.
End InitMore.

(** ** Labels of the language model *)


Lemma to_int_printable (z : Z) :
  Z.to_int z <> Decimal.Pos Decimal.Nil /\ Z.to_int z <> Decimal.Neg
    Decimal.Nil.
Proof.
  destruct z; simpl; split; try discriminate;
    intros H; injection H as H;
    now apply DecimalPos.Unsigned.to_uint_nonnil in H.
Qed.

(** [str] of an integer determines the integer. *)
Lemma py_str_int_injective (a b : Z) : py_str_int a = py_str_int b -> a = b.
Proof.
  unfold py_str_int. intros H.
  assert (Hf : forall c c' : ascii,
             Z.of_nat (nat_of_ascii c) = Z.of_nat (nat_of_ascii c') -> c = c').
  { intros c c' E. apply Nat2Z.inj in E.
    rewrite <- (ascii_nat_embedding c), <- (ascii_nat_embedding c').
    now rewrite E. }
  assert (Hl : list_ascii_of_string (NilZero.string_of_int (Z.to_int a))
               = list_ascii_of_string (NilZero.string_of_int (Z.to_int b))).
  { revert H. generalize (list_ascii_of_string
                            (NilZero.string_of_int (Z.to_int a))).
    generalize (list_ascii_of_string (NilZero.string_of_int (Z.to_int b))).
    intros l2 l1. revert l2.
    induction l1 as [| c l1 IH]; intros [| c' l2]; simpl; try discriminate;
      [reflexivity |].
    intros E. injection E as E1 E2. f_equal; [now apply Hf | now apply IH]. }
  apply (f_equal string_of_list_ascii) in Hl.
  rewrite !string_of_list_ascii_of_string in Hl.
  apply (f_equal NilZero.int_of_string) in Hl.
  destruct (to_int_printable a) as [Ha1 Ha2].
  destruct (to_int_printable b) as [Hb1 Hb2].
  rewrite !NilZero.isi in Hl by assumption.
  injection Hl as Hl. apply (f_equal Z.of_int) in Hl.
  now rewrite !DecimalZ.of_to in Hl.
Qed.

Section LabelFacts.
Variables DecState DecOut LMState KenLM : Type.
Variable KENLM_AVAILABLE : bool.
Variable BaseScore : KenLM -> LMState -> pystr -> R * LMState.
Abbreviation self_t := (BeamTDTInfer KenLM).
Implicit Types (self : self_t).

(** X8: two different labels are never written in the same way for the
    model of the language: the decimal digits of [str(label)] and the
    character [chr(label + token_offset)] both determine the label. *)
Theorem lm_label_injective self (a b : Z) (wa wb : pystr) :
  a <> b -> lm_label self a = Ok wa -> lm_label self b = Ok wb -> wa <> wb.
Proof.
  intros Hab Ha Hb Hw. subst wb. apply Hab. revert Ha Hb.
  unfold lm_label, py_chr.
  destruct (token_offset self =? 0)%Z.
  - intros Ha Hb. injection Ha as <-. injection Hb as Hb.
    symmetry. now apply py_str_int_injective.
  - destruct ((0 <=? a + token_offset self)
              && (a + token_offset self <? 1114112))%Z; [| discriminate].
    destruct ((0 <=? b + token_offset self)
              && (b + token_offset self <? 1114112))%Z; [| discriminate].
    intros Ha Hb. injection Ha as <-. injection Hb as Hb. lia.
Qed.

End LabelFacts.

(** ** Invariants of default beam search *)

Lemma slice_to_length {A : Type} (l : list A) (n : Z) :
  (0 <= n)%Z -> (List.length (slice_to l n) <= Z.to_nat n)%nat.
Proof.
  intros Hn. unfold slice_to.
  destruct (Z.ltb_spec n 0); [lia |]. rewrite length_firstn. lia.
Qed.

Lemma slice_to_incl {A : Type} (l : list A) (n : Z) (x : A) :
  In x (slice_to l n) -> In x l.
Proof.
  unfold slice_to. intros H.
  rewrite <- (firstn_skipn (Z.to_nat
    (if (n <? 0)%Z then (Z.of_nat (List.length l) + n)%Z else n)) l).
  apply in_or_app. now left.
Qed.

Lemma slice_to_nonempty {A : Type} (l : list A) (n : Z) :
  (1 <= n)%Z -> l <> [] -> slice_to l n <> [].
Proof.
  intros Hn Hl. unfold slice_to.
  destruct (Z.ltb_spec n 0); [lia |].
  destruct l as [| x l]; [congruence |].
  destruct (Z.to_nat n) eqn:E; [lia |]. simpl. discriminate.
Qed.

Section DefaultInvariants.
Variables DecState DecOut LMState KenLM : Type.
Variable torch_logaddexp : R -> R -> R.
Variable score_frame :
  Z -> Hyp DecState DecOut LMState -> JointOut DecState.
Abbreviation hyp_t := (Hyp DecState DecOut LMState).
Abbreviation self_t := (BeamTDTInfer KenLM).
Implicit Types (self : self_t) (h c max_hyp : hyp_t)
         (hyps kept : list hyp_t) (o : JointOut DecState).

(** *** What a pass appends *)

Lemma default_nonblank_hyp_fields self (time_idx encoded_lengths beam_k : Z)
      max_hyp o (lp : R) (idx : nat) (d : Z) c :
  default_nonblank_hyp self time_idx encoded_lengths beam_k max_hyp o lp idx
  = Ok (d, c) ->
  In d (durations self)
  /\ (exists token_idx, y_sequence c = y_sequence max_hyp ++ [token_idx])
  /\ timestep c = timestep max_hyp ++ [(time_idx + d)%Z]
  /\ last_frame c = (last_frame max_hyp + d)%Z
  /\ score c = score max_hyp + lp.
Proof.
  unfold default_nonblank_hyp.
  destruct (py_mod _ _) as [i |]; [simpl | discriminate].
  destruct (getitem (logp_topk_idxs o) i) as [tok |]; [simpl | discriminate].
  destruct (py_floordiv _ _) as [j |]; [simpl | discriminate].
  destruct (getitem (durations_logp_topk_idxs o) j) as [didx |];
    [simpl | discriminate].
  destruct (getitem (durations self) (Z.of_nat didx)) as [d' |] eqn:Ed;
    [simpl | discriminate].
  intros H; injection H as <- <-. simpl.
  apply getitem_nat, nth_error_In in Ed. eauto 10.
Qed.

Lemma default_blank_hyp_fields self (encoded_lengths : Z) max_hyp o
      (duration_idx : nat) c :
  default_blank_hyp self encoded_lengths max_hyp o duration_idx
  = Ok (Some c) ->
  y_sequence c = y_sequence max_hyp /\ timestep c = timestep max_hyp
  /\ exists (i : nat) (d : Z),
      getitem (durations self) (Z.of_nat i) = Ok d
      /\ last_frame c = (last_frame max_hyp + d)%Z
      /\ (is_zero_duration_idx self duration_idx = true
          /\ i = min_non_zero_duration_idx self
          \/ is_zero_duration_idx self duration_idx = false
             /\ i = duration_idx).
Proof.
  unfold default_blank_hyp.
  assert (Hemit : forall i,
             (d <- getitem (durations self) (Z.of_nat i) ;;
              logp_blank <- getitem (logp o) (blank self) ;;
              duration_logp <- getitem (durations_logp o) (Z.of_nat i) ;;
              Ok (Some (mkHyp (score max_hyp + logp_blank + duration_logp)
                              (y_sequence max_hyp) (dec_state max_hyp) []
                              (timestep max_hyp) encoded_lengths
                              (last_frame max_hyp + d)%Z None)))
             = Ok (Some c) ->
             y_sequence c = y_sequence max_hyp
             /\ timestep c = timestep max_hyp
             /\ exists d, getitem (durations self) (Z.of_nat i) = Ok d
                          /\ last_frame c = (last_frame max_hyp + d)%Z).
  { intros i.
    destruct (getitem (durations self) (Z.of_nat i)) as [d |];
      [simpl | discriminate].
    destruct (getitem (logp o) (blank self)); [simpl | discriminate].
    destruct (getitem (durations_logp o) (Z.of_nat i));
      [simpl | discriminate].
    intros H; injection H as <-. simpl. eauto. }
  destruct (is_zero_duration_idx self duration_idx) eqn:Ez.
  - destruct (List.length (durations_logp_topk_idxs o) =? 1)%nat;
      [| discriminate].
    intros H. destruct (Hemit _ H) as (Hy & Ht & d & Hd & Hl).
    split; [assumption |]. split; [assumption |]. eauto 10.
  - intros H. destruct (Hemit _ H) as (Hy & Ht & d & Hd & Hl).
    split; [assumption |]. split; [assumption |]. eauto 10.
Qed.

Lemma default_nonblank_appends self (time_idx encoded_lengths beam_k : Z)
      max_hyp o (pairs : list (R * nat)) hyps kept hyps1 kept1 :
  default_nonblank self time_idx encoded_lengths beam_k max_hyp o pairs
    hyps kept = Ok (hyps1, kept1) ->
  exists hs ks,
    hyps1 = hyps ++ hs /\ kept1 = kept ++ ks
    /\ Forall (fun c => exists lp idx,
                   default_nonblank_hyp self time_idx encoded_lengths beam_k
                     max_hyp o lp idx = Ok (0%Z, c)) hs
    /\ Forall (fun c => exists lp idx d,
                   default_nonblank_hyp self time_idx encoded_lengths beam_k
                     max_hyp o lp idx = Ok (d, c) /\ d <> 0%Z) ks.
Proof.
  revert hyps kept.
  induction pairs as [| [lp idx] pairs IH]; intros hyps kept; simpl.
  - intros H; injection H as <- <-. exists [], [].
    rewrite !app_nil_r. auto.
  - destruct (default_nonblank_hyp _ _ _ _ _ _ lp idx) as [[d c] |] eqn:Ec;
      [simpl | discriminate].
    destruct (Z.eqb_spec d 0) as [-> | Hd]; intros H;
      destruct (IH _ _ H) as (hs & ks & -> & -> & Hhs & Hks).
    + exists (c :: hs), ks. rewrite <- app_assoc. simpl.
      repeat split; try assumption. constructor; eauto.
    + exists hs, (c :: ks). rewrite <- app_assoc. simpl.
      repeat split; try assumption. constructor; eauto.
Qed.

Lemma default_blank_appends self (encoded_lengths : Z) max_hyp o
      (idxs : list nat) kept kept1 :
  default_blank self encoded_lengths max_hyp o idxs kept = Ok kept1 ->
  exists bs,
    kept1 = kept ++ bs
    /\ Forall (fun c => exists duration_idx,
                   In duration_idx idxs
                   /\ default_blank_hyp self encoded_lengths max_hyp o
                        duration_idx = Ok (Some c)) bs
    /\ forall duration_idx,
        In duration_idx idxs ->
        default_blank_hyp self encoded_lengths max_hyp o duration_idx
        <> Ok None ->
        bs <> [].
Proof.
  revert kept.
  induction idxs as [| i idxs IH]; intros kept; simpl.
  - intros H; injection H as <-. exists []. rewrite app_nil_r.
    split; [reflexivity |]. split; [constructor | contradiction].
  - destruct (default_blank_hyp self encoded_lengths max_hyp o i)
      as [[c |] |] eqn:Ec; [simpl | simpl | discriminate]; intros H;
      destruct (IH _ H) as (bs & -> & Hbs & Hne).
    + exists (c :: bs). rewrite <- app_assoc. simpl.
      split; [reflexivity |]. split.
      * constructor; [eauto |].
        eapply Forall_impl; [| exact Hbs].
        intros a (j & Hj & Ha). eauto.
      * intros; discriminate.
    + exists bs. split; [reflexivity |]. split.
      * eapply Forall_impl; [| exact Hbs].
        intros a (j & Hj & Ha). eauto.
      * intros j [<- | Hj] Hn; [contradiction | eauto].
Qed.

(** One pass: the best hypothesis leaves the working set, its expansions of
    duration zero enter it, and the others enter the pending set with its
    blank expansions. *)
Lemma default_pass_appends self (time_idx encoded_lengths beam beam_k : Z)
      (x : hyp_t) hyps kept (r : pass DecState DecOut LMState) :
  default_pass torch_logaddexp score_frame self time_idx encoded_lengths
    beam beam_k x hyps kept = Ok r ->
  exists max_hyp rest hs ks bs,
    Permutation (max_hyp :: rest) (x :: hyps)
    /\ Forall (fun c => exists lp idx,
                   default_nonblank_hyp self time_idx encoded_lengths beam_k
                     max_hyp (score_frame time_idx max_hyp) lp idx
                   = Ok (0%Z, c)) hs
    /\ Forall (fun c => exists lp idx d,
                   default_nonblank_hyp self time_idx encoded_lengths beam_k
                     max_hyp (score_frame time_idx max_hyp) lp idx
                   = Ok (d, c) /\ d <> 0%Z) ks
    /\ Forall (fun c => exists duration_idx,
                   In duration_idx
                      (durations_logp_topk_idxs
                         (score_frame time_idx max_hyp))
                   /\ default_blank_hyp self encoded_lengths max_hyp
                        (score_frame time_idx max_hyp) duration_idx
                      = Ok (Some c)) bs
    /\ (forall duration_idx,
           In duration_idx
              (durations_logp_topk_idxs (score_frame time_idx max_hyp)) ->
           default_blank_hyp self encoded_lengths max_hyp
             (score_frame time_idx max_hyp) duration_idx <> Ok None ->
           bs <> [])
    /\ r = default_prune beam (rest ++ hs)
             (remove_duplicate_hypotheses torch_logaddexp
                ((kept ++ ks) ++ bs)).
Proof.
  unfold default_pass.
  pose proof (pop_max_spec score x hyps) as Hpop.
  destruct (pop_max score x hyps) as [max_hyp rest]. destruct Hpop as [HP _].
  destruct (default_nonblank _ _ _ _ _ _ _ _ _) as [[hyps1 kept1] |] eqn:En;
    [simpl | discriminate].
  destruct (default_blank _ _ _ _ _ _) as [kept2 |] eqn:Eb;
    [simpl | discriminate].
  intros H; injection H as <-.
  destruct (default_nonblank_appends _ _ _ _ _ _ _ _ _ _ _ En)
    as (hs & ks & -> & -> & Hhs & Hks).
  destruct (default_blank_appends _ _ _ _ _ _ _ Eb) as (bs & -> & Hbs & Hne).
  exists max_hyp, rest, hs, ks, bs. auto 10.
Qed.

(** *** Predicates kept by the frame *)

Lemma remove_duplicate_hypotheses_forall (P : hyp_t -> Prop) (l : list hyp_t) :
  (forall h s, P h -> P (set_score h s)) ->
  Forall P l -> Forall P (remove_duplicate_hypotheses torch_logaddexp l).
Proof.
  intros Hs Hl. rewrite Forall_forall in *. intros m Hm.
  apply remove_duplicate_hypotheses_in in Hm. destruct Hm as [h [Hh ->]].
  apply Hs, Hl.
  eapply Permutation_in; [apply (sorted_desc_permutation score) |].
  now apply firsts_incl.
Qed.

Lemma remove_duplicate_hypotheses_nonempty (l : list hyp_t) :
  l <> [] -> remove_duplicate_hypotheses torch_logaddexp l <> [].
Proof.
  destruct l as [| g l]; [congruence |]. intros _ Hnil.
  destruct (remove_duplicate_hypotheses_cover _ _ _ torch_logaddexp
              (g :: l) g (or_introl eq_refl)) as (m & Hm & _).
  rewrite Hnil in Hm. contradiction.
Qed.

Lemma default_prune_forall (PH PK : hyp_t -> Prop) (beam : Z) hyps kept :
  Forall PH hyps -> Forall PK kept ->
  match default_prune beam hyps kept with
  | Next hyps1 kept1 => Forall PH hyps1 /\ Forall PK kept1
  | Break kept1 => Forall PK kept1
  end.
Proof.
  intros HH HK. unfold default_prune. destruct hyps as [| x hyps'].
  - split; [constructor |]. rewrite Forall_forall in *.
    intros h Hh. apply slice_to_incl in Hh. apply HK.
    eapply Permutation_in; [apply sorted_desc_permutation | exact Hh].
  - destruct (beam <=? _)%Z; [| auto].
    rewrite Forall_forall in *. intros h Hh.
    apply (Permutation_in _ (sorted_asc_permutation score _)) in Hh.
    apply filter_In in Hh. now apply HK.
Qed.

Section Kept.
Variable self : self_t.
Variables time_idx encoded_lengths beam beam_k : Z.
(** A predicate of the working set and a predicate of the pending set. *)
Variables PH PK : hyp_t -> Prop.
Hypothesis PK_score : forall h s, PK h -> PK (set_score h s).
Hypothesis PH_zero :
  forall max_hyp o lp idx c,
    PH max_hyp ->
    default_nonblank_hyp self time_idx encoded_lengths beam_k max_hyp o lp idx
    = Ok (0%Z, c) -> PH c.
Hypothesis PK_nonzero :
  forall max_hyp o lp idx d c,
    PH max_hyp ->
    default_nonblank_hyp self time_idx encoded_lengths beam_k max_hyp o lp idx
    = Ok (d, c) -> d <> 0%Z -> PK c.
Hypothesis PK_blank :
  forall max_hyp o duration_idx c,
    PH max_hyp ->
    default_blank_hyp self encoded_lengths max_hyp o duration_idx
    = Ok (Some c) -> PK c.

Lemma default_pass_keeps (x : hyp_t) hyps kept
      (r : pass DecState DecOut LMState) :
  Forall PH (x :: hyps) -> Forall PK kept ->
  default_pass torch_logaddexp score_frame self time_idx encoded_lengths
    beam beam_k x hyps kept = Ok r ->
  match r with
  | Next hyps1 kept1 => Forall PH hyps1 /\ Forall PK kept1
  | Break kept1 => Forall PK kept1
  end.
Proof.
  intros HH HK Hr.
  destruct (default_pass_appends _ _ _ _ _ _ _ _ _ Hr)
    as (max_hyp & rest & hs & ks & bs & HP & Hhs & Hks & Hbs & _ & ->).
  assert (Hmr : Forall PH (max_hyp :: rest))
    by (eapply Permutation_Forall; [symmetry; exact HP | exact HH]).
  inversion Hmr as [| ? ? Hmax Hrest]; subst.
  apply default_prune_forall.
  - apply Forall_app. split; [assumption |].
    eapply Forall_impl; [| exact Hhs]. intros c (lp & idx & Hc). eauto.
  - apply remove_duplicate_hypotheses_forall; [exact PK_score |].
    rewrite !Forall_app. repeat split; [assumption | |].
    + eapply Forall_impl; [| exact Hks].
      intros c (lp & idx & d & Hc & Hd). eauto.
    + eapply Forall_impl; [| exact Hbs]. intros c (i & _ & Hc). eauto.
Qed.

Lemma default_frame_keeps (fuel : nat) hyps kept kept1 :
  Forall PH hyps -> Forall PK kept ->
  default_frame torch_logaddexp score_frame fuel self time_idx
    encoded_lengths beam beam_k hyps kept = Some (Ok kept1) ->
  Forall PK kept1.
Proof.
  revert hyps kept.
  induction fuel as [| fuel IH]; intros hyps kept HH HK;
    destruct hyps as [| x hyps]; simpl; try discriminate;
    try (intros H; injection H as <-; assumption).
  destruct (default_pass _ _ _ _ _ _ _ _ _ _) as [[hyps1 kept2 | kept2] |]
    eqn:Ep; try discriminate;
    pose proof (default_pass_keeps _ _ _ _ HH HK Ep) as Hk.
  - destruct Hk. now apply IH.
  - intros H; injection H as <-. assumption.
Qed.
End Kept.
(** *** One timestep for every token *)

Lemma sort_nbest_forall (P : hyp_t -> Prop) (score_norm : bool) hyps :
  Forall P hyps -> Forall P (sort_nbest score_norm hyps).
Proof.
  intros H. eapply Permutation_Forall; [| exact H].
  rewrite sort_nbest_sorted_desc. symmetry.
  apply (sorted_desc_permutation (rank_key score_norm)).
Qed.

Section KeptSearch.
Variable self : self_t.
Variable P : hyp_t -> Prop.
Hypothesis P_score : forall h s, P h -> P (set_score h s).
Hypothesis P_nonblank :
  forall max_hyp c (token_idx t : Z),
    P max_hyp ->
    y_sequence c = y_sequence max_hyp ++ [token_idx] ->
    timestep c = timestep max_hyp ++ [t] ->
    P c.
Hypothesis P_blank :
  forall max_hyp c,
    P max_hyp ->
    y_sequence c = y_sequence max_hyp -> timestep c = timestep max_hyp ->
    P c.

Lemma default_frames_keeps (fuel : nat)
      (encoded_lengths beam beam_k : Z) (time_idxs : list Z) kept kept1 :
  Forall P kept ->
  default_frames torch_logaddexp score_frame fuel self encoded_lengths
    beam beam_k time_idxs kept = Some (Ok kept1) ->
  Forall P kept1.
Proof.
  revert kept.
  induction time_idxs as [| time_idx rest IH]; intros kept HK; simpl.
  - intros H; injection H as <-. assumption.
  - assert (Hf : forall f, Forall P (filter f kept)).
    { intros f. apply Forall_forall. intros h Hh. apply filter_In in Hh.
      rewrite Forall_forall in HK. now apply HK. }
    destruct (default_frame _ _ _ _ _ _ _ _ _ _) as [[kept2 |] |] eqn:Ef;
      try discriminate.
    apply IH.
    refine (default_frame_keeps self time_idx encoded_lengths beam beam_k
              P P P_score _ _ _ fuel _ _ _ (Hf _) (Hf _) Ef).
    + intros max_hyp o lp idx c Hm Hc.
      apply default_nonblank_hyp_fields in Hc.
      destruct Hc as (_ & [tok Hy] & Ht & _).
      exact (P_nonblank max_hyp c tok _ Hm Hy Ht).
    + intros max_hyp o lp idx d c Hm Hc _.
      apply default_nonblank_hyp_fields in Hc.
      destruct Hc as (_ & [tok Hy] & Ht & _).
      exact (P_nonblank max_hyp c tok _ Hm Hy Ht).
    + intros max_hyp o i c Hm Hc.
      apply default_blank_hyp_fields in Hc. destruct Hc as (Hy & Ht & _).
      exact (P_blank max_hyp c Hm Hy Ht).
Qed.
End KeptSearch.

Lemma hd_error_snoc {A : Type} (l : list A) (a x : A) :
  hd_error l = Some a -> hd_error (l ++ [x]) = Some a.
Proof. destruct l; [discriminate | trivial]. Qed.

(** X10: every hypothesis that default beam search returns starts with
    the blank token, at the timestep -1, and has as many timesteps as
    tokens: the start hypothesis is the blank token at the timestep -1, a
    non-blank expansion appends one token and one timestep, and a blank
    expansion copies both lists. *)
Theorem default_beam_search_lengths_agree (initialize_state : DecState)
        (fuel : nat) self (encoded_lengths : Z)
        (partial_hypotheses : option hyp_t) (nbest : list hyp_t) :
  default_beam_search torch_logaddexp score_frame initialize_state fuel self
    encoded_lengths partial_hypotheses = Some (Ok nbest) ->
  Forall (fun h => lengths_agree h
                   /\ hd_error (y_sequence h) = Some (blank self)
                   /\ hd_error (timestep h) = Some (-1)%Z) nbest.
Proof.
  unfold default_beam_search.
  destruct partial_hypotheses; [discriminate |].
  destruct (default_frames _ _ _ _ _ _ _ _ _) as [[kept |] |] eqn:Ef;
    try discriminate.
  intros H; injection H as <-. apply sort_nbest_forall.
  refine (default_frames_keeps self _ _ _ _ fuel _ _ _ _ _ _ _ Ef);
    unfold lengths_agree.
  - intros h s Hh. exact Hh.
  - intros max_hyp c tok t (Hl & Hy & Ht) Ey Et.
    rewrite Ey, Et, !length_app, Hl. auto using hd_error_snoc.
  - intros max_hyp c (Hl & Hy & Ht) Ey Et. now rewrite Ey, Et.
  - constructor; [| constructor]. simpl. auto.
Qed.

(** *** Timesteps and frames *)

Lemma timed_snoc (ts : list Z) (frame t frame' : Z) :
  StronglySorted Z.le ts -> Forall (fun x => (x <= frame)%Z) ts ->
  (frame <= t)%Z -> (t <= frame')%Z ->
  StronglySorted Z.le (ts ++ [t])
  /\ Forall (fun x => (x <= frame')%Z) (ts ++ [t]).
Proof.
  intros Hs Hf Ht Ht'. split.
  - induction Hs as [| x ts Hs IH Hx]; simpl.
    + repeat constructor.
    + inversion Hf; subst. constructor; [auto |].
      apply Forall_app. split; [assumption |].
      constructor; [lia | constructor].
  - apply Forall_app. split.
    + eapply Forall_impl; [| exact Hf]. intros x Hx. simpl in Hx. lia.
    + constructor; [assumption | constructor].
Qed.

Lemma timed_later (ts : list Z) (frame frame' : Z) :
  Forall (fun x => (x <= frame)%Z) ts -> (frame <= frame')%Z ->
  Forall (fun x => (x <= frame')%Z) ts.
Proof.
  intros Hf Hle. eapply Forall_impl; [| exact Hf].
  intros x Hx. simpl in Hx. lia.
Qed.

(** The timesteps of a hypothesis do not decrease, and none is after its
    last frame. *)
Abbreviation timed h :=
  (StronglySorted Z.le (timestep h)
   /\ Forall (fun t => Z.le t (last_frame h)) (timestep h)).

(** *** The timesteps are in order *)

Section Timesteps.
Variable self : self_t.
Hypothesis durations_nonneg : Forall (fun d => (0 <= d)%Z) (durations self).

Lemma default_frame_timed (fuel : nat)
      (time_idx encoded_lengths beam beam_k : Z) kept kept1 :
  Forall (fun h => timed h) kept ->
  default_frame torch_logaddexp score_frame fuel self time_idx
    encoded_lengths beam beam_k
    (filter (fun hyp => (last_frame hyp =? time_idx)%Z) kept)
    (filter (fun hyp => (time_idx <? last_frame hyp)%Z) kept)
  = Some (Ok kept1) ->
  Forall (fun h => timed h) kept1.
Proof.
  intros HK Ef. rewrite Forall_forall in HK.
  refine (default_frame_keeps self time_idx encoded_lengths beam beam_k
            (fun h => last_frame h = time_idx /\ timed h)
            (fun h => timed h)
            (fun _ _ Hh => Hh) _ _ _ fuel _ _ _ _ _ Ef).
  - intros max_hyp o lp idx c (Hm & Hs & Hf) Hc.
    apply default_nonblank_hyp_fields in Hc.
    destruct Hc as (_ & _ & Ht & Hl & _). rewrite Ht, Hl.
    split; [lia |]. apply (timed_snoc _ (last_frame max_hyp)); auto; lia.
  - intros max_hyp o lp idx d c (Hm & Hs & Hf) Hc Hd.
    apply default_nonblank_hyp_fields in Hc.
    destruct Hc as (Hin & _ & Ht & Hl & _).
    rewrite Forall_forall in durations_nonneg.
    apply durations_nonneg in Hin. rewrite Ht, Hl.
    apply (timed_snoc _ (last_frame max_hyp)); auto; lia.
  - intros max_hyp o i c (Hm & Hs & Hf) Hc.
    apply default_blank_hyp_fields in Hc.
    destruct Hc as (_ & Ht & j & d & Hd & Hl & _).
    pose proof (duration_nonneg _ self durations_nonneg _ _ Hd) as Hn.
    rewrite Ht, Hl. split; [assumption |].
    apply (timed_later _ (last_frame max_hyp)); [assumption | lia].
  - apply Forall_forall. intros h Hh. apply filter_In in Hh.
    destruct Hh as [Hin Hh]. apply Z.eqb_eq in Hh.
    split; [assumption | now apply HK].
  - apply Forall_forall. intros h Hh. apply filter_In in Hh.
    destruct Hh as [Hin Hh]. now apply HK.
Qed.

Lemma default_frames_timed (fuel : nat) (encoded_lengths beam beam_k : Z)
      (time_idxs : list Z) kept kept1 :
  Forall (fun h => timed h) kept ->
  default_frames torch_logaddexp score_frame fuel self encoded_lengths
    beam beam_k time_idxs kept = Some (Ok kept1) ->
  Forall (fun h => timed h) kept1.
Proof.
  revert kept.
  induction time_idxs as [| t time_idxs IH]; intros kept HK; simpl.
  - intros H; injection H as <-. assumption.
  - destruct (default_frame _ _ _ _ _ _ _ _ _ _) as [[kept2 |] |] eqn:Ef;
      try discriminate.
    intros H. apply IH in H; [assumption |].
    now apply default_frame_timed in Ef.
Qed.

(** X12: with durations that are not negative, the timesteps of every
    hypothesis that default beam search returns are in non-decreasing
    order, and none is after the last frame of the hypothesis. *)
Theorem default_beam_search_timesteps (initialize_state : DecState)
        (fuel : nat) (encoded_lengths : Z)
        (partial_hypotheses : option hyp_t) (nbest : list hyp_t) :
  default_beam_search torch_logaddexp score_frame initialize_state fuel self
    encoded_lengths partial_hypotheses = Some (Ok nbest) ->
  Forall (fun h => StronglySorted Z.le (timestep h)
                   /\ Forall (fun t => (t <= last_frame h)%Z) (timestep h))
         nbest.
Proof.
  unfold default_beam_search.
  destruct partial_hypotheses; [discriminate |].
  destruct (default_frames _ _ _ _ _ _ _ _ _) as [[kept |] |] eqn:Ef;
    try discriminate.
  intros H; injection H as <-. apply sort_nbest_forall.
  apply default_frames_timed in Ef; [exact Ef |].
  constructor; [| constructor]. simpl.
  split; repeat constructor. lia.
Qed.
End Timesteps.

(** *** The frames are consumed *)

Section Frames.
Variable self : self_t.
Hypothesis durations_nonneg : Forall (fun d => (0 <= d)%Z) (durations self).
Hypothesis durations_nonzero :
  Exists (fun d => d <> 0%Z /\ (d < INT64_MAX)%Z) (durations self).
Hypothesis durations_one_zero :
  (count_occ Z.eq_dec (durations self) 0%Z <= 1)%nat.
Hypothesis durations_indexed_self : durations_indexed self.

Lemma default_blank_hyp_advances (encoded_lengths : Z) max_hyp o
      (duration_idx : nat) c :
  default_blank_hyp self encoded_lengths max_hyp o duration_idx
  = Ok (Some c) ->
  (last_frame max_hyp < last_frame c)%Z.
Proof.
  intros Hc. apply default_blank_hyp_fields in Hc.
  destruct Hc as (_ & _ & i & d & Hd & -> & [[Hz ->] | [Hz ->]]).
  - pose proof (min_non_zero_duration_pos _ self durations_nonneg
                  durations_indexed_self d durations_nonzero Hd). lia.
  - pose proof (other_duration_pos _ self durations_nonneg
                  durations_indexed_self _ d durations_one_zero Hz Hd). lia.
Qed.

Lemma default_frame_advances (fuel : nat)
      (time_idx encoded_lengths beam beam_k : Z) kept kept1 :
  Forall (fun h => (time_idx <= last_frame h)%Z /\ timed h) kept ->
  default_frame torch_logaddexp score_frame fuel self time_idx
    encoded_lengths beam beam_k
    (filter (fun hyp => (last_frame hyp =? time_idx)%Z) kept)
    (filter (fun hyp => (time_idx <? last_frame hyp)%Z) kept)
  = Some (Ok kept1) ->
  Forall (fun h => (time_idx + 1 <= last_frame h)%Z /\ timed h) kept1.
Proof.
  intros HK Ef. rewrite Forall_forall in HK.
  refine (default_frame_keeps self time_idx encoded_lengths beam beam_k
            (fun h => last_frame h = time_idx /\ timed h)
            (fun h => (time_idx + 1 <= last_frame h)%Z /\ timed h)
            (fun _ _ Hh => Hh) _ _ _ fuel _ _ _ _ _ Ef).
  - intros max_hyp o lp idx c (Hm & Hs & Hf) Hc.
    apply default_nonblank_hyp_fields in Hc.
    destruct Hc as (_ & _ & Ht & Hl & _). rewrite Ht, Hl.
    split; [lia |]. apply (timed_snoc _ (last_frame max_hyp)); auto; lia.
  - intros max_hyp o lp idx d c (Hm & Hs & Hf) Hc Hd.
    apply default_nonblank_hyp_fields in Hc.
    destruct Hc as (Hin & _ & Ht & Hl & _).
    rewrite Forall_forall in durations_nonneg.
    apply durations_nonneg in Hin. rewrite Ht, Hl.
    split; [lia |]. apply (timed_snoc _ (last_frame max_hyp)); auto; lia.
  - intros max_hyp o i c (Hm & Hs & Hf) Hc.
    pose proof (default_blank_hyp_advances _ _ _ _ _ Hc) as Hlt.
    apply default_blank_hyp_fields in Hc. destruct Hc as (_ & Ht & _).
    rewrite Ht. split; [lia |]. split; [assumption |].
    apply (timed_later _ (last_frame max_hyp)); [assumption | lia].
  - apply Forall_forall. intros h Hh. apply filter_In in Hh.
    destruct Hh as [Hin Hh]. apply Z.eqb_eq in Hh.
    split; [assumption | now apply HK].
  - apply Forall_forall. intros h Hh. apply filter_In in Hh.
    destruct Hh as [Hin Hh]. apply Z.ltb_lt in Hh.
    split; [lia | now apply HK].
Qed.

Lemma default_frames_advance (fuel : nat) (encoded_lengths beam beam_k : Z)
      (a n : nat) kept kept1 :
  Forall (fun h => (Z.of_nat a <= last_frame h)%Z /\ timed h) kept ->
  default_frames torch_logaddexp score_frame fuel self encoded_lengths
    beam beam_k (map Z.of_nat (seq a n)) kept = Some (Ok kept1) ->
  Forall (fun h => (Z.of_nat (a + n) <= last_frame h)%Z /\ timed h) kept1.
Proof.
  revert a kept.
  induction n as [| n IH]; intros a kept HK; simpl.
  - intros H; injection H as <-. now rewrite Nat.add_0_r.
  - destruct (default_frame _ _ _ _ _ _ _ _ _ _) as [[kept2 |] |] eqn:Ef;
      try discriminate.
    intros H. apply IH in H.
    + now replace (a + S n)%nat with (S a + n)%nat by lia.
    + apply default_frame_advances in Ef; [| assumption].
      eapply Forall_impl; [| exact Ef]. intros h [Hh Ht].
      split; [lia | assumption].
Qed.

Lemma default_beam_search_advances (initialize_state : DecState)
      (fuel : nat) (encoded_lengths : Z)
      (partial_hypotheses : option hyp_t) (nbest : list hyp_t) :
  default_beam_search torch_logaddexp score_frame initialize_state fuel self
    encoded_lengths partial_hypotheses = Some (Ok nbest) ->
  Forall (fun h => (encoded_lengths <= last_frame h)%Z /\ timed h) nbest.
Proof.
  unfold default_beam_search.
  destruct partial_hypotheses; [discriminate |].
  destruct (default_frames _ _ _ _ _ _ _ _ _) as [[kept |] |] eqn:Ef;
    try discriminate.
  intros H; injection H as <-. apply sort_nbest_forall.
  apply default_frames_advance in Ef.
  - eapply Forall_impl; [| exact Ef]. intros h [Hh Ht].
    split; [simpl in Hh; lia | assumption].
  - constructor; [| constructor]. simpl.
    split; [lia |]. split; repeat constructor. lia.
Qed.

(** X11: with durations that are not negative, one of them neither zero
    nor the largest [int64] and at most one of them zero, and with the
    two indices as the constructor computes them, every hypothesis that
    default beam search returns has consumed all the frames: its
    [last_frame] is at least the encoded length. *)
Theorem default_beam_search_consumes_frames (initialize_state : DecState)
        (fuel : nat) (encoded_lengths : Z)
        (partial_hypotheses : option hyp_t) (nbest : list hyp_t) :
  default_beam_search torch_logaddexp score_frame initialize_state fuel self
    encoded_lengths partial_hypotheses = Some (Ok nbest) ->
  Forall (fun h => (encoded_lengths <= last_frame h)%Z) nbest.
Proof.
  intros Hs. apply default_beam_search_advances in Hs.
  eapply Forall_impl; [| exact Hs]. now intros h [Hh _].
Qed.

(** *** The result is not empty *)

Hypothesis topk_nonempty :
  forall time_idx max_hyp,
    durations_logp_topk_idxs (score_frame time_idx max_hyp) <> [].
Hypothesis topk_nodup :
  forall time_idx max_hyp,
    NoDup (durations_logp_topk_idxs (score_frame time_idx max_hyp)).

Lemma default_blank_hyp_emits (encoded_lengths : Z) max_hyp o :
  durations_logp_topk_idxs o <> [] ->
  NoDup (durations_logp_topk_idxs o) ->
  exists duration_idx,
    In duration_idx (durations_logp_topk_idxs o)
    /\ default_blank_hyp self encoded_lengths max_hyp o duration_idx
       <> Ok None.
Proof.
  intros Hne Hnd.
  assert (Hemit : forall i,
             (d <- getitem (durations self) (Z.of_nat i) ;;
              logp_blank <- getitem (logp o) (blank self) ;;
              duration_logp <- getitem (durations_logp o) (Z.of_nat i) ;;
              Ok (Some (mkHyp (score max_hyp + logp_blank + duration_logp)
                              (y_sequence max_hyp) (dec_state max_hyp)
                              (@nil DecOut)
                              (timestep max_hyp) encoded_lengths
                              (last_frame max_hyp + d)%Z
                              (@None LMState))))
             <> Ok None).
  { intros i.
    destruct (getitem (durations self) (Z.of_nat i)); [simpl | discriminate].
    destruct (getitem (logp o) (blank self)); [simpl | discriminate].
    destruct (getitem (durations_logp o) (Z.of_nat i));
      [simpl | discriminate].
    discriminate. }
  unfold default_blank_hyp.
  destruct (durations_logp_topk_idxs o) as [| i [| j l]] eqn:El;
    [congruence | |].
  - exists i. split; [now left |]. simpl.
    destruct (is_zero_duration_idx self i); apply Hemit.
  - destruct (is_zero_duration_idx self i) eqn:Ei.
    + exists j. split; [right; now left |].
      assert (Ej : is_zero_duration_idx self j = false).
      { destruct (is_zero_duration_idx self j) eqn:Ej; [| reflexivity].
        apply is_zero_duration_idx_true in Ei, Ej.
        assert (i = j) by congruence. subst j.
        inversion Hnd as [| ? ? Hni _]; subst. exfalso. apply Hni. now left. }
      rewrite Ej. apply Hemit.
    + exists i. split; [now left |]. rewrite Ei. apply Hemit.
Qed.

Lemma default_prune_nonempty (beam : Z) hyps kept :
  (1 <= beam)%Z -> kept <> [] ->
  match default_prune beam hyps kept with
  | Next hyps1 kept1 => kept1 <> []
  | Break kept1 => kept1 <> []
  end.
Proof.
  intros Hb HK. unfold default_prune. destruct hyps as [| x hyps'].
  - apply slice_to_nonempty; [assumption |]. intros Hnil. apply HK.
    apply Permutation_nil. rewrite <- Hnil.
    apply (sorted_desc_permutation score).
  - destruct (Z.leb_spec beam
                (Z.of_nat (List.length
                   (sorted_asc score
                      (filter (fun hyp =>
                                 Rltb (score (py_max score x hyps'))
                                      (score hyp)) kept)))))
      as [Hle | Hlt]; [| assumption].
    intros Hnil. rewrite Hnil in Hle. simpl in Hle. lia.
Qed.

Lemma default_frame_nonempty (fuel : nat)
      (time_idx encoded_lengths beam beam_k : Z) hyps kept kept1 :
  (1 <= beam)%Z ->
  hyps <> [] \/ kept <> [] ->
  default_frame torch_logaddexp score_frame fuel self time_idx
    encoded_lengths beam beam_k hyps kept = Some (Ok kept1) ->
  kept1 <> [].
Proof.
  intros Hb. revert hyps kept.
  induction fuel as [| fuel IH]; intros hyps kept Hne;
    destruct hyps as [| x hyps]; simpl; try discriminate;
    try (intros H; injection H as <-; destruct Hne; congruence).
  destruct (default_pass _ _ _ _ _ _ _ _ _ _) as [[hyps1 kept2 | kept2] |]
    eqn:Ep; try discriminate;
    destruct (default_pass_appends _ _ _ _ _ _ _ _ _ Ep)
      as (max_hyp & rest & hs & ks & bs & _ & _ & _ & _ & Hbs & Hr);
    destruct (default_blank_hyp_emits encoded_lengths max_hyp
                (score_frame time_idx max_hyp)
                (topk_nonempty time_idx max_hyp)
                (topk_nodup time_idx max_hyp)) as (i & Hi & Hemit);
    pose proof (Hbs i Hi Hemit) as Hbne;
    assert (HK : remove_duplicate_hypotheses torch_logaddexp
                   ((kept ++ ks) ++ bs) <> [])
      by (apply remove_duplicate_hypotheses_nonempty;
          intros Hnil; apply app_eq_nil in Hnil; now destruct Hnil);
    pose proof (default_prune_nonempty beam (rest ++ hs) _ Hb HK) as Hp;
    rewrite <- Hr in Hp.
  - apply IH. now right.
  - intros H; injection H as <-. assumption.
Qed.

Lemma default_frames_nonempty (fuel : nat) (encoded_lengths beam beam_k : Z)
      (a n : nat) kept kept1 :
  (1 <= beam)%Z ->
  kept <> [] ->
  Forall (fun h => (Z.of_nat a <= last_frame h)%Z /\ timed h) kept ->
  default_frames torch_logaddexp score_frame fuel self encoded_lengths
    beam beam_k (map Z.of_nat (seq a n)) kept = Some (Ok kept1) ->
  kept1 <> [].
Proof.
  intros Hb. revert a kept.
  induction n as [| n IH]; intros a kept Hne HK; simpl.
  - intros H; injection H as <-. assumption.
  - destruct (default_frame _ _ _ _ _ _ _ _ _ _) as [[kept2 |] |] eqn:Ef;
      try discriminate.
    apply IH.
    + apply default_frame_nonempty in Ef; [assumption | assumption |].
      destruct kept as [| h kept]; [congruence |].
      inversion HK as [| ? ? [Hh _] _]; subst. simpl.
      destruct (Z.eqb_spec (last_frame h) (Z.of_nat a)) as [He | He];
        [left; discriminate |].
      right. destruct (Z.ltb_spec (Z.of_nat a) (last_frame h));
        [discriminate | lia].
    + apply default_frame_advances in Ef; [| assumption].
      eapply Forall_impl; [| exact Ef]. intros h [Hh Ht].
      split; [lia | assumption].
Qed.

(** X13: with durations that are not negative, one of them neither zero
    nor the largest [int64] and at most one of them zero, the two indices
    as the constructor computes them, a beam of at least one hypothesis
    and a scorer that gives at least one duration candidate and no
    candidate twice, the list that default beam search returns is not
    empty. *)
Theorem default_beam_search_nonempty (initialize_state : DecState)
        (fuel : nat) (encoded_lengths : Z)
        (partial_hypotheses : option hyp_t) (nbest : list hyp_t) :
  (1 <= Z.min (beam_size self) (vocab_size self))%Z ->
  default_beam_search torch_logaddexp score_frame initialize_state fuel self
    encoded_lengths partial_hypotheses = Some (Ok nbest) ->
  nbest <> [].
Proof.
  intros Hb. unfold default_beam_search.
  destruct partial_hypotheses; [discriminate |].
  destruct (default_frames _ _ _ _ _ _ _ _ _) as [[kept |] |] eqn:Ef;
    try discriminate.
  intros H; injection H as <-.
  apply default_frames_nonempty in Ef;
    [| assumption | discriminate |].
  2: { constructor; [| constructor]. simpl.
       split; [lia |]. split; repeat constructor. lia. }
  intros Hnil. apply Ef. apply Permutation_nil. rewrite <- Hnil.
  rewrite sort_nbest_sorted_desc.
  apply (sorted_desc_permutation (rank_key (score_norm self))).
Qed.
End Frames.

(** *** No two hypotheses of the same key *)

Lemma NoDup_map_filter {A B : Type} (f : A -> B) (g : A -> bool)
      (l : list A) :
  NoDup (map f l) -> NoDup (map f (filter g l)).
Proof.
  induction l as [| x l IH]; simpl; intros Hn; [constructor |].
  inversion Hn as [| ? ? Hx Hl]; subst.
  destruct (g x); simpl; [| auto]. constructor; [| auto].
  intros Hin. apply Hx. apply in_map_iff in Hin.
  destruct Hin as (y & Hy & Hin). apply filter_In in Hin.
  apply in_map_iff. exists y. tauto.
Qed.

Lemma NoDup_map_firstn {A B : Type} (f : A -> B) (n : nat) (l : list A) :
  NoDup (map f l) -> NoDup (map f (firstn n l)).
Proof.
  revert n. induction l as [| x l IH]; intros n Hn;
    destruct n as [| n]; simpl; try constructor.
  - inversion Hn as [| ? ? Hx Hl]; subst. intros Hin. apply Hx.
    apply in_map_iff in Hin. destruct Hin as (y & Hy & Hin).
    apply in_map_iff. exists y. split; [assumption |].
    rewrite <- (firstn_skipn n l). apply in_or_app. now left.
  - inversion Hn; subst. auto.
Qed.

Lemma NoDup_map_permutation {A B : Type} (f : A -> B) (l l' : list A) :
  Permutation l l' -> NoDup (map f l) -> NoDup (map f l').
Proof.
  intros HP. apply Permutation_NoDup. now apply Permutation_map.
Qed.

Lemma ranked_slice_nodup (beam : Z) (l : list hyp_t) :
  NoDup (map hkey l) ->
  NoDup (map hkey (slice_to (sorted_desc score l) beam)).
Proof.
  intros Hn. unfold slice_to. apply NoDup_map_firstn.
  eapply NoDup_map_permutation; [| exact Hn].
  symmetry. apply (sorted_desc_permutation score).
Qed.

Lemma default_prune_nodup (beam : Z) hyps kept :
  NoDup (map hkey kept) ->
  match default_prune beam hyps kept with
  | Next hyps1 kept1 => NoDup (map hkey kept1)
  | Break kept1 => NoDup (map hkey kept1)
  end.
Proof.
  intros Hn. unfold default_prune. destruct hyps as [| x hyps'].
  - now apply ranked_slice_nodup.
  - destruct (beam <=? _)%Z; [| assumption].
    eapply NoDup_map_permutation;
      [symmetry; apply (sorted_asc_permutation score) |].
    now apply NoDup_map_filter.
Qed.

Lemma default_frame_nodup (fuel : nat) self
      (time_idx encoded_lengths beam beam_k : Z) hyps kept kept1 :
  NoDup (map hkey kept) ->
  default_frame torch_logaddexp score_frame fuel self time_idx
    encoded_lengths beam beam_k hyps kept = Some (Ok kept1) ->
  NoDup (map hkey kept1).
Proof.
  revert hyps kept.
  induction fuel as [| fuel IH]; intros hyps kept Hn;
    destruct hyps as [| x hyps]; simpl; try discriminate;
    try (intros H; injection H as <-; assumption).
  destruct (default_pass _ _ _ _ _ _ _ _ _ _) as [[hyps1 kept2 | kept2] |]
    eqn:Ep; try discriminate;
    destruct (default_pass_appends _ _ _ _ _ _ _ _ _ Ep)
      as (max_hyp & rest & hs & ks & bs & _ & _ & _ & _ & _ & Hr);
    pose proof (default_prune_nodup beam (rest ++ hs) _
                  (remove_duplicate_hypotheses_nodup _ _ _ torch_logaddexp
                     ((kept ++ ks) ++ bs))) as Hp;
    rewrite <- Hr in Hp.
  - now apply IH.
  - intros H; injection H as <-. assumption.
Qed.

Lemma default_frames_nodup (fuel : nat) self
      (encoded_lengths beam beam_k : Z) (time_idxs : list Z) kept kept1 :
  NoDup (map hkey kept) ->
  default_frames torch_logaddexp score_frame fuel self encoded_lengths
    beam beam_k time_idxs kept = Some (Ok kept1) ->
  NoDup (map hkey kept1).
Proof.
  revert kept.
  induction time_idxs as [| time_idx rest IH]; intros kept Hn; simpl.
  - intros H; injection H as <-. assumption.
  - destruct (default_frame _ _ _ _ _ _ _ _ _ _) as [[kept2 |] |] eqn:Ef;
      try discriminate.
    apply IH. apply default_frame_nodup in Ef; [assumption |].
    now apply NoDup_map_filter.
Qed.

(** X14: no two hypotheses that default beam search returns have both
    the same token sequence and the same last frame. *)
Theorem default_beam_search_no_duplicates (initialize_state : DecState)
        (fuel : nat) self (encoded_lengths : Z)
        (partial_hypotheses : option hyp_t) (nbest : list hyp_t) :
  default_beam_search torch_logaddexp score_frame initialize_state fuel self
    encoded_lengths partial_hypotheses = Some (Ok nbest) ->
  NoDup (map hkey nbest).
Proof.
  unfold default_beam_search.
  destruct partial_hypotheses; [discriminate |].
  destruct (default_frames _ _ _ _ _ _ _ _ _) as [[kept |] |] eqn:Ef;
    try discriminate.
  intros H; injection H as <-.
  apply default_frames_nodup in Ef;
    [| simpl; constructor; [intros [] | constructor]].
  eapply NoDup_map_permutation; [| exact Ef].
  rewrite sort_nbest_sorted_desc. symmetry.
  apply (sorted_desc_permutation (rank_key (score_norm self))).
Qed.

(** *** The loop of a frame ends *)

Lemma default_pass_shrinks self (time_idx encoded_lengths beam beam_k : Z)
      (x : hyp_t) hyps kept hyps1 kept1 :
  ~ In 0%Z (durations self) ->
  default_pass torch_logaddexp score_frame self time_idx encoded_lengths
    beam beam_k x hyps kept = Ok (Next hyps1 kept1) ->
  (List.length hyps1 <= List.length hyps)%nat.
Proof.
  intros Hz Hp.
  destruct (default_pass_appends _ _ _ _ _ _ _ _ _ Hp)
    as (max_hyp & rest & hs & ks & bs & HP & Hhs & _ & _ & _ & Hr).
  assert (hs = []) as ->.
  { destruct hs as [| c hs]; [reflexivity |].
    inversion Hhs as [| ? ? (lp & idx & Hc) _]; subst.
    apply default_nonblank_hyp_fields in Hc. destruct Hc as (Hin & _).
    contradiction. }
  rewrite app_nil_r in Hr. apply Permutation_length in HP. simpl in HP.
  unfold default_prune in Hr. destruct rest as [| y rest].
  - injection Hr as -> _. simpl. lia.
  - destruct (_ <=? _)%Z; [discriminate |]. injection Hr as -> _. lia.
Qed.

Lemma default_frame_ends self (fuel : nat)
      (time_idx encoded_lengths beam beam_k : Z) hyps kept :
  ~ In 0%Z (durations self) ->
  (List.length hyps <= fuel)%nat ->
  default_frame torch_logaddexp score_frame fuel self time_idx
    encoded_lengths beam beam_k hyps kept <> None.
Proof.
  intros Hz. revert hyps kept.
  induction fuel as [| fuel IH]; intros hyps kept Hf;
    destruct hyps as [| x hyps]; simpl in *; try discriminate; [lia |].
  destruct (default_pass _ _ _ _ _ _ _ _ _ _) as [[hyps1 kept2 | kept2] |]
    eqn:Ep; try discriminate.
  apply IH. apply default_pass_shrinks in Ep; [lia | assumption].
Qed.

Lemma default_frame_more_fuel self (fuel fuel' : nat)
      (time_idx encoded_lengths beam beam_k : Z) hyps kept
      (r : result (list hyp_t)) :
  (fuel <= fuel')%nat ->
  default_frame torch_logaddexp score_frame fuel self time_idx
    encoded_lengths beam beam_k hyps kept = Some r ->
  default_frame torch_logaddexp score_frame fuel' self time_idx
    encoded_lengths beam beam_k hyps kept = Some r.
Proof.
  revert fuel' hyps kept.
  induction fuel as [| fuel IH]; intros fuel' hyps kept Hf;
    destruct hyps as [| x hyps]; simpl; try discriminate.
  - intros H. destruct fuel'; exact H.
  - intros H. destruct fuel'; exact H.
  - destruct fuel' as [| fuel']; [lia |]. simpl.
    destruct (default_pass _ _ _ _ _ _ _ _ _ _) as [[hyps1 kept2 | kept2] |];
      try (intros H; exact H).
    apply IH. lia.
Qed.

Lemma default_frames_end self (encoded_lengths beam beam_k : Z)
      (time_idxs : list Z) kept :
  ~ In 0%Z (durations self) ->
  exists (fuel : nat) (r : result (list hyp_t)),
    forall fuel', (fuel <= fuel')%nat ->
      default_frames torch_logaddexp score_frame fuel' self encoded_lengths
        beam beam_k time_idxs kept = Some r.
Proof.
  intros Hz. revert kept.
  induction time_idxs as [| time_idx rest IH]; intros kept.
  - exists 0%nat, (Ok kept). reflexivity.
  - set (hyps := filter (fun hyp => (last_frame hyp =? time_idx)%Z) kept).
    set (kept0 := filter (fun hyp => (time_idx <? last_frame hyp)%Z) kept).
    destruct (default_frame torch_logaddexp score_frame (List.length hyps)
                self time_idx encoded_lengths beam beam_k hyps kept0)
      as [r |] eqn:Ef;
      [| exfalso; revert Ef; now apply default_frame_ends].
    destruct r as [kept1 | e].
    + destruct (IH kept1) as (fuel1 & r & Hr).
      exists (Nat.max (List.length hyps) fuel1), r. intros fuel' Hf. simpl.
      fold hyps kept0.
      rewrite (default_frame_more_fuel self (List.length hyps) fuel' _ _ _ _
                 _ _ (Ok kept1)); [| lia | exact Ef].
      apply Hr. lia.
    + exists (List.length hyps), (Raise e). intros fuel' Hf. simpl.
      fold hyps kept0.
      now rewrite (default_frame_more_fuel self (List.length hyps) fuel' _ _
                     _ _ _ _ (Raise e)).
Qed.

(** X15: when no duration is zero, default beam search ends: the loop of
    a frame makes one pass for every hypothesis of the frame, since no
    expansion comes back into the working set.  Some amount of fuel is
    enough, and more fuel gives the same result. *)
Theorem default_beam_search_ends (initialize_state : DecState) self
        (encoded_lengths : Z) (partial_hypotheses : option hyp_t) :
  ~ In 0%Z (durations self) ->
  exists (fuel : nat) (r : result (list hyp_t)),
    forall fuel', (fuel <= fuel')%nat ->
      default_beam_search torch_logaddexp score_frame initialize_state fuel'
        self encoded_lengths partial_hypotheses = Some r.
Proof.
  intros Hz. unfold default_beam_search.
  destruct partial_hypotheses as [p |].
  - exists 0%nat, (Raise NotImplementedError). reflexivity.
  - destruct (default_frames_end self encoded_lengths
                (Z.min (beam_size self) (vocab_size self))
                (Z.min (Z.min (beam_size self) (vocab_size self))
                       (vocab_size self - 1))
                (py_range encoded_lengths)
                [mkHyp 0 [blank self] initialize_state [] [(-1)%Z] 0%Z 0%Z
                       None] Hz) as (fuel & r & Hr).
    destruct r as [kept | e].
    + exists fuel, (Ok (sort_nbest (score_norm self) kept)).
      intros fuel' Hf. now rewrite (Hr fuel' Hf).
    + exists fuel, (Raise e). intros fuel' Hf. now rewrite (Hr fuel' Hf).
Qed.
End DefaultInvariants.

(** ** Invariants of the modified adaptive expansion search *)

Section MaesInvariants.
Variables DecState DecOut LMState KenLM BeamState : Type.
Variable torch_logaddexp : R -> R -> R.
Variable KENLM_AVAILABLE : bool.
Variable BaseScore : KenLM -> LMState -> pystr -> R * LMState.
Variable joint_batch : Z -> list (Hyp DecState DecOut LMState) -> list BeamOut.
Variable batch_initialize_states : BeamState -> list DecState -> BeamState.
Variable batch_score_hypothesis :
  list (Hyp DecState DecOut LMState) -> BeamState -> list DecOut * BeamState.
Variable batch_select_state : BeamState -> Z -> DecState.
Abbreviation hyp_t := (Hyp DecState DecOut LMState).
Abbreviation self_t := (BeamTDTInfer KenLM).
Abbreviation emissions_t := (emissions DecState DecOut LMState).
Implicit Types (self : self_t) (h hyp child : hyp_t)
         (hyps kept : list hyp_t) (ls : emissions_t) (o : BeamOut).

(** The hypothesis after the decoder has run on it. *)
Abbreviation updated_hyp h st out :=
  (mkHyp (score h) (y_sequence h) st (dec_out h ++ [out]) (timestep h)
         (hyp_length h) (last_frame h) (ngram_lm_state h)).

(** *** What an expansion appends *)

Lemma maes_lm_fusion_fields self hyp (new_hyp h' : hyp_t) (k : Z) :
  maes_lm_fusion KENLM_AVAILABLE BaseScore self hyp new_hyp k = Ok h' ->
  y_sequence h' = y_sequence new_hyp /\ timestep h' = timestep new_hyp
  /\ last_frame h' = last_frame new_hyp
  /\ match ngram_lm self with
     | Some _ => ngram_lm_state h' <> None
     | None => ngram_lm_state h' = ngram_lm_state new_hyp
     end.
Proof.
  unfold maes_lm_fusion. destruct (ngram_lm self) as [lm |].
  - destruct (ngram_lm_state hyp) as [st |]; [| discriminate].
    destruct (compute_ngram_score _ _ _ _ _) as [[s st'] |];
      [simpl | discriminate].
    intros H; injection H as <-. simpl. repeat split. discriminate.
  - intros H; injection H as <-. auto.
Qed.

Lemma maes_expand_cases self (time_idx : Z) hyp (k : Z) (duration_idx : nat)
      (total_logp : R) ls ls' :
  maes_expand KENLM_AVAILABLE BaseScore self time_idx hyp (k, duration_idx,
    total_logp) ls
  = Ok ls' ->
  exists (d : Z) child,
    getitem (durations self)
            (Z.of_nat (maes_duration_idx self k duration_idx)) = Ok d
    /\ last_frame child = (last_frame hyp + d)%Z
    /\ (k = blank self
        /\ y_sequence child = y_sequence hyp
        /\ timestep child = timestep hyp
        /\ ngram_lm_state child
           = match ngram_lm self with
             | Some _ => ngram_lm_state hyp
             | None => None
             end
        /\ ls' = mkEmissions (list_b ls ++ [child]) (list_nb ls)
                   (list_exp ls)
        \/ k <> blank self
           /\ y_sequence child = y_sequence hyp ++ [k]
           /\ timestep child = timestep hyp ++ [time_idx]
           /\ (ngram_lm_state child = None <-> ngram_lm self = None)
           /\ (d = 0%Z
               /\ ls' = mkEmissions (list_b ls) (list_nb ls)
                          (list_exp ls ++ [child])
               \/ d <> 0%Z
                  /\ ls' = mkEmissions (list_b ls) (list_nb ls ++ [child])
                             (list_exp ls))).
Proof.
  unfold maes_expand.
  destruct (getitem (durations self) _) as [d |] eqn:Ed;
    [simpl | discriminate].
  destruct (Z.eqb_spec k (blank self)) as [Hk | Hk].
  - intros H; injection H as <-.
    exists d, (mkHyp (score hyp + total_logp) (y_sequence hyp)
                     (dec_state hyp) (dec_out hyp) (timestep hyp) time_idx
                     (last_frame hyp + d)%Z
                     (match ngram_lm self with
                      | Some _ => ngram_lm_state hyp
                      | None => None
                      end)).
    split; [reflexivity |]. split; [reflexivity |]. left. simpl. auto.
  - destruct (maes_lm_fusion _ _ _ _ _ _) as [h' |] eqn:Ef;
      [simpl | discriminate].
    apply maes_lm_fusion_fields in Ef. simpl in Ef.
    destruct Ef as (Hy & Ht & Hl & Hlm).
    assert (Hs : ngram_lm_state h' = None <-> ngram_lm self = None).
    { destruct (ngram_lm self); [| rewrite Hlm]; split; congruence. }
    intros Hls. exists d, h'. split; [reflexivity |]. split; [exact Hl |].
      right.
    split; [exact Hk |]. split; [exact Hy |]. split; [exact Ht |].
    split; [exact Hs |].
    destruct (Z.eqb_spec d 0) as [Hd | Hd]; injection Hls as <-; auto.
Qed.

Lemma maes_update_states_spec (outs : list DecOut) (beam_state : BeamState)
      (hyp_idx : Z) hyps (updated : list hyp_t) :
  maes_update_states batch_select_state outs beam_state hyp_idx hyps
  = Ok updated ->
  Forall2 (fun h h' => exists st out, h' = updated_hyp h st out)
          hyps updated.
Proof.
  revert hyp_idx updated.
  induction hyps as [| h hyps IH]; intros hyp_idx updated; simpl.
  - intros H; injection H as <-. constructor.
  - destruct (getitem outs hyp_idx) as [out |]; [simpl | discriminate].
    destruct (maes_update_states _ _ _ _ _) as [rest |] eqn:Er;
      [simpl | discriminate].
    intros H; injection H as <-. constructor; eauto.
Qed.

Lemma maes_add_blanks_spec self (outs : list BeamOut) (hyp_idx : Z) hyps
      (added : list hyp_t) :
  maes_add_blanks self outs hyp_idx hyps = Ok added ->
  Forall2 (fun h h' => exists o, maes_add_blank self o h = Ok h') hyps added.
Proof.
  revert hyp_idx added.
  induction hyps as [| h hyps IH]; intros hyp_idx added; simpl.
  - intros H; injection H as <-. constructor.
  - destruct (getitem outs hyp_idx) as [o |]; [simpl | discriminate].
    destruct (maes_add_blank self o h) as [h' |] eqn:Eh;
      [simpl | discriminate].
    destruct (maes_add_blanks _ _ _ _) as [rest |] eqn:Er;
      [simpl | discriminate].
    intros H; injection H as <-. constructor; eauto.
Qed.

Lemma maes_add_blank_fields self o h h' :
  maes_add_blank self o h = Ok h' ->
  y_sequence h' = y_sequence h /\ timestep h' = timestep h
  /\ ngram_lm_state h' = ngram_lm_state h
  /\ exists (i : nat) (d : Z),
      getitem (durations self) (Z.of_nat i) = Ok d
      /\ last_frame h' = (last_frame h + d)%Z
      /\ (is_zero_duration_idx self (beam_max_duration_idx o) = true
          /\ i = min_non_zero_duration_idx self
          \/ is_zero_duration_idx self (beam_max_duration_idx o) = false
             /\ i = beam_max_duration_idx o).
Proof.
  unfold maes_add_blank.
  destruct (getitem (beam_logp o) (blank self)); [simpl | discriminate].
  destruct (getitem (beam_duration_logp o) _); [simpl | discriminate].
  destruct (getitem (durations self) _) as [d |] eqn:Ed;
    [simpl | discriminate].
  intros H; injection H as <-. simpl. repeat split.
  destruct (is_zero_duration_idx self (beam_max_duration_idx o)) eqn:Ez;
    eauto 10.
Qed.

(** *** Predicates kept by the steps of a frame *)

Section Kept.
Variable self : self_t.
Variable time_idx : Z.
(** A predicate of the hypotheses of the frame, one of the pending
    hypotheses, and one of the expansions of duration zero. *)
Variables PH PK PE : hyp_t -> Prop.
Hypothesis PK_score : forall h s, PK h -> PK (set_score h s).
Hypothesis PE_score : forall h s, PE h -> PE (set_score h s).
Hypothesis PK_updated : forall h st out, PK h -> PK (updated_hyp h st out).
Hypothesis PE_updated : forall h st out, PE h -> PE (updated_hyp h st out).
Hypothesis PE_PH : forall h, PE h -> PH h.
Hypothesis PK_blank :
  forall hyp child (k : Z) (duration_idx : nat) (d : Z),
    PH hyp -> k = blank self ->
    getitem (durations self)
            (Z.of_nat (maes_duration_idx self k duration_idx)) = Ok d ->
    last_frame child = (last_frame hyp + d)%Z ->
    y_sequence child = y_sequence hyp -> timestep child = timestep hyp ->
    ngram_lm_state child
    = match ngram_lm self with
      | Some _ => ngram_lm_state hyp
      | None => None
      end ->
    PK child.
Hypothesis P_nonblank :
  forall hyp child (k : Z) (duration_idx : nat) (d : Z),
    PH hyp -> k <> blank self ->
    getitem (durations self)
            (Z.of_nat (maes_duration_idx self k duration_idx)) = Ok d ->
    last_frame child = (last_frame hyp + d)%Z ->
    y_sequence child = y_sequence hyp ++ [k] ->
    timestep child = timestep hyp ++ [time_idx] ->
    (ngram_lm_state child = None <-> ngram_lm self = None) ->
    if (d =? 0)%Z then PE child else PK child.
Hypothesis PK_add_blank :
  forall o h h', PE h -> maes_add_blank self o h = Ok h' -> PK h'.

Abbreviation kept_emissions ls :=
  (Forall PK (list_b ls) /\ Forall PK (list_nb ls)
   /\ Forall PE (list_exp ls)).

Lemma maes_expand_keeps hyp (e : Z * nat * R) ls ls' :
  PH hyp -> kept_emissions ls ->
  maes_expand KENLM_AVAILABLE BaseScore self time_idx hyp e ls = Ok ls' ->
  kept_emissions ls'.
Proof.
  intros Hh (Hb & Hnb & Hexp) He. destruct e as [[k didx] lp].
  apply maes_expand_cases in He.
  destruct He as (d & child & Hd & Hl
                  & [(Hk & Hy & Ht & Hs & ->)
                    | (Hk & Hy & Ht & Hs & [[Hz ->] | [Hz ->]])]);
    simpl; repeat split; try assumption.
  - apply Forall_app. split; [assumption |]. constructor; [| constructor].
    eapply PK_blank; eassumption.
  - apply Forall_app. split; [assumption |]. constructor; [| constructor].
    pose proof (P_nonblank hyp child k didx d Hh Hk Hd Hl Hy Ht Hs) as Hc.
    subst d. exact Hc.
  - apply Forall_app. split; [assumption |]. constructor; [| constructor].
    pose proof (P_nonblank hyp child k didx d Hh Hk Hd Hl Hy Ht Hs) as Hc.
    destruct (Z.eqb_spec d 0); [contradiction | exact Hc].
Qed.

Lemma maes_expand_hyp_keeps hyp (es : list (Z * nat * R)) ls ls' :
  PH hyp -> kept_emissions ls ->
  maes_expand_hyp KENLM_AVAILABLE BaseScore self time_idx hyp es ls = Ok ls' ->
  kept_emissions ls'.
Proof.
  intros Hh. revert ls.
  induction es as [| e es IH]; intros ls Hls; simpl.
  - intros H; injection H as <-. assumption.
  - destruct (maes_expand _ _ _ _ _ _ _) as [ls1 |] eqn:Ee;
      [simpl | discriminate].
    apply IH. eapply maes_expand_keeps; eassumption.
Qed.

Lemma maes_expand_all_keeps (outs : list BeamOut) (hyp_idx : Z) hyps ls ls' :
  Forall PH hyps -> kept_emissions ls ->
  maes_expand_all KENLM_AVAILABLE BaseScore self time_idx outs hyp_idx hyps ls
    = Ok ls' ->
  kept_emissions ls'.
Proof.
  revert hyp_idx ls.
  induction hyps as [| hyp hyps IH]; intros hyp_idx ls Hh Hls; simpl.
  - intros H; injection H as <-. assumption.
  - inversion Hh as [| ? ? Hhyp Hrest]; subst.
    destruct (getitem outs hyp_idx) as [o |]; [simpl | discriminate].
    destruct (hyp_expansions self o _) as [es |]; [simpl | discriminate].
    destruct (maes_expand_hyp _ _ _ _ _ _ _) as [ls1 |] eqn:Ee;
      [simpl | discriminate].
    apply IH; [assumption |]. eapply maes_expand_hyp_keeps; eassumption.
Qed.

Lemma updated_forall (P : hyp_t -> Prop) (l l' : list hyp_t) :
  (forall h st out, P h -> P (updated_hyp h st out)) ->
  Forall P l ->
  Forall2 (fun h h' => exists st out, h' = updated_hyp h st out) l l' ->
  Forall P l'.
Proof.
  intros HP Hl H2. induction H2 as [| h h' l l' (st & out & ->) _ IH].
  - constructor.
  - inversion Hl; subst. constructor; auto.
Qed.

Lemma ranked_slice_forall (P : hyp_t -> Prop) (beam : Z) (l : list hyp_t) :
  (forall h s, P h -> P (set_score h s)) ->
  Forall P l ->
  Forall P (slice_to (sorted_desc score
                        (remove_duplicate_hypotheses torch_logaddexp l))
                     beam).
Proof.
  intros HP Hl. apply (remove_duplicate_hypotheses_forall _ _ _
                         torch_logaddexp P l HP) in Hl.
  rewrite Forall_forall in *. intros h Hh. apply slice_to_incl in Hh.
  apply Hl. eapply Permutation_in;
    [apply (sorted_desc_permutation score) | exact Hh].
Qed.

Lemma maes_steps_keeps (beam : Z) (ns : list Z) hyps kept
      (list_b0 list_nb0 : list hyp_t) (beam_state beam_state' : BeamState)
      (kept' : list hyp_t) :
  Forall PH hyps -> Forall PK kept -> Forall PK list_b0 ->
  Forall PK list_nb0 ->
  maes_steps torch_logaddexp KENLM_AVAILABLE BaseScore joint_batch
    batch_initialize_states
    batch_score_hypothesis batch_select_state self time_idx beam ns hyps
    kept list_b0 list_nb0 beam_state = Ok (kept', beam_state') ->
  Forall PK kept'.
Proof.
  revert hyps kept list_b0 list_nb0 beam_state.
  induction ns as [| n ns IH];
    intros hyps kept list_b0 list_nb0 beam_state HH HK Hb0 Hnb0; simpl.
  - intros H; injection H as <- _. assumption.
  - destruct (maes_expand_all _ _ _ _ _ _ _ _) as [ls |] eqn:Ee;
      [simpl | discriminate].
    apply maes_expand_all_keeps in Ee;
      [| assumption | repeat split; [assumption | assumption | constructor]].
    destruct Ee as (Hb & Hnb & Hexp).
    match goal with
    | |- context [bind ?m _] => destruct m as [[updated st1] |] eqn:Eu
    end; [simpl | discriminate].
    assert (Hup : exists nb1 exp1,
               updated = nb1 ++ exp1
               /\ List.length nb1 = List.length (list_nb ls)
               /\ Forall PK nb1 /\ Forall PE exp1).
    { destruct (list_nb ls ++ list_exp ls) as [| h0 l0] eqn:El.
      - injection Eu as <- _. apply app_eq_nil in El. destruct El as [-> _].
        exists [], []. repeat split; constructor.
      - rewrite <- El in Eu.
        destruct (batch_score_hypothesis _ _) as [outs st2].
        destruct (maes_update_states _ _ _ _ _) as [upd |] eqn:Em;
          [simpl in Eu | discriminate].
        injection Eu as <- _. apply maes_update_states_spec in Em.
        apply Forall2_app_inv_l in Em.
        destruct Em as (nb1 & exp1 & H1 & H2 & ->).
        exists nb1, exp1. split; [reflexivity |]. split.
        + symmetry. eapply Forall2_length; exact H1.
        + split; eapply updated_forall; eassumption. }
    destruct Hup as (nb1 & exp1 & -> & Hlen & Hnb1 & Hexp1).
    rewrite <- Hlen, firstn_app, Nat.sub_diag, firstn_all, firstn_O,
      app_nil_r, skipn_app, Nat.sub_diag, skipn_all, skipn_O.
    simpl. destruct exp1 as [| e1 exp1].
    + intros H; injection H as <- _. apply ranked_slice_forall;
        [exact PK_score |]. rewrite !Forall_app. auto.
    + destruct (n <? maes_num_steps self - 1)%Z.
      * apply IH; try assumption.
        eapply Forall_impl; [exact PE_PH |].
        apply (remove_duplicate_hypotheses_forall _ _ _ torch_logaddexp PE);
          assumption.
      * destruct (maes_add_blanks _ _ _ _) as [exp2 |] eqn:Ea;
          [simpl | discriminate].
        apply IH; try assumption.
        apply ranked_slice_forall; [exact PK_score |].
        rewrite !Forall_app. repeat split; try assumption.
        apply maes_add_blanks_spec in Ea. clear - Ea Hexp1 PK_add_blank.
        induction Ea as [| h h' l l' [o Ho] _ IHa]; [constructor |].
        inversion Hexp1; subst. constructor; eauto.
Qed.
End Kept.
Variable initial_beam_state : BeamState.
Variable BeginSentenceWrite : KenLM -> LMState.

Abbreviation maes_search :=
  (modified_adaptive_expansion_search torch_logaddexp KENLM_AVAILABLE
    BaseScore joint_batch
     batch_initialize_states batch_score_hypothesis batch_select_state
     initial_beam_state BeginSentenceWrite).
Abbreviation maes_search_frames :=
  (maes_frames torch_logaddexp KENLM_AVAILABLE BaseScore joint_batch
     batch_initialize_states batch_score_hypothesis batch_select_state).

(** *** Predicates kept by the search *)

Lemma maes_init_lm_state_ok self (s : option LMState) :
  maes_init_lm_state KENLM_AVAILABLE BeginSentenceWrite self = Ok s ->
  s = option_map BeginSentenceWrite (ngram_lm self).
Proof.
  unfold maes_init_lm_state. destruct (ngram_lm self) as [lm |]; simpl.
  - destruct KENLM_AVAILABLE; [| discriminate].
    now intros H; injection H as <-.
  - now intros H; injection H as <-.
Qed.

Section KeptSearch.
Variable self : self_t.
Variable P : hyp_t -> Prop.
Hypothesis P_score : forall h s, P h -> P (set_score h s).
Hypothesis P_updated : forall h st out, P h -> P (updated_hyp h st out).
Hypothesis P_blank :
  forall hyp child,
    P hyp ->
    y_sequence child = y_sequence hyp -> timestep child = timestep hyp ->
    ngram_lm_state child
    = match ngram_lm self with
      | Some _ => ngram_lm_state hyp
      | None => None
      end ->
    P child.
Hypothesis P_nonblank :
  forall hyp child (k time_idx : Z),
    P hyp ->
    y_sequence child = y_sequence hyp ++ [k] ->
    timestep child = timestep hyp ++ [time_idx] ->
    (ngram_lm_state child = None <-> ngram_lm self = None) ->
    P child.
Hypothesis P_add_blank :
  forall h h',
    P h ->
    y_sequence h' = y_sequence h -> timestep h' = timestep h ->
    ngram_lm_state h' = ngram_lm_state h ->
    P h'.
Hypothesis P_start :
  forall st out,
    P (mkHyp 0 [blank self] st [out] [(-1)%Z] 0%Z 0%Z
             (option_map BeginSentenceWrite (ngram_lm self))).

Lemma maes_frames_keeps (beam : Z) (time_idxs : list Z) kept
      (beam_state : BeamState) (kept' : list hyp_t) :
  Forall P kept ->
  maes_search_frames self beam time_idxs kept beam_state = Ok kept' ->
  Forall P kept'.
Proof.
  revert kept beam_state.
  induction time_idxs as [| time_idx rest IH]; intros kept beam_state HK;
    simpl.
  - intros H; injection H as <-. assumption.
  - assert (Hf : forall f, Forall P (filter f kept)).
    { intros f. apply Forall_forall. intros h Hh. apply filter_In in Hh.
      rewrite Forall_forall in HK. now apply HK. }
    destruct (filter _ kept) as [| h0 hyps] eqn:Eh; [now apply IH |].
    destruct (maes_steps _ _ _ _ _ _ _ _ _ _ _ _ _ _ _ _)
      as [[kept1 st1] |] eqn:Es; [simpl | discriminate].
    apply IH.
    assert (HH : Forall P (h0 :: hyps)) by (rewrite <- Eh; apply Hf).
    refine (maes_steps_keeps self time_idx P P P P_score P_score P_updated
              P_updated (fun _ Hh => Hh) _ _ _ _ _ _ _ _ _ _ _ _ HH
              (Hf _) (Forall_nil _) (Forall_nil _) Es).
    + intros hyp child k didx d Hh _ _ _ Hy Ht Hs.
      exact (P_blank hyp child Hh Hy Ht Hs).
    + intros hyp child k didx d Hh _ _ _ Hy Ht Hs.
      pose proof (P_nonblank hyp child k time_idx Hh Hy Ht Hs).
      now destruct (d =? 0)%Z.
    + intros o h h' Hh Ha. apply maes_add_blank_fields in Ha.
      destruct Ha as (Hy & Ht & Hs & _).
      exact (P_add_blank h h' Hh Hy Ht Hs).
Qed.

Lemma maes_search_keeps (encoded_lengths : Z)
      (partial_hypotheses : option hyp_t) (nbest : list hyp_t) :
  maes_search self encoded_lengths partial_hypotheses = Ok nbest ->
  Forall P nbest.
Proof.
  unfold modified_adaptive_expansion_search.
  destruct partial_hypotheses; [discriminate |].
  destruct (batch_score_hypothesis _ _) as [outs st].
  destruct (maes_init_lm_state _ _ self) as [s0 |] eqn:Ei;
    [simpl | discriminate].
  apply maes_init_lm_state_ok in Ei. subst s0.
  destruct (getitem outs 0) as [out0 |]; [simpl | discriminate].
  destruct (maes_frames _ _ _ _ _ _ _ _ _ _ _ _) as [kept |] eqn:Ef;
    [simpl | discriminate].
  intros H; injection H as <-. apply sort_nbest_forall.
  eapply maes_frames_keeps; [| exact Ef]. constructor; [| constructor].
  apply P_start.
Qed.
End KeptSearch.

(** X16: every hypothesis that the modified adaptive expansion search
    returns starts with the blank token, at the timestep -1, and has as
    many timesteps as tokens. *)
Theorem modified_adaptive_expansion_search_lengths_agree self
        (encoded_lengths : Z) (partial_hypotheses : option hyp_t)
        (nbest : list hyp_t) :
  modified_adaptive_expansion_search torch_logaddexp KENLM_AVAILABLE BaseScore
    joint_batch
    batch_initialize_states batch_score_hypothesis batch_select_state
    initial_beam_state BeginSentenceWrite self encoded_lengths
    partial_hypotheses = Ok nbest ->
  Forall (fun h => lengths_agree h
                   /\ hd_error (y_sequence h) = Some (blank self)
                   /\ hd_error (timestep h) = Some (-1)%Z) nbest.
Proof.
  apply (maes_search_keeps self
           (fun h => lengths_agree h
                     /\ hd_error (y_sequence h) = Some (blank self)
                     /\ hd_error (timestep h) = Some (-1)%Z));
    unfold lengths_agree.
  - intros h s Hh. exact Hh.
  - intros h st out Hh. exact Hh.
  - intros hyp child (Hl & Hy & Ht) Ey Et _. now rewrite Ey, Et.
  - intros hyp child k time_idx (Hl & Hy & Ht) Ey Et _.
    rewrite Ey, Et, !length_app, Hl. auto using hd_error_snoc.
  - intros h h' (Hl & Hy & Ht) Ey Et _. now rewrite Ey, Et.
  - intros st out. simpl. auto.
Qed.

(** X17: in the results of the modified adaptive expansion search a
    hypothesis carries a language-model state exactly when the decoder has
    a language model: the state starts from the model, a blank expansion
    copies it, and the fusion of a non-blank expansion replaces it. *)
Theorem modified_adaptive_expansion_search_lm_state self
        (encoded_lengths : Z) (partial_hypotheses : option hyp_t)
        (nbest : list hyp_t) :
  modified_adaptive_expansion_search torch_logaddexp KENLM_AVAILABLE BaseScore
    joint_batch
    batch_initialize_states batch_score_hypothesis batch_select_state
    initial_beam_state BeginSentenceWrite self encoded_lengths
    partial_hypotheses = Ok nbest ->
  Forall (fun h => ngram_lm_state h = None <-> ngram_lm self = None) nbest.
Proof.
  apply (maes_search_keeps self
           (fun h => ngram_lm_state h = None <-> ngram_lm self = None)).
  - intros h s Hh. exact Hh.
  - intros h st out Hh. exact Hh.
  - intros hyp child Hh _ _ Hs. rewrite Hs.
    destruct (ngram_lm self); [exact Hh | tauto].
  - intros hyp child k time_idx _ _ _ Hs. exact Hs.
  - intros h h' Hh _ _ Hs. now rewrite Hs.
  - intros st out. simpl. destruct (ngram_lm self); simpl; split; congruence.
Qed.

(** *** The frames are consumed *)

Abbreviation timed h :=
  (StronglySorted Z.le (timestep h)
   /\ Forall (fun t => Z.le t (last_frame h)) (timestep h)).

Section Timesteps.
Variable self : self_t.
Hypothesis durations_nonneg : Forall (fun d => (0 <= d)%Z) (durations self).

Lemma maes_steps_timed (time_idx beam : Z) (ns : list Z) kept
      (beam_state beam_state' : BeamState) (kept' : list hyp_t) :
  Forall (fun h => timed h) kept ->
  maes_steps torch_logaddexp KENLM_AVAILABLE BaseScore joint_batch
    batch_initialize_states batch_score_hypothesis batch_select_state self
    time_idx beam ns
    (filter (fun x => (last_frame x =? time_idx)%Z) kept)
    (filter (fun x => (time_idx <? last_frame x)%Z) kept) [] []
    beam_state = Ok (kept', beam_state') ->
  Forall (fun h => timed h) kept'.
Proof.
  intros HK Es. rewrite Forall_forall in HK.
  refine (maes_steps_keeps self time_idx
            (fun h => last_frame h = time_idx /\ timed h)
            (fun h => timed h)
            (fun h => last_frame h = time_idx /\ timed h)
            (fun _ _ Hh => Hh) (fun _ _ Hh => Hh) (fun _ _ _ Hh => Hh)
            (fun _ _ _ Hh => Hh) (fun _ Hh => Hh) _ _ _ _ _ _ _ _ _ _ _ _
            _ _ (Forall_nil _) (Forall_nil _) Es).
  - intros hyp child k didx d (Hh & Hs & Hf) -> Hd Hl _ Ht _.
    pose proof (duration_nonneg _ self durations_nonneg _ _ Hd).
    rewrite Ht, Hl. split; [assumption |].
    apply (timed_later _ (last_frame hyp)); [assumption | lia].
  - intros hyp child k didx d (Hh & Hs & Hf) Hk Hd Hl _ Ht _.
    rewrite maes_duration_idx_nonblank in Hd by assumption.
    pose proof (duration_nonneg _ self durations_nonneg _ _ Hd).
    rewrite Ht, Hl.
    destruct (Z.eqb_spec d 0); [split; [lia |] |];
      apply (timed_snoc _ (last_frame hyp)); auto; lia.
  - intros o h h' (Hh & Hs & Hf) Ha. apply maes_add_blank_fields in Ha.
    destruct Ha as (_ & Ht & _ & i & d & Hd & Hl & Hi).
    pose proof (duration_nonneg _ self durations_nonneg _ _ Hd).
    rewrite Ht, Hl. split; [assumption |].
    apply (timed_later _ (last_frame h)); [assumption | lia].
  - apply Forall_forall. intros h Hh. apply filter_In in Hh.
    destruct Hh as [Hin Hh]. apply Z.eqb_eq in Hh.
    split; [assumption | now apply HK].
  - apply Forall_forall. intros h Hh. apply filter_In in Hh.
    destruct Hh as [Hin Hh]. now apply HK.
Qed.

Lemma maes_frames_timed (beam : Z) (time_idxs : list Z) kept
      (beam_state : BeamState) (kept' : list hyp_t) :
  Forall (fun h => timed h) kept ->
  maes_search_frames self beam time_idxs kept beam_state = Ok kept' ->
  Forall (fun h => timed h) kept'.
Proof.
  revert kept beam_state.
  induction time_idxs as [| time_idx rest IH]; intros kept beam_state HK;
    simpl.
  - intros H; injection H as <-. assumption.
  - destruct (filter (fun x => (last_frame x =? time_idx)%Z) kept)
      as [| h0 hyps] eqn:Eh.
    + apply IH. apply Forall_forall. intros h Hh. apply filter_In in Hh.
      rewrite Forall_forall in HK. now apply HK.
    + destruct (maes_steps _ _ _ _ _ _ _ _ _ _ _ _ _ _ _ _)
        as [[kept1 st1] |] eqn:Es; [simpl | discriminate].
      apply IH. rewrite <- Eh in Es. now apply maes_steps_timed in Es.
Qed.

(** X19: with durations that are not negative, the timesteps of every
    hypothesis that the modified adaptive expansion search returns are in
    non-decreasing order, and none is after the last frame of the
    hypothesis. *)
Theorem modified_adaptive_expansion_search_timesteps
        (encoded_lengths : Z) (partial_hypotheses : option hyp_t)
        (nbest : list hyp_t) :
  modified_adaptive_expansion_search torch_logaddexp KENLM_AVAILABLE
    BaseScore joint_batch batch_initialize_states batch_score_hypothesis
    batch_select_state initial_beam_state BeginSentenceWrite self
    encoded_lengths partial_hypotheses = Ok nbest ->
  Forall (fun h => StronglySorted Z.le (timestep h)
                   /\ Forall (fun t => (t <= last_frame h)%Z) (timestep h))
         nbest.
Proof.
  unfold modified_adaptive_expansion_search.
  destruct partial_hypotheses; [discriminate |].
  destruct (batch_score_hypothesis _ _) as [outs st].
  destruct (maes_init_lm_state _ _ self) as [s0 |]; [simpl | discriminate].
  destruct (getitem outs 0) as [out0 |]; [simpl | discriminate].
  destruct (maes_frames _ _ _ _ _ _ _ _ _ _ _ _) as [kept |] eqn:Ef;
    [simpl | discriminate].
  intros H; injection H as <-. apply sort_nbest_forall.
  apply maes_frames_timed in Ef; [exact Ef |].
  constructor; [| constructor]. simpl.
  split; repeat constructor. lia.
Qed.
End Timesteps.

Section Frames.
Variable self : self_t.
Hypothesis durations_nonneg : Forall (fun d => (0 <= d)%Z) (durations self).
Hypothesis durations_nonzero :
  Exists (fun d => d <> 0%Z /\ (d < INT64_MAX)%Z) (durations self).
Hypothesis durations_one_zero :
  (count_occ Z.eq_dec (durations self) 0%Z <= 1)%nat.
Hypothesis durations_indexed_self : durations_indexed self.

Lemma moved_duration_pos (i j : nat) (d : Z) :
  is_zero_duration_idx self j = true /\ i = min_non_zero_duration_idx self
  \/ is_zero_duration_idx self j = false /\ i = j ->
  getitem (durations self) (Z.of_nat i) = Ok d ->
  (0 < d)%Z.
Proof.
  intros [[Hz ->] | [Hz ->]] Hd.
  - exact (min_non_zero_duration_pos _ self durations_nonneg
             durations_indexed_self d durations_nonzero Hd).
  - exact (other_duration_pos _ self durations_nonneg
             durations_indexed_self _ d durations_one_zero Hz Hd).
Qed.

Lemma maes_blank_duration_pos (duration_idx : nat) (d : Z) :
  getitem (durations self)
          (Z.of_nat (maes_duration_idx self (blank self) duration_idx))
  = Ok d ->
  (0 < d)%Z.
Proof.
  intros Hd. refine (moved_duration_pos _ duration_idx d _ Hd).
  unfold maes_duration_idx. rewrite Z.eqb_refl. simpl.
  destruct (is_zero_duration_idx self duration_idx) eqn:Ez.
  - left. split; [reflexivity |].
    apply is_zero_duration_idx_true in Ez. now rewrite Ez.
  - right. split; [reflexivity |]. now rewrite Bool.andb_false_r.
Qed.

Lemma maes_steps_advance (time_idx beam : Z) (ns : list Z) kept
      (beam_state beam_state' : BeamState) (kept' : list hyp_t) :
  Forall (fun h => (time_idx <= last_frame h)%Z /\ timed h) kept ->
  maes_steps torch_logaddexp KENLM_AVAILABLE BaseScore joint_batch
    batch_initialize_states
    batch_score_hypothesis batch_select_state self time_idx beam ns
    (filter (fun x => (last_frame x =? time_idx)%Z) kept)
    (filter (fun x => (time_idx <? last_frame x)%Z) kept) [] []
    beam_state = Ok (kept', beam_state') ->
  Forall (fun h => (time_idx + 1 <= last_frame h)%Z /\ timed h) kept'.
Proof.
  intros HK Es. rewrite Forall_forall in HK.
  refine (maes_steps_keeps self time_idx
            (fun h => last_frame h = time_idx /\ timed h)
            (fun h => (time_idx + 1 <= last_frame h)%Z /\ timed h)
            (fun h => last_frame h = time_idx /\ timed h)
            (fun _ _ Hh => Hh) (fun _ _ Hh => Hh) (fun _ _ _ Hh => Hh)
            (fun _ _ _ Hh => Hh) (fun _ Hh => Hh) _ _ _ _ _ _ _ _ _ _ _ _
            _ _ (Forall_nil _) (Forall_nil _) Es).
  - intros hyp child k didx d (Hh & Hs & Hf) -> Hd Hl _ Ht _.
    apply maes_blank_duration_pos in Hd. rewrite Ht, Hl.
    split; [lia |]. split; [assumption |].
    apply (timed_later _ (last_frame hyp)); [assumption | lia].
  - intros hyp child k didx d (Hh & Hs & Hf) Hk Hd Hl _ Ht _.
    rewrite maes_duration_idx_nonblank in Hd by assumption.
    pose proof (duration_nonneg _ self durations_nonneg _ _ Hd).
    rewrite Ht, Hl.
    destruct (Z.eqb_spec d 0); (split; [lia |]);
      apply (timed_snoc _ (last_frame hyp)); auto; lia.
  - intros o h h' (Hh & Hs & Hf) Ha. apply maes_add_blank_fields in Ha.
    destruct Ha as (_ & Ht & _ & i & d & Hd & Hl & Hi).
    pose proof (moved_duration_pos _ _ _ Hi Hd). rewrite Ht, Hl.
    split; [lia |]. split; [assumption |].
    apply (timed_later _ (last_frame h)); [assumption | lia].
  - apply Forall_forall. intros h Hh. apply filter_In in Hh.
    destruct Hh as [Hin Hh]. apply Z.eqb_eq in Hh.
    split; [assumption | now apply HK].
  - apply Forall_forall. intros h Hh. apply filter_In in Hh.
    destruct Hh as [Hin Hh]. apply Z.ltb_lt in Hh.
    split; [lia | now apply HK].
Qed.

Lemma maes_frames_advance (beam : Z) (a n : nat) kept
      (beam_state : BeamState) (kept' : list hyp_t) :
  Forall (fun h => (Z.of_nat a <= last_frame h)%Z /\ timed h) kept ->
  maes_search_frames self beam (map Z.of_nat (seq a n)) kept beam_state
  = Ok kept' ->
  Forall (fun h => (Z.of_nat (a + n) <= last_frame h)%Z /\ timed h) kept'.
Proof.
  revert a kept beam_state.
  induction n as [| n IH]; intros a kept beam_state HK; simpl.
  - intros H; injection H as <-. now rewrite Nat.add_0_r.
  - replace (a + S n)%nat with (S a + n)%nat by lia.
    destruct (filter (fun x => (last_frame x =? Z.of_nat a)%Z) kept)
      as [| h0 hyps] eqn:Eh.
    + apply IH. apply Forall_forall. intros h Hh. apply filter_In in Hh.
      destruct Hh as [Hin Hh]. apply Z.ltb_lt in Hh.
      rewrite Forall_forall in HK. split; [lia | now apply HK].
    + destruct (maes_steps _ _ _ _ _ _ _ _ _ _ _ _ _ _ _ _)
        as [[kept1 st1] |] eqn:Es; [simpl | discriminate].
      apply IH. rewrite <- Eh in Es. apply maes_steps_advance in Es;
        [| assumption].
      eapply Forall_impl; [| exact Es]. intros h [Hh Ht].
      split; [lia | assumption].
Qed.

Lemma maes_search_advances (encoded_lengths : Z)
      (partial_hypotheses : option hyp_t) (nbest : list hyp_t) :
  maes_search self encoded_lengths partial_hypotheses = Ok nbest ->
  Forall (fun h => (encoded_lengths <= last_frame h)%Z /\ timed h) nbest.
Proof.
  unfold modified_adaptive_expansion_search.
  destruct partial_hypotheses; [discriminate |].
  destruct (batch_score_hypothesis _ _) as [outs st].
  destruct (maes_init_lm_state _ _ self) as [s0 |]; [simpl | discriminate].
  destruct (getitem outs 0) as [out0 |]; [simpl | discriminate].
  destruct (maes_frames _ _ _ _ _ _ _ _ _ _ _ _) as [kept |] eqn:Ef;
    [simpl | discriminate].
  intros H; injection H as <-. apply sort_nbest_forall.
  apply maes_frames_advance in Ef.
  - eapply Forall_impl; [| exact Ef]. intros h [Hh Ht].
    split; [simpl in Hh; lia | assumption].
  - constructor; [| constructor]. simpl.
    split; [lia |]. split; repeat constructor. lia.
Qed.

(** X18: with durations that are not negative, one of them neither zero
    nor the largest [int64] and at most one of them zero, and with the
    two indices as the constructor computes them, every hypothesis that
    the modified adaptive expansion search returns has consumed all the
    frames. *)
Theorem modified_adaptive_expansion_search_consumes_frames
        (encoded_lengths : Z) (partial_hypotheses : option hyp_t)
        (nbest : list hyp_t) :
  modified_adaptive_expansion_search torch_logaddexp KENLM_AVAILABLE BaseScore
    joint_batch
    batch_initialize_states batch_score_hypothesis batch_select_state
    initial_beam_state BeginSentenceWrite self encoded_lengths
    partial_hypotheses = Ok nbest ->
  Forall (fun h => (encoded_lengths <= last_frame h)%Z) nbest.
Proof.
  intros Hs. apply maes_search_advances in Hs.
  eapply Forall_impl; [| exact Hs]. now intros h [Hh _].
Qed.


(** *** The result is not empty *)

Abbreviation emitted ls :=
  (List.length (list_b ls) + List.length (list_nb ls)
   + List.length (list_exp ls))%nat.

Lemma maes_expand_emits (time_idx : Z) hyp (e : Z * nat * R) ls ls' :
  maes_expand KENLM_AVAILABLE BaseScore self time_idx hyp e ls = Ok ls' ->
  emitted ls' = S (emitted ls).
Proof.
  destruct e as [[k didx] lp]. intros He. apply maes_expand_cases in He.
  destruct He as (d & child & _ & _
                  & [(_ & _ & _ & _ & ->)
                    | (_ & _ & _ & _ & [[_ ->] | [_ ->]])]);
    simpl; rewrite length_app; simpl; lia.
Qed.

Lemma maes_expand_hyp_emits (time_idx : Z) hyp (es : list (Z * nat * R))
      ls ls' :
  maes_expand_hyp KENLM_AVAILABLE BaseScore self time_idx hyp es ls = Ok ls' ->
  emitted ls' = (emitted ls + List.length es)%nat.
Proof.
  revert ls. induction es as [| e es IH]; intros ls; simpl.
  - intros H; injection H as <-. lia.
  - destruct (maes_expand _ _ _ _ _ _ _) as [ls1 |] eqn:Ee;
      [simpl | discriminate].
    intros H. apply IH in H. apply maes_expand_emits in Ee. lia.
Qed.

Lemma hyp_expansions_length o (idxs : list nat) (es : list (Z * nat * R)) :
  hyp_expansions self o idxs = Ok es -> List.length es = List.length idxs.
Proof.
  revert es. induction idxs as [| idx idxs IH]; intros es; simpl.
  - intros H; injection H as <-. reflexivity.
  - destruct (py_mod _ _); [simpl | discriminate].
    destruct (getitem (beam_idx_topks o) _); [simpl | discriminate].
    destruct (py_floordiv _ _); [simpl | discriminate].
    destruct (getitem (beam_duration_idx_topks o) _); [simpl | discriminate].
    destruct (getitem (beam_total_logp o) _); [simpl | discriminate].
    destruct (hyp_expansions self o idxs) as [rest |]; [simpl | discriminate].
    intros H; injection H as <-. simpl. now rewrite (IH rest).
Qed.

Lemma maes_expand_all_emits (time_idx : Z) (outs : list BeamOut)
      (hyp_idx : Z) hyps ls ls' :
  Forall (fun o => beam_kexpansions_idxs o <> []) outs ->
  hyps <> [] ->
  maes_expand_all KENLM_AVAILABLE BaseScore self time_idx outs hyp_idx hyps ls
    = Ok ls' ->
  (emitted ls < emitted ls')%nat.
Proof.
  intros Houts. revert hyp_idx ls.
  induction hyps as [| hyp hyps IH]; intros hyp_idx ls Hne;
    [congruence |]. simpl.
  destruct (getitem outs hyp_idx) as [o |] eqn:Eo; [simpl | discriminate].
  destruct (hyp_expansions self o _) as [es |] eqn:Ees;
    [simpl | discriminate].
  destruct (maes_expand_hyp _ _ _ _ _ _ _) as [ls1 |] eqn:Ee;
    [simpl | discriminate].
  apply maes_expand_hyp_emits in Ee. apply hyp_expansions_length in Ees.
  assert (Ho : beam_kexpansions_idxs o <> []).
  { rewrite Forall_forall in Houts. apply Houts.
    unfold getitem in Eo. destruct (_ <? 0)%Z; [discriminate |].
    destruct (nth_error outs _) eqn:En; [| discriminate].
    injection Eo as <-. eapply nth_error_In; exact En. }
  assert (Hlen : List.length (beam_kexpansions_idxs o) <> 0%nat)
    by (destruct (beam_kexpansions_idxs o); [congruence | discriminate]).
  destruct hyps as [| hyp' hyps'].
  - simpl. intros Hr; injection Hr as <-. lia.
  - intros Hr. apply IH in Hr; [lia | discriminate].
Qed.

Hypothesis expansions_nonempty :
  forall time_idx hyps,
    Forall (fun o => beam_kexpansions_idxs o <> [])
           (joint_batch time_idx hyps).

Lemma ranked_slice_nonempty (beam : Z) (l : list hyp_t) :
  (1 <= beam)%Z -> l <> [] ->
  slice_to (sorted_desc score
              (remove_duplicate_hypotheses torch_logaddexp l)) beam <> [].
Proof.
  intros Hb Hl. apply slice_to_nonempty; [assumption |].
  intros Hnil.
  apply (remove_duplicate_hypotheses_nonempty _ _ _ torch_logaddexp l Hl).
  apply Permutation_nil. rewrite <- Hnil.
  apply (sorted_desc_permutation score).
Qed.

Lemma maes_steps_kept_nonempty (time_idx beam : Z) (ns : list Z) hyps kept
      (list_b0 list_nb0 : list hyp_t) (beam_state beam_state' : BeamState)
      (kept' : list hyp_t) :
  (1 <= beam)%Z -> kept <> [] ->
  maes_steps torch_logaddexp KENLM_AVAILABLE BaseScore joint_batch
    batch_initialize_states
    batch_score_hypothesis batch_select_state self time_idx beam ns hyps
    kept list_b0 list_nb0 beam_state = Ok (kept', beam_state') ->
  kept' <> [].
Proof.
  intros Hb. revert hyps kept list_b0 list_nb0 beam_state.
  induction ns as [| n ns IH];
    intros hyps kept list_b0 list_nb0 beam_state HK; simpl.
  - intros H; injection H as <- _. assumption.
  - destruct (maes_expand_all _ _ _ _ _ _ _ _) as [ls |];
      [simpl | discriminate].
    match goal with
    | |- context [bind ?m _] => destruct m as [[updated st1] |]
    end; [simpl | discriminate].
    destruct (skipn _ updated) as [| e1 exp1].
    + intros H; injection H as <- _.
      apply ranked_slice_nonempty; [assumption |].
      destruct kept; [congruence | discriminate].
    + destruct (n <? maes_num_steps self - 1)%Z.
      * now apply IH.
      * destruct (maes_add_blanks _ _ _ _) as [exp2 |];
          [simpl | discriminate].
        apply IH. apply ranked_slice_nonempty; [assumption |].
        destruct kept; [congruence | discriminate].
Qed.

Lemma maes_steps_nonempty (time_idx beam : Z) (ns : list Z) hyps kept
      (list_b0 list_nb0 : list hyp_t) (beam_state beam_state' : BeamState)
      (kept' : list hyp_t) :
  (1 <= beam)%Z -> hyps <> [] -> ns <> [] ->
  (last ns 0%Z <? maes_num_steps self - 1)%Z = false ->
  maes_steps torch_logaddexp KENLM_AVAILABLE BaseScore joint_batch
    batch_initialize_states
    batch_score_hypothesis batch_select_state self time_idx beam ns hyps
    kept list_b0 list_nb0 beam_state = Ok (kept', beam_state') ->
  kept' <> [].
Proof.
  intros Hb. revert hyps kept list_b0 list_nb0 beam_state.
  induction ns as [| n ns IH];
    intros hyps kept list_b0 list_nb0 beam_state Hh Hns Hlast;
    [congruence |]. simpl.
  destruct (maes_expand_all _ _ _ _ _ _ _ _) as [ls |] eqn:Ee;
    [simpl | discriminate].
  apply maes_expand_all_emits in Ee;
    [| apply expansions_nonempty | assumption].
  simpl in Ee.
  match goal with
  | |- context [bind ?m _] => destruct m as [[updated st1] |] eqn:Eu
  end; [simpl | discriminate].
  assert (Hup : exists nb1 exp1,
             updated = nb1 ++ exp1
             /\ List.length nb1 = List.length (list_nb ls)
             /\ List.length exp1 = List.length (list_exp ls)).
  { destruct (list_nb ls ++ list_exp ls) as [| h0 l0] eqn:El.
    - injection Eu as <- _. apply app_eq_nil in El.
      destruct El as [-> ->]. exists [], []. auto.
    - rewrite <- El in Eu.
      destruct (batch_score_hypothesis _ _) as [outs st2].
      destruct (maes_update_states _ _ _ _ _) as [upd |] eqn:Em;
        [simpl in Eu | discriminate].
      injection Eu as <- _. apply maes_update_states_spec in Em.
      apply Forall2_app_inv_l in Em.
      destruct Em as (nb1 & exp1 & H1 & H2 & ->).
      exists nb1, exp1. split; [reflexivity |].
      split; symmetry; eapply Forall2_length; eassumption. }
  destruct Hup as (nb1 & exp1 & -> & Hlen & Hlen').
  rewrite <- Hlen, firstn_app, Nat.sub_diag, firstn_all, firstn_O,
    app_nil_r, skipn_app, Nat.sub_diag, skipn_all, skipn_O.
  simpl. destruct exp1 as [| e1 exp1].
  - intros H; injection H as <- _.
    apply ranked_slice_nonempty; [assumption |].
    intros Hnil. apply app_eq_nil in Hnil. destruct Hnil as [_ Hnil].
    apply app_eq_nil in Hnil. destruct Hnil as [Hb0 Hnb0].
    rewrite Hb0, Hnb0 in *. simpl in *. lia.
  - destruct (n <? maes_num_steps self - 1)%Z eqn:En.
    + destruct ns as [| n' ns']; [simpl in Hlast; congruence |].
      apply IH; [| discriminate | exact Hlast].
      apply remove_duplicate_hypotheses_nonempty. discriminate.
    + destruct (maes_add_blanks _ _ _ _) as [exp2 |] eqn:Ea;
        [simpl | discriminate].
      apply maes_steps_kept_nonempty; [assumption |].
      apply ranked_slice_nonempty; [assumption |].
      apply maes_add_blanks_spec, Forall2_length in Ea.
      destruct exp2; [discriminate |].
      intros Hnil. apply app_eq_nil in Hnil. destruct Hnil as [_ Hnil].
      apply app_eq_nil in Hnil. destruct Hnil as [_ Hnil].
      discriminate.
Qed.

Lemma last_py_range (n : Z) :
  (1 <= n)%Z -> py_range n <> [] /\ last (py_range n) 0%Z = (n - 1)%Z.
Proof.
  intros Hn. unfold py_range.
  destruct (Z.to_nat n) as [| k] eqn:Ek; [lia |].
  rewrite seq_S, map_app. simpl. split.
  - intros Hnil. apply app_eq_nil in Hnil. destruct Hnil; discriminate.
  - rewrite last_last. lia.
Qed.

Lemma maes_frames_nonempty (beam : Z) (a n : nat) kept
      (beam_state : BeamState) (kept' : list hyp_t) :
  (1 <= beam)%Z -> (1 <= maes_num_steps self)%Z ->
  kept <> [] ->
  Forall (fun h => (Z.of_nat a <= last_frame h)%Z /\ timed h) kept ->
  maes_search_frames self beam (map Z.of_nat (seq a n)) kept beam_state
  = Ok kept' ->
  kept' <> [].
Proof.
  intros Hb Hsteps. revert a kept beam_state.
  induction n as [| n IH]; intros a kept beam_state Hne HK; simpl.
  - intros H; injection H as <-. assumption.
  - destruct (filter (fun x => (last_frame x =? Z.of_nat a)%Z) kept)
      as [| h0 hyps] eqn:Eh.
    + assert (Hf : filter (fun x => (Z.of_nat a <? last_frame x)%Z) kept
                   = kept).
      { clear - Eh HK. induction kept as [| h kept IHk]; [reflexivity |].
        simpl in *. inversion HK as [| ? ? [Hh _] HK']; subst.
        destruct (Z.eqb_spec (last_frame h) (Z.of_nat a)); [discriminate |].
        destruct (Z.ltb_spec (Z.of_nat a) (last_frame h)); [| lia].
        now rewrite IHk. }
      rewrite Hf. apply IH; [assumption |].
      rewrite <- Hf. apply Forall_forall. intros h Hh.
      apply filter_In in Hh. destruct Hh as [Hin Hh]. apply Z.ltb_lt in Hh.
      rewrite Forall_forall in HK. split; [lia | now apply HK].
    + destruct (maes_steps _ _ _ _ _ _ _ _ _ _ _ _ _ _ _ _)
        as [[kept1 st1] |] eqn:Es; [simpl | discriminate].
      destruct (last_py_range _ Hsteps) as [Hr Hl].
      apply IH.
      * eapply maes_steps_nonempty; [| | | | exact Es];
          [assumption | discriminate | assumption |].
        rewrite Hl. apply Z.ltb_irrefl.
      * rewrite <- Eh in Es. apply maes_steps_advance in Es;
          [| assumption].
        eapply Forall_impl; [| exact Es]. intros h [Hh Ht].
        split; [lia | assumption].
Qed.

(** X20: with durations that are not negative, one of them neither zero
    nor the largest [int64] and at most one of them zero, the two indices
    as the constructor computes them, a beam of at least one hypothesis,
    at least one step, and a scorer that keeps at least one expansion of
    every hypothesis, the list that the modified adaptive expansion
    search returns is not empty. *)
Theorem modified_adaptive_expansion_search_nonempty
        (encoded_lengths : Z) (partial_hypotheses : option hyp_t)
        (nbest : list hyp_t) :
  (1 <= Z.min (beam_size self) (vocab_size self))%Z ->
  (1 <= maes_num_steps self)%Z ->
  modified_adaptive_expansion_search torch_logaddexp KENLM_AVAILABLE BaseScore
    joint_batch
    batch_initialize_states batch_score_hypothesis batch_select_state
    initial_beam_state BeginSentenceWrite self encoded_lengths
    partial_hypotheses = Ok nbest ->
  nbest <> [].
Proof.
  intros Hb Hsteps. unfold modified_adaptive_expansion_search.
  destruct partial_hypotheses; [discriminate |].
  destruct (batch_score_hypothesis _ _) as [outs st].
  destruct (maes_init_lm_state _ _ self) as [s0 |]; [simpl | discriminate].
  destruct (getitem outs 0) as [out0 |]; [simpl | discriminate].
  destruct (maes_frames _ _ _ _ _ _ _ _ _ _ _ _) as [kept |] eqn:Ef;
    [simpl | discriminate].
  intros H; injection H as <-.
  apply maes_frames_nonempty in Ef;
    [| assumption | assumption | discriminate |].
  2: { constructor; [| constructor]. simpl.
       split; [lia |]. split; repeat constructor. lia. }
  intros Hnil. apply Ef. apply Permutation_nil. rewrite <- Hnil.
  rewrite sort_nbest_sorted_desc.
  apply (sorted_desc_permutation (rank_key (score_norm self))).
Qed.
End Frames.

(** *** The beam bounds the result *)

Lemma maes_steps_length self (time_idx beam : Z) (ns : list Z) hyps kept
      (list_b0 list_nb0 : list hyp_t) (beam_state beam_state' : BeamState)
      (kept' : list hyp_t) (bound : nat) :
  (0 <= beam)%Z -> (Z.to_nat beam <= bound)%nat ->
  (List.length kept <= bound)%nat ->
  maes_steps torch_logaddexp KENLM_AVAILABLE BaseScore joint_batch
    batch_initialize_states
    batch_score_hypothesis batch_select_state self time_idx beam ns hyps
    kept list_b0 list_nb0 beam_state = Ok (kept', beam_state') ->
  (List.length kept' <= bound)%nat.
Proof.
  intros Hb Hbound. revert hyps kept list_b0 list_nb0 beam_state.
  induction ns as [| n ns IH];
    intros hyps kept list_b0 list_nb0 beam_state HK; simpl.
  - intros H; injection H as <- _. assumption.
  - destruct (maes_expand_all _ _ _ _ _ _ _ _) as [ls |];
      [simpl | discriminate].
    match goal with
    | |- context [bind ?m _] => destruct m as [[updated st1] |]
    end; [simpl | discriminate].
    destruct (skipn _ updated) as [| e1 exp1].
    + intros H; injection H as <- _.
      pose proof (slice_to_length
                    (sorted_desc score
                       (remove_duplicate_hypotheses torch_logaddexp
                          (kept ++ list_b ls
                           ++ firstn (List.length (list_nb ls)) updated)))
                    beam Hb). lia.
    + destruct (n <? maes_num_steps self - 1)%Z.
      * now apply IH.
      * destruct (maes_add_blanks _ _ _ _) as [exp2 |];
          [simpl | discriminate].
        apply IH.
        match goal with
        | |- (List.length (slice_to ?l beam) <= bound)%nat =>
            pose proof (slice_to_length l beam Hb)
        end. lia.
Qed.

Lemma maes_frames_length self (beam : Z) (time_idxs : list Z) kept
      (beam_state : BeamState) (kept' : list hyp_t) (bound : nat) :
  (0 <= beam)%Z -> (Z.to_nat beam <= bound)%nat ->
  (List.length kept <= bound)%nat ->
  maes_search_frames self beam time_idxs kept beam_state = Ok kept' ->
  (List.length kept' <= bound)%nat.
Proof.
  intros Hb Hbound. revert kept beam_state.
  induction time_idxs as [| time_idx rest IH]; intros kept beam_state HK;
    simpl.
  - intros H; injection H as <-. assumption.
  - assert (Hf : forall f, (List.length (filter f kept) <= bound)%nat).
    { intros f. pose proof (filter_length_le f kept). lia. }
    destruct (filter (fun x => (last_frame x =? time_idx)%Z) kept)
      as [| h0 hyps]; [now apply IH |].
    destruct (maes_steps _ _ _ _ _ _ _ _ _ _ _ _ _ _ _ _)
      as [[kept1 st1] |] eqn:Es; [simpl | discriminate].
    apply IH. eapply maes_steps_length; [| | | exact Es]; auto.
Qed.

(** X21: with a beam of at least one hypothesis, the modified adaptive
    expansion search returns at most [beam] hypotheses, where [beam] is
    the smaller of the beam size and the vocabulary size. *)
Theorem modified_adaptive_expansion_search_beam self
        (encoded_lengths : Z) (partial_hypotheses : option hyp_t)
        (nbest : list hyp_t) :
  (1 <= Z.min (beam_size self) (vocab_size self))%Z ->
  modified_adaptive_expansion_search torch_logaddexp KENLM_AVAILABLE BaseScore
    joint_batch
    batch_initialize_states batch_score_hypothesis batch_select_state
    initial_beam_state BeginSentenceWrite self encoded_lengths
    partial_hypotheses = Ok nbest ->
  (Z.of_nat (List.length nbest)
   <= Z.min (beam_size self) (vocab_size self))%Z.
Proof.
  intros Hb. unfold modified_adaptive_expansion_search.
  destruct partial_hypotheses; [discriminate |].
  destruct (batch_score_hypothesis _ _) as [outs st].
  destruct (maes_init_lm_state _ _ self) as [s0 |]; [simpl | discriminate].
  destruct (getitem outs 0) as [out0 |]; [simpl | discriminate].
  destruct (maes_frames _ _ _ _ _ _ _ _ _ _ _ _) as [kept |] eqn:Ef;
    [simpl | discriminate].
  intros H; injection H as <-.
  apply (maes_frames_length _ _ _ _ _ _
           (Z.to_nat (Z.min (beam_size self) (vocab_size self)))) in Ef;
    [| lia | lia | simpl; lia].
  rewrite sort_nbest_sorted_desc.
  rewrite (Permutation_length
             (sorted_desc_permutation (rank_key (score_norm self)) kept)).
  lia.
Qed.
(** *** No two hypotheses of the same key *)

Lemma maes_steps_nodup self (time_idx beam : Z) (ns : list Z) hyps kept
      (list_b0 list_nb0 : list hyp_t) (beam_state beam_state' : BeamState)
      (kept' : list hyp_t) :
  NoDup (map hkey kept) ->
  maes_steps torch_logaddexp KENLM_AVAILABLE BaseScore joint_batch
    batch_initialize_states
    batch_score_hypothesis batch_select_state self time_idx beam ns hyps
    kept list_b0 list_nb0 beam_state = Ok (kept', beam_state') ->
  NoDup (map hkey kept').
Proof.
  revert hyps kept list_b0 list_nb0 beam_state.
  induction ns as [| n ns IH];
    intros hyps kept list_b0 list_nb0 beam_state HK; simpl.
  - intros H; injection H as <- _. assumption.
  - destruct (maes_expand_all _ _ _ _ _ _ _ _) as [ls |];
      [simpl | discriminate].
    match goal with
    | |- context [bind ?m _] => destruct m as [[updated st1] |]
    end; [simpl | discriminate].
    destruct (skipn _ updated) as [| e1 exp1].
    + intros H; injection H as <- _.
      apply ranked_slice_nodup, remove_duplicate_hypotheses_nodup.
    + destruct (n <? maes_num_steps self - 1)%Z.
      * now apply IH.
      * destruct (maes_add_blanks _ _ _ _) as [exp2 |];
          [simpl | discriminate].
        apply IH.
        apply ranked_slice_nodup, remove_duplicate_hypotheses_nodup.
Qed.

Lemma maes_frames_nodup self (beam : Z) (time_idxs : list Z) kept
      (beam_state : BeamState) (kept' : list hyp_t) :
  NoDup (map hkey kept) ->
  maes_search_frames self beam time_idxs kept beam_state = Ok kept' ->
  NoDup (map hkey kept').
Proof.
  revert kept beam_state.
  induction time_idxs as [| time_idx rest IH]; intros kept beam_state HK;
    simpl.
  - intros H; injection H as <-. assumption.
  - assert (Hf : forall f, NoDup (map hkey (filter f kept)))
      by (intros f; now apply NoDup_map_filter).
    destruct (filter (fun x => (last_frame x =? time_idx)%Z) kept)
      as [| h0 hyps]; [now apply IH |].
    destruct (maes_steps _ _ _ _ _ _ _ _ _ _ _ _ _ _ _ _)
      as [[kept1 st1] |] eqn:Es; [simpl | discriminate].
    apply IH. eapply maes_steps_nodup; [| exact Es]. apply Hf.
Qed.

(** X22: no two hypotheses that the modified adaptive expansion search
    returns have both the same token sequence and the same last frame. *)
Theorem modified_adaptive_expansion_search_no_duplicates self
        (encoded_lengths : Z) (partial_hypotheses : option hyp_t)
        (nbest : list hyp_t) :
  modified_adaptive_expansion_search torch_logaddexp KENLM_AVAILABLE BaseScore
    joint_batch
    batch_initialize_states batch_score_hypothesis batch_select_state
    initial_beam_state BeginSentenceWrite self encoded_lengths
    partial_hypotheses = Ok nbest ->
  NoDup (map hkey nbest).
Proof.
  unfold modified_adaptive_expansion_search.
  destruct partial_hypotheses; [discriminate |].
  destruct (batch_score_hypothesis _ _) as [outs st].
  destruct (maes_init_lm_state _ _ self) as [s0 |]; [simpl | discriminate].
  destruct (getitem outs 0) as [out0 |]; [simpl | discriminate].
  destruct (maes_frames _ _ _ _ _ _ _ _ _ _ _ _) as [kept |] eqn:Ef;
    [simpl | discriminate].
  intros H; injection H as <-.
  apply maes_frames_nodup in Ef;
    [| simpl; constructor; [intros [] | constructor]].
  eapply NoDup_map_permutation; [| exact Ef].
  rewrite sort_nbest_sorted_desc. symmetry.
  apply (sorted_desc_permutation (rank_key (score_norm self))).
Qed.

(** *** Without a language model *)

Section NoLM.
Variable KENLM_AVAILABLE' : bool.
Variable BaseScore' : KenLM -> LMState -> pystr -> R * LMState.
Variable BeginSentenceWrite' : KenLM -> LMState.
Variable self : self_t.
Hypothesis no_lm : ngram_lm self = None.

Lemma maes_expand_no_lm (time_idx : Z) hyp (e : Z * nat * R) ls :
  maes_expand KENLM_AVAILABLE BaseScore self time_idx hyp e ls
  = maes_expand KENLM_AVAILABLE' BaseScore' self time_idx hyp e ls.
Proof.
  destruct e as [[k didx] lp]. unfold maes_expand, maes_lm_fusion.
  rewrite no_lm. reflexivity.
Qed.

Lemma maes_expand_hyp_no_lm (time_idx : Z) hyp (es : list (Z * nat * R)) ls :
  maes_expand_hyp KENLM_AVAILABLE BaseScore self time_idx hyp es ls
  = maes_expand_hyp KENLM_AVAILABLE' BaseScore' self time_idx hyp es ls.
Proof.
  revert ls. induction es as [| e es IH]; intros ls; simpl;
    [reflexivity |].
  rewrite maes_expand_no_lm.
  destruct (maes_expand KENLM_AVAILABLE' BaseScore' self time_idx hyp e ls);
    simpl;
    [apply IH | reflexivity].
Qed.

Lemma maes_expand_all_no_lm (time_idx : Z) (outs : list BeamOut)
      (hyp_idx : Z) hyps ls :
  maes_expand_all KENLM_AVAILABLE BaseScore self time_idx outs hyp_idx hyps ls
  = maes_expand_all KENLM_AVAILABLE' BaseScore' self time_idx outs hyp_idx
    hyps ls.
Proof.
  revert hyp_idx ls. induction hyps as [| hyp hyps IH]; intros hyp_idx ls;
    simpl; [reflexivity |].
  destruct (getitem outs hyp_idx) as [o |]; simpl; [| reflexivity].
  destruct (hyp_expansions self o _) as [es |]; simpl; [| reflexivity].
  rewrite maes_expand_hyp_no_lm.
  destruct (maes_expand_hyp KENLM_AVAILABLE' BaseScore' self time_idx hyp es
    ls); simpl;
    [apply IH | reflexivity].
Qed.

Lemma maes_steps_no_lm (time_idx beam : Z) (ns : list Z) hyps kept
      (list_b0 list_nb0 : list hyp_t) (beam_state : BeamState) :
  maes_steps torch_logaddexp KENLM_AVAILABLE BaseScore joint_batch
    batch_initialize_states
    batch_score_hypothesis batch_select_state self time_idx beam ns hyps
    kept list_b0 list_nb0 beam_state
  = maes_steps torch_logaddexp KENLM_AVAILABLE' BaseScore' joint_batch
    batch_initialize_states
      batch_score_hypothesis batch_select_state self time_idx beam ns hyps
      kept list_b0 list_nb0 beam_state.
Proof.
  revert hyps kept list_b0 list_nb0 beam_state.
  induction ns as [| n ns IH];
    intros hyps kept list_b0 list_nb0 beam_state; simpl; [reflexivity |].
  rewrite maes_expand_all_no_lm.
  destruct (maes_expand_all KENLM_AVAILABLE' BaseScore' _ _ _ _ _ _) as [ls
    |]; simpl;
    [| reflexivity].
  match goal with
  | |- context [bind ?m _] => destruct m as [[updated st1] |]
  end; simpl; [| reflexivity].
  destruct (skipn _ updated) as [| e1 exp1]; [reflexivity |].
  destruct (n <? maes_num_steps self - 1)%Z; [apply IH |].
  destruct (maes_add_blanks _ _ _ _) as [exp2 |]; simpl;
    [apply IH | reflexivity].
Qed.

Lemma maes_frames_no_lm (beam : Z) (time_idxs : list Z) kept
      (beam_state : BeamState) :
  maes_search_frames self beam time_idxs kept beam_state
  = maes_frames torch_logaddexp KENLM_AVAILABLE' BaseScore' joint_batch
      batch_initialize_states batch_score_hypothesis batch_select_state
      self beam time_idxs kept beam_state.
Proof.
  revert kept beam_state.
  induction time_idxs as [| time_idx rest IH]; intros kept beam_state;
    simpl; [reflexivity |].
  destruct (filter (fun x => (last_frame x =? time_idx)%Z) kept)
    as [| h0 hyps]; [apply IH |].
  rewrite maes_steps_no_lm.
  destruct (maes_steps _ _ BaseScore' _ _ _ _ _ _ _ _ _ _ _ _ _)
    as [[kept1 st1] |]; simpl; [apply IH | reflexivity].
Qed.

(** X23: a decoder without a language model never consults one: the
    result of the modified adaptive expansion search is the same whatever
    the scoring function and the initial state of the language model
    are, and whether KenLM is available or not. *)
Theorem modified_adaptive_expansion_search_without_lm
        (encoded_lengths : Z) (partial_hypotheses : option hyp_t) :
  modified_adaptive_expansion_search torch_logaddexp KENLM_AVAILABLE BaseScore
    joint_batch
    batch_initialize_states batch_score_hypothesis batch_select_state
    initial_beam_state BeginSentenceWrite self encoded_lengths
    partial_hypotheses
  = modified_adaptive_expansion_search torch_logaddexp KENLM_AVAILABLE'
    BaseScore'
      joint_batch batch_initialize_states batch_score_hypothesis
      batch_select_state initial_beam_state BeginSentenceWrite' self
      encoded_lengths partial_hypotheses.
Proof.
  unfold modified_adaptive_expansion_search.
  destruct partial_hypotheses; [reflexivity |].
  destruct (batch_score_hypothesis _ _) as [outs st].
  unfold maes_init_lm_state. rewrite no_lm. simpl.
  destruct (getitem outs 0) as [out0 |]; simpl; [| reflexivity].
  now rewrite maes_frames_no_lm.
Qed.
End NoLM.
End MaesInvariants.

(** ** The final ranking *)

Section RankMore.
Variables DecState DecOut LMState : Type.
Abbreviation hyp_t := (Hyp DecState DecOut LMState).

Lemma sorted_desc_fixed {A : Type} (key : A -> R) (l : list A) :
  descending key l -> sorted_desc key l = l.
Proof.
  unfold descending. induction 1 as [| x l Hs IH Hx]; [reflexivity |].
  simpl. rewrite IH. destruct l as [| y l]; [reflexivity |]. simpl.
  inversion Hx as [| ? ? Hy _]; subst.
  now rewrite (proj2 (Rltb_false (key x) (key y))).
Qed.

(** X24: on hypotheses that have tokens when [score_norm] is set (the
    division by the number of tokens raises on a hypothesis without any),
    [sort_nbest] gives back the hypotheses it is given, each as many
    times, and a list that is ranked already is left as it is. *)
Theorem sort_nbest_rearranges (score_norm : bool) (hyps : list hyp_t) :
  (score_norm = true -> Forall (fun h => y_sequence h <> []) hyps) ->
  Permutation (sort_nbest score_norm hyps) hyps
  /\ sort_nbest score_norm (sort_nbest score_norm hyps)
     = sort_nbest score_norm hyps.
Proof.
  intros _. rewrite !sort_nbest_sorted_desc. split.
  - apply sorted_desc_permutation.
  - apply sorted_desc_fixed, sorted_desc_descending.
Qed.
End RankMore.

(** ** The decoding of a batch *)

Section DriverFacts.
Variables DecState DecOut LMState KenLM BeamState : Type.
Variable torch_logaddexp : R -> R -> R.
Variable KENLM_AVAILABLE : bool.
Variable BaseScore : KenLM -> LMState -> pystr -> R * LMState.
Variable initialize_state : DecState.
Variable batch_initialize_states : BeamState -> list DecState -> BeamState.
Variable batch_score_hypothesis :
  list (Hyp DecState DecOut LMState) -> BeamState -> list DecOut * BeamState.
Variable batch_select_state : BeamState -> Z -> DecState.
Variable initial_beam_state : BeamState.
Variable BeginSentenceWrite : KenLM -> LMState.
Variable pack_hypotheses :
  list (Hyp DecState DecOut LMState) -> list (Hyp DecState DecOut LMState).
Abbreviation hyp_t := (Hyp DecState DecOut LMState).
Abbreviation self_t := (BeamTDTInfer KenLM).
Abbreviation utterance_t := (Utterance DecState DecOut LMState).
Abbreviation prediction_t := (prediction DecState DecOut LMState).
Abbreviation search :=
  (run_search_algorithm torch_logaddexp KENLM_AVAILABLE BaseScore
    initialize_state
     batch_initialize_states batch_score_hypothesis batch_select_state
     initial_beam_state BeginSentenceWrite).
Abbreviation sample :=
  (decode_sample torch_logaddexp KENLM_AVAILABLE BaseScore initialize_state
     batch_initialize_states batch_score_hypothesis batch_select_state
     initial_beam_state BeginSentenceWrite pack_hypotheses).
Abbreviation samples :=
  (decode_samples torch_logaddexp KENLM_AVAILABLE BaseScore initialize_state
     batch_initialize_states batch_score_hypothesis batch_select_state
     initial_beam_state BeginSentenceWrite pack_hypotheses).
Abbreviation beam_call :=
  (call torch_logaddexp KENLM_AVAILABLE BaseScore initialize_state
     batch_initialize_states batch_score_hypothesis batch_select_state
     initial_beam_state BeginSentenceWrite pack_hypotheses).

(** The prediction [p] is what the search gives for the utterance [u]. *)
Abbreviation decoded fuel self u p :=
  (exists nbest_hyps,
      search fuel self u None = Some (Ok nbest_hyps)
      /\ match p with
         | Best h =>
             return_best_hypothesis self = true
             /\ getitem (pack_hypotheses nbest_hyps) 0 = Ok h
         | NBestHypotheses l =>
             return_best_hypothesis self = false
             /\ l = pack_hypotheses nbest_hyps
         end).

Lemma search_partial (fuel : nat) (self : self_t) (u : utterance_t)
      (h : hyp_t) :
  search fuel self u (Some h) = Some (Raise NotImplementedError).
Proof.
  unfold run_search_algorithm. now destruct (search_algorithm self).
Qed.

Lemma decode_sample_ok (fuel : nat) (self : self_t)
      (partial_hypotheses : option (list hyp_t)) (batch_idx : Z)
      (u : utterance_t) (p : prediction_t) :
  sample fuel self partial_hypotheses batch_idx u = Some (Ok p) ->
  partial_hypotheses = None /\ decoded fuel self u p.
Proof.
  unfold decode_sample. destruct partial_hypotheses as [l |].
  - destruct (getitem l batch_idx) as [h |]; simpl; [| discriminate].
    now rewrite search_partial.
  - destruct (search fuel self u None) as [[nbest |] |] eqn:Es;
      try discriminate.
    destruct (return_best_hypothesis self) eqn:Eb.
    + destruct (getitem (pack_hypotheses nbest) 0) as [h |] eqn:Eh;
        simpl; [| discriminate].
      intros H; injection H as <-. eauto.
    + intros H; injection H as <-. eauto.
Qed.

Lemma decode_samples_ok (fuel : nat) (self : self_t)
      (partial_hypotheses : option (list hyp_t)) (batch_idx : Z)
      (us : list utterance_t) (hypotheses hs : list prediction_t) :
  samples fuel self partial_hypotheses batch_idx us hypotheses
  = Some (Ok hs) ->
  exists ps,
    hs = hypotheses ++ ps
    /\ Forall2 (fun u p => decoded fuel self u p) us ps
    /\ (us = [] \/ partial_hypotheses = None).
Proof.
  revert batch_idx hypotheses.
  induction us as [| u us IH]; intros batch_idx hypotheses; simpl.
  - intros H; injection H as <-. exists []. rewrite app_nil_r. auto.
  - destruct (sample fuel self partial_hypotheses batch_idx u)
      as [[p |] |] eqn:Ep; try discriminate.
    apply decode_sample_ok in Ep. destruct Ep as [Hn Hp].
    intros H. apply IH in H. destruct H as (ps & -> & Hps & _).
    exists (p :: ps). rewrite <- app_assoc. auto.
Qed.

(** X25: when the call returns, every sample of the batch has been
    decoded on its own, in the order of the batch and without a partial
    hypothesis: the result holds, for each sample, the first of the packed
    hypotheses of its search or all of them, as [return_best_hypothesis]
    says; and the decoder and the joint network are back in the training
    modes they had. *)
Theorem call_decodes_every_sample (fuel : nat) (self : self_t)
        (decoder_training joint_training : bool) (us : list utterance_t)
        (partial_hypotheses : option (list hyp_t))
        (hypotheses : list prediction_t) (training : bool * bool) :
  call torch_logaddexp KENLM_AVAILABLE BaseScore initialize_state
    batch_initialize_states
    batch_score_hypothesis batch_select_state initial_beam_state
    BeginSentenceWrite pack_hypotheses fuel self decoder_training
    joint_training us partial_hypotheses
  = Some (Ok hypotheses, training) ->
  training = (decoder_training, joint_training)
  /\ Forall2 (fun u p => decoded fuel self u p) us hypotheses
  /\ (us = [] \/ partial_hypotheses = None).
Proof.
  unfold call.
  destruct (samples fuel self partial_hypotheses 0 us [])
    as [[hs | e] |] eqn:Es; try discriminate.
  intros H; injection H as <- <-.
  apply decode_samples_ok in Es. destruct Es as (ps & -> & Hps & Hp).
  auto.
Qed.

(** X26: partial hypotheses are not supported: with them a batch that
    is not empty is never decoded.  The call fails on the first sample,
    with [IndexError] when the list of partial hypotheses is empty and
    with [NotImplementedError] otherwise, and it leaves the decoder and the
    joint network in evaluation mode. *)
Theorem call_rejects_partial_hypotheses (fuel : nat) (self : self_t)
        (decoder_training joint_training : bool) (u : utterance_t)
        (us : list utterance_t) (partial_hypotheses : list hyp_t) :
  call torch_logaddexp KENLM_AVAILABLE BaseScore initialize_state
    batch_initialize_states
    batch_score_hypothesis batch_select_state initial_beam_state
    BeginSentenceWrite pack_hypotheses fuel self decoder_training
    joint_training (u :: us) (Some partial_hypotheses)
  = Some (Raise (match partial_hypotheses with
                 | [] => IndexError
                 | _ :: _ => NotImplementedError
                 end), (false, false)).
Proof.
  unfold call. simpl. unfold decode_sample.
  destruct partial_hypotheses as [| h l]; [reflexivity |].
  change (getitem (h :: l) 0) with (@Ok hyp_t h). simpl.
  now rewrite search_partial.
Qed.
End DriverFacts.

(** * The properties on the sample configurations *)

(** Evaluation of a term: the comparisons of real numbers that are met are
    decided one after the other. *)
Ltac nat_eval :=
  repeat match goal with
         | |- context [Pos.to_nat ?p] =>
             let v := eval vm_compute in (Pos.to_nat p) in
             change (Pos.to_nat p) with v
         end.

Ltac r_step :=
  match goal with
  | |- context [Rltb ?x ?y] =>
      first [ rewrite (proj2 (Rltb_true x y)) by (cbn; lra)
            | rewrite (proj2 (Rltb_false x y)) by (cbn; lra) ]
  end.

Ltac norm_eval := repeat (progress (cbn; nat_eval)).

Ltac r_eval := norm_eval; repeat (r_step; norm_eval).

Lemma sample_default012 :
  Sample.decoder "default" 2 [0; 1; 2]%Z = Ok Sample.default012.
Proof. reflexivity. Qed.

Lemma sample_default001 :
  Sample.decoder "default" 2 [0; 0; 1]%Z = Ok Sample.default001.
Proof. reflexivity. Qed.

Lemma sample_maes012 : Sample.decoder "maes" 1 [0; 1; 2]%Z = Ok Sample.maes012.
Proof. reflexivity. Qed.

Lemma init_durations_indexed {KenLM : Type}
      (kenlm_Model : string -> result KenLM)
      (KENLM_AVAILABLE : bool) (a : Args.t) (self : BeamTDTInfer KenLM) :
  init kenlm_Model KENLM_AVAILABLE a = Ok self -> durations_indexed self.
Proof.
  unfold init, durations_indexed.
  destruct (Args.preserve_alignments a); [discriminate |].
  destruct (Args.beam_size a <? 1)%Z; [discriminate |].
  destruct (select_search _); [simpl | discriminate].
  destruct (init_maes a); [simpl | discriminate].
  destruct (np_argmin _) eqn:E; [simpl | discriminate].
  destruct (init_ngram_lm _ _ a); [simpl | discriminate].
  intros H; injection H as <-. simpl. auto.
Qed.

(** ** C1 *)

(** The merge of the scores [-0.1] and [-1000] of two duplicates, as
    float32 tensors: the merged score is the float32 number nearest to
    [-0.1], which is [-13421773 / 2 ^ 27], about [-0.1000000015]. *)
Lemma merge_pair_any (op : R -> R -> R) :
  remove_duplicate_hypotheses op
    [Sample.hyp (-0.1) [3; 0]%Z 1; Sample.hyp (-1000) [3; 0]%Z 1]
  = [Sample.hyp (op (-0.1) (-1000)) [3; 0]%Z 1].
Proof.
  unfold remove_duplicate_hypotheses. r_eval. reflexivity.
Qed.

(** The exact log-sum-exp of the two scores is above [-0.1] by less than
    [2 ^ -30]. *)
Lemma logaddexp_tenth_near :
  -0.1 < ln (exp (-0.1) + exp (-1000)) <= -0.1 + / 2 ^ 30.
Proof.
  pose proof (logaddexp_near (-0.1) (-1000)) as [H1 H2].
  unfold logaddexp in H1, H2. split; [exact H1 |].
  apply Rle_trans with (1 := H2). apply Rplus_le_compat_l.
  apply Rle_trans with (exp (- INR 30)).
  - left. apply exp_increasing. simpl. lra.
  - rewrite exp_Ropp. apply Rinv_le_contravar; [apply pow_lt; lra |].
    apply exp_INR_ge.
Qed.

Lemma merge_pair_log_sum_exp_witness :
  exists m,
    In m (remove_duplicate_hypotheses logaddexp_float32
            [Sample.hyp (-0.1) [3; 0]%Z 1; Sample.hyp (-1000) [3; 0]%Z 1]) /\
    y_sequence m = [3; 0]%Z /\ last_frame m = 1%Z /\
    score m = -13421773 / 134217728 /\
    Rabs (score m - ln (exp (-0.1) + exp (-1000))) <= / 2 ^ 27 /\
    Rmax (-0.1) (-1000) - / 2 ^ 27 <= score m
      <= Rmax (-0.1) (-1000) + ln 2 + / 2 ^ 27.
Proof.
  assert (Hmax : Rmax (-0.1) (-1000) = -0.1)
    by (unfold Rmax; destruct (Rle_dec _ _); lra).
  assert (Hmin : Rmin (-0.1) (-1000) = -1000)
    by (unfold Rmin; destruct (Rle_dec _ _); lra).
  destruct (merge_pair_log_sum_exp unit unit nat logaddexp_float32
              [Sample.hyp (-0.1) [3; 0]%Z 1; Sample.hyp (-1000) [3; 0]%Z 1]
              (Sample.hyp (-0.1) [3; 0]%Z 1) (Sample.hyp (-1000) [3; 0]%Z 1)
              (Permutation_refl _))
    as (m & Hm & Hy & Hf & Hs & Heps & _).
  cbn [score Sample.hyp] in Hs, Heps.
  rewrite Hmax, Hmin, logaddexp_float32_tenth in Hs, Heps.
  destruct (Heps (/ 2 ^ 27)) as [He Hb].
  { pose proof logaddexp_tenth_near as [H1 H2]. simpl in H2 |- *.
    unfold Rabs. destruct (Rcase_abs _); lra. }
  exists m. rewrite Hmax. repeat split; try assumption; apply Hb.
Defined.

(** The merged score of the pair is below the higher of the two scores,
    and is not their log-sum-exp. *)
Lemma merge_pair_float32_counterexample :
  remove_duplicate_hypotheses logaddexp_float32
    [Sample.hyp (-0.1) [3; 0]%Z 1; Sample.hyp (-1000) [3; 0]%Z 1]
  = [Sample.hyp (-13421773 / 134217728) [3; 0]%Z 1]
  /\ -13421773 / 134217728 < Rmax (-0.1) (-1000)
  /\ -13421773 / 134217728 <> ln (exp (-0.1) + exp (-1000))
  /\ ~ (forall m,
          In m (remove_duplicate_hypotheses logaddexp_float32
                  [Sample.hyp (-0.1) [3; 0]%Z 1;
                   Sample.hyp (-1000) [3; 0]%Z 1]) ->
          score m = ln (exp (-0.1) + exp (-1000))
          /\ Rmax (-0.1) (-1000) <= score m <= Rmax (-0.1) (-1000) + ln 2).
Proof.
  assert (Hmax : Rmax (-0.1) (-1000) = -0.1)
    by (unfold Rmax; destruct (Rle_dec _ _); lra).
  pose proof (logaddexp_bounds (-0.1) (-1000)) as Hb.
  unfold logaddexp in Hb. rewrite Hmax in *.
  rewrite merge_pair_any, logaddexp_float32_tenth.
  split; [reflexivity |]. split; [lra |]. split; [lra |].
  intros H. specialize (H _ (or_introl eq_refl)). simpl in H. lra.
Qed.

(** ** C3 *)

Lemma remove_duplicate_hypotheses_order_independent_witness :
  Permutation
    (survivors logaddexp
       [Sample.hyp (-1) [3; 0]%Z 1; Sample.hyp (-2) [3; 0]%Z 1])
    (survivors logaddexp
       [Sample.hyp (-2) [3; 0]%Z 1; Sample.hyp (-1) [3; 0]%Z 1]).
Proof.
  apply (remove_duplicate_hypotheses_order_independent unit unit nat
           logaddexp).
  apply perm_swap.
Defined.

(** ** C4 *)

Lemma remove_duplicate_hypotheses_no_duplicates_witness :
  ~ (y_sequence (Sample.hyp (-1) [3; 0]%Z 1)
     = y_sequence (Sample.hyp (-2) [3; 1]%Z 1)
     /\ last_frame (Sample.hyp (-1) [3; 0]%Z 1)
        = last_frame (Sample.hyp (-2) [3; 1]%Z 1)).
Proof.
  apply (remove_duplicate_hypotheses_no_duplicates unit unit nat logaddexp
           [Sample.hyp (-1) [3; 0]%Z 1; Sample.hyp (-2) [3; 1]%Z 1]
           0%nat 1%nat).
  - lia.
  - unfold remove_duplicate_hypotheses. r_eval. reflexivity.
  - unfold remove_duplicate_hypotheses. r_eval. reflexivity.
Defined.

(** ** C10 *)


(** ** C7 *)

Lemma sort_nbest_ranking_witness :
  Permutation
    (sort_nbest true [Sample.hyp (-1) [3]%Z 1; Sample.hyp (-2) [3; 0]%Z 1])
    [Sample.hyp (-1) [3]%Z 1; Sample.hyp (-2) [3; 0]%Z 1].
Proof.
  apply (sort_nbest_ranking unit unit nat true
           [Sample.hyp (-1) [3]%Z 1; Sample.hyp (-2) [3; 0]%Z 1]).
  repeat constructor; discriminate.
Defined.

(** Two hypotheses of equal normalized scores: the one that comes first in
    the input stays first, so the other one does not rank before it. *)
Lemma sort_nbest_tie_counterexample :
  sort_nbest true [Sample.hyp (-1) [3]%Z 1; Sample.hyp (-2) [3; 0]%Z 1]
  = [Sample.hyp (-1) [3]%Z 1; Sample.hyp (-2) [3; 0]%Z 1]
  /\ rank_key true (Sample.hyp (-1) [3]%Z 1)
     <= rank_key true (Sample.hyp (-2) [3; 0]%Z 1)
  /\ ~ ranked_iff_ge true
         [Sample.hyp (-1) [3]%Z 1; Sample.hyp (-2) [3; 0]%Z 1].
Proof.
  assert (E : sort_nbest true
                [Sample.hyp (-1) [3]%Z 1; Sample.hyp (-2) [3; 0]%Z 1]
              = [Sample.hyp (-1) [3]%Z 1; Sample.hyp (-2) [3; 0]%Z 1]).
  { unfold sort_nbest. r_eval. reflexivity. }
  assert (K : rank_key true (Sample.hyp (-1) [3]%Z 1)
              <= rank_key true (Sample.hyp (-2) [3; 0]%Z 1)).
  { cbn. lra. }
  split; [exact E |]. split; [exact K |].
  intros H.
  specialize (H 1%nat 0%nat (Sample.hyp (-2) [3; 0]%Z 1)
                (Sample.hyp (-1) [3]%Z 1)).
  rewrite E in H.
  destruct (H ltac:(lia) eq_refl eq_refl) as [_ Hback].
  specialize (Hback K). lia.
Qed.

(** ** C8 *)

(** No refused option, and an empty list of durations. *)
Lemma init_empty_durations_counterexample :
  ~ rejected true (Sample.args "default" 2 [])
  /\ init Sample.kenlm_Model true (Sample.args "default" 2 [])
     = Raise ValueError.
Proof.
  split; [| reflexivity].
  unfold rejected, supported. cbn.
  intuition (try lia; try discriminate).
Qed.

(** A model of the language that the loader cannot read: the constructor
    raises what the loader raises. *)
Lemma init_raises_iff_witness :
  Forall int64 (Args.durations (Sample.args_lm "lm.bin"))
  /\ load_fails Sample.kenlm_Model_unreadable (Sample.args_lm "lm.bin")
  /\ ~ rejected true (Sample.args_lm "lm.bin")
  /\ init Sample.kenlm_Model_unreadable true (Sample.args_lm "lm.bin")
     = Raise OSError
  /\ exists e,
      init Sample.kenlm_Model_unreadable true (Sample.args_lm "lm.bin")
      = Raise e.
Proof.
  assert (H64 : Forall int64 (Args.durations (Sample.args_lm "lm.bin")))
    by (repeat constructor; unfold INT64_MAX; lia).
  assert (Hl : load_fails Sample.kenlm_Model_unreadable
                 (Sample.args_lm "lm.bin"))
    by (split; [reflexivity | exists "lm.bin"%string, OSError; split;
                              reflexivity]).
  split; [exact H64 |]. split; [exact Hl |]. split; [| split].
  - unfold rejected, supported. cbn.
    intuition (try lia; try discriminate).
  - reflexivity.
  - apply (proj2 (proj1 (init_raises_iff unit Sample.kenlm_Model_unreadable
                           true (Sample.args_lm "lm.bin") H64))).
    right. right. exact Hl.
Defined.

(** ** C9 *)



(** ** C5 *)

Lemma expansions_advance_frames_witness :
  (last_frame (Sample.hyp 0 [3]%Z 0)
   < last_frame (Sample.hyp (0 + -1 + -1) [3]%Z 1))%Z.
Proof.
  apply (proj1 (proj2 (expansions_advance_frames unit unit nat unit true
                         Sample.BaseScore Sample.default012
                         ltac:(repeat constructor; lia)
                         ltac:(right; left; unfold INT64_MAX; lia)
                         ltac:(cbn; lia)
                         (init_durations_indexed _ _ _ _ sample_default012)))
           0%Z (Sample.hyp 0 [3]%Z 0) Sample.joint01 1%nat).
  reflexivity.
Defined.

(** C5: the duration zero configured twice, in [0; 0; 1]: the constructor
    designates the first zero-duration bin, and default beam search gives
    the blank token the second one, so that the child stays on the frame
    of its parent although no duration is negative and one is not zero.
    With the durations [0; 2^63 - 1], the masked zero counts as the
    largest [int64], the constructor takes the zero-duration bin for the
    smallest non-zero duration, and the substitution leaves the blank
    token on the frame of its parent too. *)
Theorem blank_zero_duration_failing_input :
  Sample.decoder "default" 2 [0; 0; 1]%Z = Ok Sample.default001
  /\ default_blank_hyp Sample.default001 0 (Sample.hyp 0 [3]%Z 0)
       Sample.joint12 1
     = Ok (Some (Sample.hyp (0 + -1 + -1) [3]%Z 0))
  /\ ~ blank_advances_frame unit unit nat Sample.default001
  /\ Sample.decoder "default" 2 [0; 9223372036854775807]%Z
     = Ok Sample.default0max
  /\ default_blank_hyp Sample.default0max 0 (Sample.hyp 0 [3]%Z 0)
       Sample.joint0 0
     = Ok (Some (Sample.hyp (0 + -1 + -1) [3]%Z 0))
  /\ ~ blank_advances_frame unit unit nat Sample.default0max.
Proof.
  assert (H001 : Sample.decoder "default" 2 [0; 0; 1]%Z
                 = Ok Sample.default001) by reflexivity.
  assert (H0max : Sample.decoder "default" 2 [0; 9223372036854775807]%Z
                  = Ok Sample.default0max) by reflexivity.
  split; [exact H001 |]. split; [reflexivity |]. split; [| split; [| split]].
  - intros H.
    specialize (H ltac:(repeat constructor; lia)
                  ltac:(right; right; left; lia)
                  (init_durations_indexed _ _ _ _ H001)
                  0%Z (Sample.hyp 0 [3]%Z 0) Sample.joint12 1%nat _ eq_refl).
    cbn in H. lia.
  - exact H0max.
  - reflexivity.
  - intros H.
    specialize (H ltac:(repeat constructor; lia)
                  ltac:(right; left; lia)
                  (init_durations_indexed _ _ _ _ H0max)
                  0%Z (Sample.hyp 0 [3]%Z 0) Sample.joint0 0%nat _ eq_refl).
    cbn in H. lia.
Qed.

(** ** C2 *)

Lemma blank_on_zero_duration_witness :
  exists child,
    maes_expand true Sample.BaseScore Sample.maes012 0 (Sample.hyp 0 [3]%Z 0)
      (3%Z, 0%nat, -2) (mkEmissions [] [] [])
    = Ok (mkEmissions ([] ++ [child]) [] [])
    /\ last_frame child = (0 + 1)%Z
    /\ score child = 0 + -2
    /\ y_sequence child = [3]%Z.
Proof.
  apply (proj1 (blank_on_zero_duration unit unit nat unit true
                  Sample.BaseScore Sample.maes012 0%nat eq_refl)
           0%Z (Sample.hyp 0 [3]%Z 0) (-2) (mkEmissions [] [] []) 1%Z).
  reflexivity.
Defined.

(** Three top durations, and the blank token on the zero-duration bin
    among the expansions of the row: mAES emits it with the smallest
    non-zero duration, where default beam search skips it. *)
Lemma maes_blank_counterexample :
  List.length (beam_duration_idx_topks Sample.row) = 3%nat
  /\ hyp_expansions Sample.maes012 Sample.row
       (beam_kexpansions_idxs Sample.row) = Ok [(3%Z, 0%nat, -2)]
  /\ maes_expand_all true Sample.BaseScore Sample.maes012 0 [Sample.row] 0
       [Sample.hyp 0 [3]%Z 0] (mkEmissions [] [] [])
     = Ok (mkEmissions [Sample.hyp (0 + -2) [3]%Z 1] [] [])
  /\ default_blank_hyp Sample.default012 0 (Sample.hyp 0 [3]%Z 0)
       Sample.joint01 0 = Ok None
  /\ ~ maes_skips_zero_duration_blank unit unit true Sample.BaseScore
         Sample.maes012.
Proof.
  repeat split; try reflexivity.
  intros H.
  specialize (H 0%Z (Sample.hyp 0 [3]%Z 0) Sample.row _ 0%nat (-2)
                (mkEmissions [] [] []) _
                eq_refl (or_introl eq_refl) eq_refl
                ltac:(cbn; lia) eq_refl).
  discriminate H.
Qed.

(** ** C6 *)

(** One hypothesis left in the working set, and two pending hypotheses of
    greater scores: with [beam = 2] the frame stops, with [beam = 3] it
    goes on. *)
Lemma default_prune_sample :
  default_prune 2 [Sample.hyp (-3) [3; 0]%Z 0]
    [Sample.hyp (-1) [3; 1]%Z 1; Sample.hyp (-4) [3]%Z 2;
     Sample.hyp (-2) [3]%Z 1]
  = Break [Sample.hyp (-2) [3]%Z 1; Sample.hyp (-1) [3; 1]%Z 1]
  /\ default_prune 3 [Sample.hyp (-3) [3; 0]%Z 0]
       [Sample.hyp (-1) [3; 1]%Z 1; Sample.hyp (-4) [3]%Z 2;
        Sample.hyp (-2) [3]%Z 1]
     = Next [Sample.hyp (-3) [3; 0]%Z 0]
         [Sample.hyp (-1) [3; 1]%Z 1; Sample.hyp (-4) [3]%Z 2;
          Sample.hyp (-2) [3]%Z 1].
Proof.
  split; unfold default_prune, py_max; r_eval; reflexivity.
Qed.

(** A pass of the scenario: the start hypothesis is expanded, a hypothesis
    of score [-10] is left in the working set, and the three pending
    hypotheses have greater scores; with [beam = 2] the frame stops and
    returns the three of them in ascending order of score. *)
Lemma default_early_stop_witness :
  default_pass logaddexp Sample.scenario_joint Sample.scenario 0 2 2 1
    (mkHyp 0 [2%Z] tt [] [(-1)%Z] 0%Z 0%Z None)
    [mkHyp (-10) [2; 1]%Z tt [] [-1; 0]%Z 2%Z 0%Z None] []
  = Ok (Break [mkHyp (0 + -2 + -2) [2%Z] tt [] [(-1)%Z] 2%Z 2%Z None;
               mkHyp (0 + -2 + -1) [2%Z] tt [] [(-1)%Z] 2%Z 1%Z None;
               mkHyp (0 + -2) [2; 0]%Z tt [] [-1; 1]%Z 2%Z 1%Z None])
  /\ default_frame logaddexp Sample.scenario_joint 1 Sample.scenario 0 2 2 1
       [mkHyp 0 [2%Z] tt [] [(-1)%Z] 0%Z 0%Z None;
        mkHyp (-10) [2; 1]%Z tt [] [-1; 0]%Z 2%Z 0%Z None] []
     = Some (Ok [mkHyp (0 + -2 + -2) [2%Z] tt [] [(-1)%Z] 2%Z 2%Z None;
                 mkHyp (0 + -2 + -1) [2%Z] tt [] [(-1)%Z] 2%Z 1%Z None;
                 mkHyp (0 + -2) [2; 0]%Z tt [] [-1; 1]%Z 2%Z 1%Z None]).
Proof.
  assert (Hpop : pop_max score
                   (mkHyp 0 [2%Z] tt [] [(-1)%Z] 0%Z 0%Z None
                    : Hyp unit unit nat)
                   [mkHyp (-10) [2; 1]%Z tt [] [-1; 0]%Z 2%Z 0%Z None]
                 = (mkHyp 0 [2%Z] tt [] [(-1)%Z] 0%Z 0%Z None,
                    [mkHyp (-10) [2; 1]%Z tt [] [-1; 0]%Z 2%Z 0%Z None]))
    by (r_eval; reflexivity).
  pose proof
    (default_early_stop _ _ _ _ logaddexp Sample.scenario_joint Sample.scenario
       0 2 2 1 _ _ [] _ _
       [mkHyp (-10) [2; 1]%Z tt [] [-1; 0]%Z 2%Z 0%Z None]
       [mkHyp (0 + -2) [2; 0]%Z tt [] [-1; 1]%Z 2%Z 1%Z None]
       [mkHyp (0 + -2) [2; 0]%Z tt [] [-1; 1]%Z 2%Z 1%Z None;
        mkHyp (0 + -2 + -1) [2%Z] tt [] [(-1)%Z] 2%Z 1%Z None;
        mkHyp (0 + -2 + -2) [2%Z] tt [] [(-1)%Z] 2%Z 2%Z None]
       Hpop eq_refl eq_refl) as [_ [H _]].
  assert (E : dominating
                (mkHyp (-10) [2; 1]%Z tt [] [-1; 0]%Z 2%Z 0%Z None
                 : Hyp unit unit nat) []
                (remove_duplicate_hypotheses logaddexp
                   [mkHyp (0 + -2) [2; 0]%Z tt [] [-1; 1]%Z 2%Z 1%Z None;
                    mkHyp (0 + -2 + -1) [2%Z] tt [] [(-1)%Z] 2%Z 1%Z None;
                    mkHyp (0 + -2 + -2) [2%Z] tt [] [(-1)%Z] 2%Z 2%Z None])
              = [mkHyp (0 + -2) [2; 0]%Z tt [] [-1; 1]%Z 2%Z 1%Z None;
                 mkHyp (0 + -2 + -1) [2%Z] tt [] [(-1)%Z] 2%Z 1%Z None;
                 mkHyp (0 + -2 + -2) [2%Z] tt [] [(-1)%Z] 2%Z 2%Z None])
    by (unfold remove_duplicate_hypotheses, dominating, py_max; r_eval;
        reflexivity).
  assert (E' : sorted_asc score
                 [mkHyp (0 + -2) [2; 0]%Z tt [] [-1; 1]%Z 2%Z 1%Z None
                  : Hyp unit unit nat;
                  mkHyp (0 + -2 + -1) [2%Z] tt [] [(-1)%Z] 2%Z 1%Z None;
                  mkHyp (0 + -2 + -2) [2%Z] tt [] [(-1)%Z] 2%Z 2%Z None]
               = [mkHyp (0 + -2 + -2) [2%Z] tt [] [(-1)%Z] 2%Z 2%Z None;
                  mkHyp (0 + -2 + -1) [2%Z] tt [] [(-1)%Z] 2%Z 1%Z None;
                  mkHyp (0 + -2) [2; 0]%Z tt [] [-1; 1]%Z 2%Z 1%Z None])
    by (r_eval; reflexivity).
  specialize (H _ [] eq_refl). rewrite E, E' in H.
  destruct (H ltac:(cbn; lia)) as (Hp & Hf & _).
  split; [exact Hp | exact (Hf 0%nat)].
Defined.

(** ** The scenario of two frames *)

Lemma ln_2_lt_1 : ln 2 < 1.
Proof.
  assert (H : ln 2 < ln (exp 1)).
  { apply ln_increasing; [lra |]. pose proof (exp_ineq1 1). lra. }
  now rewrite ln_exp in H.
Qed.

(** Whatever [torch.logaddexp] computes for the two paths to [blank, 0] at
    frame 2, between their maximum and a bound below the best score: the
    pending set after frame 0 holds [blank, 0] at frame 1, and the best
    hypothesis after frame 1 is [blank, 0, 0]. *)
Lemma default_beam_search_scenario_any (op : R -> R -> R) :
  -5 <= op (0 + -2 + -2 + -1) (0 + -2 + -1 + -2) < -4 ->
  default_frames op Sample.scenario_joint 2 Sample.scenario 2 2 1 [0%Z]
    [mkHyp 0 [2%Z] tt [] [(-1)%Z] 0%Z 0%Z None]
  = Some (Ok [mkHyp (0 + -2) [2; 0]%Z tt [] [-1; 1]%Z 2%Z 1%Z None;
              mkHyp (0 + -2 + -1) [2]%Z tt [] [(-1)%Z] 2%Z 1%Z None])
  /\ default_beam_search op Sample.scenario_joint tt 3 Sample.scenario 2 None
     = Some (Ok [mkHyp (0 + -2 + -2) [2; 0; 0]%Z tt [] [-1; 1; 2]%Z 2%Z 2%Z
                   None;
                 mkHyp (op (0 + -2 + -2 + -1) (0 + -2 + -1 + -2)) [2; 0]%Z
                   tt [] [-1; 1]%Z 2%Z 2%Z None]).
Proof.
  intros Hop. split.
  - unfold default_frames, default_frame, default_pass, default_prune,
      remove_duplicate_hypotheses.
    r_eval. reflexivity.
  - unfold default_beam_search. cbv zeta.
    change (py_range 2) with [0%Z; 1%Z].
    unfold default_frames, default_frame, default_pass, default_prune,
      remove_duplicate_hypotheses, sort_nbest.
    r_eval. reflexivity.
Qed.

Lemma default_beam_search_scenario :
  exists merged_score : R,
    default_beam_search logaddexp Sample.scenario_joint tt 3 Sample.scenario
      2 None
    = Some (Ok [mkHyp (0 + -2 + -2) [2; 0; 0]%Z tt [] [-1; 1; 2]%Z 2%Z 2%Z
                  None;
                mkHyp merged_score [2; 0]%Z tt [] [-1; 1]%Z 2%Z 2%Z None]).
Proof.
  eexists. apply default_beam_search_scenario_any.
  pose proof (logaddexp_bounds (0 + -2 + -2 + -1) (0 + -2 + -1 + -2)) as H.
  pose proof ln_2_lt_1.
  replace (Rmax (0 + -2 + -2 + -1) (0 + -2 + -1 + -2)) with (-5) in H
    by (unfold Rmax; destruct (Rle_dec _ _); lra).
  lra.
Qed.

(** ** The scenario of one frame of mAES *)

(** The first step gives [blank, 0] at frame 1, the blank token at frame 1
    and the expansion [blank, 0] of duration zero; the second step expands
    the latter, and the blank token is added to the expansion that is left
    at the last step.  Two pairs of duplicates are merged, and the beam of
    one hypothesis keeps [blank, 0], on which the decoder ran twice. *)
Lemma modified_adaptive_expansion_search_scenario_any (op : R -> R -> R) :
  -2 <= op (0 + -2) (0 + -3 + -3) ->
  op (0 + -3 + -2) (0 + -3 + -3 + (-2 + -1)) < -3 ->
  modified_adaptive_expansion_search op true Sample.BaseScore Sample.joint_batch
    Sample.batch_initialize_states Sample.batch_score_hypothesis
    Sample.batch_select_state 0%nat Sample.BeginSentenceWrite
    Sample.maes012 1 None
  = Ok [mkHyp (op (0 + -2) (0 + -3 + -3)) [3; 0]%Z tt [tt; tt; tt]
              [-1; 0]%Z 0%Z 1%Z None].
Proof.
  intros H1 H2.
  unfold modified_adaptive_expansion_search. cbv zeta.
  change (py_range 1) with [0%Z].
  unfold maes_frames. cbn [filter last_frame Z.eqb Z.ltb].
  cbn -[maes_steps remove_duplicate_hypotheses sort_nbest].
  change (py_range 2) with [0%Z; 1%Z].
  unfold maes_steps, remove_duplicate_hypotheses, sort_nbest,
    Sample.joint_batch, Sample.maes_row, maes_add_blanks, maes_add_blank.
  r_eval. reflexivity.
Qed.

Lemma modified_adaptive_expansion_search_scenario :
  exists merged_score : R,
    modified_adaptive_expansion_search logaddexp true Sample.BaseScore
      Sample.joint_batch Sample.batch_initialize_states
      Sample.batch_score_hypothesis Sample.batch_select_state 0%nat
      Sample.BeginSentenceWrite Sample.maes012 1 None
    = Ok [mkHyp merged_score [3; 0]%Z tt [tt; tt; tt] [-1; 0]%Z 0%Z 1%Z None].
Proof.
  eexists. apply modified_adaptive_expansion_search_scenario_any.
  - pose proof (logaddexp_bounds (0 + -2) (0 + -3 + -3)) as H.
    replace (Rmax (0 + -2) (0 + -3 + -3)) with (-2) in H
      by (unfold Rmax; destruct (Rle_dec _ _); lra).
    lra.
  - pose proof (logaddexp_bounds (0 + -3 + -2) (0 + -3 + -3 + (-2 + -1)))
      as H.
    pose proof ln_2_lt_1.
    replace (Rmax (0 + -3 + -2) (0 + -3 + -3 + (-2 + -1))) with (-5) in H
      by (unfold Rmax; destruct (Rle_dec _ _); lra).
    lra.
Qed.

(** ** Further properties *)

Lemma remove_duplicate_hypotheses_without_duplicates_witness :
  remove_duplicate_hypotheses logaddexp
    [Sample.hyp (-2) [3; 0]%Z 1; Sample.hyp (-1) [3]%Z 1]
  = sorted_desc score
      [Sample.hyp (-2) [3; 0]%Z 1; Sample.hyp (-1) [3]%Z 1].
Proof.
  apply (remove_duplicate_hypotheses_without_duplicates unit unit nat
           logaddexp).
  apply NoDup_cons; [cbn; intros [Heq | []]; discriminate Heq |].
  apply NoDup_cons; [simpl; tauto | apply NoDup_nil].
Defined.

Lemma init_exception_witness :
  init Sample.kenlm_Model_unreadable true (Sample.args_lm "lm.bin")
  = Raise OSError
  /\ load_raises Sample.kenlm_Model_unreadable true
       (Sample.args_lm "lm.bin") OSError.
Proof.
  split; [reflexivity |].
  destruct (proj2 (proj2 (init_exception unit Sample.kenlm_Model_unreadable
                            true (Sample.args_lm "lm.bin")
                            ltac:(repeat constructor; unfold INT64_MAX;
                                  lia)))
              OSError eq_refl) as [H | [H | [H | H]]];
    [discriminate H | discriminate H | discriminate H | exact H].
Defined.

Lemma init_computes_witness :
  durations Sample.default012 = [0; 1; 2]%Z
  /\ token_offset Sample.default012 = 0%Z
  /\ max_candidates Sample.default012 = 2%Z
  /\ exists d,
      nth_error [0; 1; 2]%Z (min_non_zero_duration_idx Sample.default012)
      = Some d
      /\ d <> 0%Z.
Proof.
  destruct (init_computes unit Sample.kenlm_Model true
              (Sample.args "default" 2 [0; 1; 2]%Z) Sample.default012
              ltac:(repeat constructor; unfold INT64_MAX; lia)
              sample_default012) as (Hd & Ht & Hm & _ & Hmin & _).
  repeat split; try assumption.
  destruct (Hmin ltac:(right; left; unfold INT64_MAX; lia))
    as (d & Hn & Hnz & _).
  exists d. split; assumption.
Defined.

Lemma lm_label_injective_witness : py_str_int 1 <> py_str_int 2.
Proof.
  exact (lm_label_injective unit Sample.maes012_lm 1 2 (py_str_int 1)
           (py_str_int 2) ltac:(lia) eq_refl eq_refl).
Defined.


Lemma scenario_durations_indexed : durations_indexed Sample.scenario.
Proof. split; reflexivity. Qed.

Lemma maes012_durations_indexed : durations_indexed Sample.maes012.
Proof. split; reflexivity. Qed.

Lemma default_beam_search_lengths_agree_witness :
  exists nbest,
    default_beam_search logaddexp Sample.scenario_joint tt 3 Sample.scenario
      2 None = Some (Ok nbest)
    /\ Forall (fun h => lengths_agree h
                        /\ hd_error (y_sequence h)
                           = Some (blank Sample.scenario)
                        /\ hd_error (timestep h) = Some (-1)%Z) nbest.
Proof.
  destruct default_beam_search_scenario as [s Hs]. eexists.
  split; [exact Hs |].
  exact (default_beam_search_lengths_agree unit unit nat unit logaddexp
           Sample.scenario_joint tt 3 Sample.scenario 2 None _ Hs).
Defined.

Lemma default_beam_search_consumes_frames_witness :
  exists nbest,
    default_beam_search logaddexp Sample.scenario_joint tt 3 Sample.scenario
      2 None = Some (Ok nbest)
    /\ Forall (fun h => (2 <= last_frame h)%Z) nbest.
Proof.
  destruct default_beam_search_scenario as [s Hs]. eexists.
  split; [exact Hs |].
  exact (default_beam_search_consumes_frames unit unit nat unit logaddexp
           Sample.scenario_joint Sample.scenario
           ltac:(repeat constructor; lia)
           ltac:(right; left; unfold INT64_MAX; lia)
           ltac:(cbn; lia) scenario_durations_indexed tt 3 2 None _ Hs).
Defined.

Lemma default_beam_search_nonempty_witness :
  exists nbest,
    default_beam_search logaddexp Sample.scenario_joint tt 3 Sample.scenario
      2 None = Some (Ok nbest)
    /\ nbest <> [].
Proof.
  destruct default_beam_search_scenario as [s Hs]. eexists.
  split; [exact Hs |].
  exact (default_beam_search_nonempty unit unit nat unit logaddexp
           Sample.scenario_joint Sample.scenario
           ltac:(repeat constructor; lia)
           ltac:(right; left; unfold INT64_MAX; lia)
           ltac:(cbn; lia) scenario_durations_indexed
           ltac:(intros; discriminate)
           ltac:(intros; apply NoDup_cons; [simpl; lia |];
                 apply NoDup_cons; [simpl; tauto | apply NoDup_nil])
           tt 3 2 None _ ltac:(cbn; lia) Hs).
Defined.

Lemma default_beam_search_timesteps_witness :
  exists nbest,
    default_beam_search logaddexp Sample.scenario_joint tt 3 Sample.scenario
      2 None = Some (Ok nbest)
    /\ Forall (fun h => StronglySorted Z.le (timestep h)
                        /\ Forall (fun t => (t <= last_frame h)%Z)
                                  (timestep h)) nbest.
Proof.
  destruct default_beam_search_scenario as [s Hs]. eexists.
  split; [exact Hs |].
  exact (default_beam_search_timesteps unit unit nat unit logaddexp
           Sample.scenario_joint Sample.scenario
           ltac:(repeat constructor; lia) tt 3 2 None _ Hs).
Defined.

Lemma default_beam_search_no_duplicates_witness :
  exists nbest,
    default_beam_search logaddexp Sample.scenario_joint tt 3 Sample.scenario
      2 None = Some (Ok nbest)
    /\ NoDup (map hkey nbest).
Proof.
  destruct default_beam_search_scenario as [s Hs]. eexists.
  split; [exact Hs |].
  exact (default_beam_search_no_duplicates unit unit nat unit logaddexp
           Sample.scenario_joint tt 3 Sample.scenario 2 None _ Hs).
Defined.

Lemma default_beam_search_ends_witness :
  exists (fuel : nat) (r : result (list (Hyp unit unit nat))),
    forall fuel', (fuel <= fuel')%nat ->
      default_beam_search logaddexp Sample.scenario_joint tt fuel'
        (Sample.built "default" default_beam_search_alg 2 2 [1; 2]%Z None 0
           None)
        2 None = Some r.
Proof.
  apply (default_beam_search_ends unit unit nat unit logaddexp
           Sample.scenario_joint tt).
  simpl. lia.
Defined.

Lemma modified_adaptive_expansion_search_lengths_agree_witness :
  exists nbest,
    modified_adaptive_expansion_search logaddexp true Sample.BaseScore
      Sample.joint_batch Sample.batch_initialize_states
      Sample.batch_score_hypothesis Sample.batch_select_state 0%nat
      Sample.BeginSentenceWrite Sample.maes012 1 None = Ok nbest
    /\ Forall (fun h => lengths_agree h
                        /\ hd_error (y_sequence h)
                           = Some (blank Sample.maes012)
                        /\ hd_error (timestep h) = Some (-1)%Z) nbest.
Proof.
  destruct modified_adaptive_expansion_search_scenario as [s Hs]. eexists.
  split; [exact Hs |].
  exact (modified_adaptive_expansion_search_lengths_agree unit unit nat unit nat
           logaddexp true Sample.BaseScore Sample.joint_batch
           Sample.batch_initialize_states Sample.batch_score_hypothesis
           Sample.batch_select_state 0%nat Sample.BeginSentenceWrite
           Sample.maes012
           1 None _ Hs).
Defined.

Lemma modified_adaptive_expansion_search_lm_state_witness :
  exists nbest,
    modified_adaptive_expansion_search logaddexp true Sample.BaseScore
      Sample.joint_batch Sample.batch_initialize_states
      Sample.batch_score_hypothesis Sample.batch_select_state 0%nat
      Sample.BeginSentenceWrite Sample.maes012 1 None = Ok nbest
    /\ Forall (fun h => ngram_lm_state h = None
                        <-> ngram_lm Sample.maes012 = None) nbest.
Proof.
  destruct modified_adaptive_expansion_search_scenario as [s Hs]. eexists.
  split; [exact Hs |].
  exact (modified_adaptive_expansion_search_lm_state unit unit nat unit nat
           logaddexp true Sample.BaseScore Sample.joint_batch
           Sample.batch_initialize_states Sample.batch_score_hypothesis
           Sample.batch_select_state 0%nat Sample.BeginSentenceWrite
           Sample.maes012
           1 None _ Hs).
Defined.

Lemma modified_adaptive_expansion_search_consumes_frames_witness :
  exists nbest,
    modified_adaptive_expansion_search logaddexp true Sample.BaseScore
      Sample.joint_batch Sample.batch_initialize_states
      Sample.batch_score_hypothesis Sample.batch_select_state 0%nat
      Sample.BeginSentenceWrite Sample.maes012 1 None = Ok nbest
    /\ Forall (fun h => (1 <= last_frame h)%Z) nbest.
Proof.
  destruct modified_adaptive_expansion_search_scenario as [s Hs]. eexists.
  split; [exact Hs |].
  exact (modified_adaptive_expansion_search_consumes_frames unit unit nat unit
    nat
           logaddexp true Sample.BaseScore Sample.joint_batch
           Sample.batch_initialize_states Sample.batch_score_hypothesis
           Sample.batch_select_state 0%nat Sample.BeginSentenceWrite
           Sample.maes012
           ltac:(repeat constructor; lia)
           ltac:(right; left; unfold INT64_MAX; lia)
           ltac:(cbn; lia) maes012_durations_indexed 1 None _ Hs).
Defined.

Lemma modified_adaptive_expansion_search_timesteps_witness :
  exists nbest,
    modified_adaptive_expansion_search logaddexp true Sample.BaseScore
      Sample.joint_batch Sample.batch_initialize_states
      Sample.batch_score_hypothesis Sample.batch_select_state 0%nat
      Sample.BeginSentenceWrite Sample.maes012 1 None = Ok nbest
    /\ Forall (fun h => StronglySorted Z.le (timestep h)
                        /\ Forall (fun t => (t <= last_frame h)%Z)
                                  (timestep h)) nbest.
Proof.
  destruct modified_adaptive_expansion_search_scenario as [s Hs]. eexists.
  split; [exact Hs |].
  exact (modified_adaptive_expansion_search_timesteps unit unit nat unit nat
           logaddexp true Sample.BaseScore Sample.joint_batch
           Sample.batch_initialize_states Sample.batch_score_hypothesis
           Sample.batch_select_state 0%nat Sample.BeginSentenceWrite
           Sample.maes012
           ltac:(repeat constructor; lia) 1 None _ Hs).
Defined.

Lemma sample_expansions_nonempty (time_idx : Z)
      (hyps : list (Hyp unit unit nat)) :
  Forall (fun o => beam_kexpansions_idxs o <> [])
         (Sample.joint_batch time_idx hyps).
Proof.
  apply Forall_forall. intros o Ho. apply in_map_iff in Ho.
  destruct Ho as (h & <- & _). discriminate.
Qed.

Lemma modified_adaptive_expansion_search_nonempty_witness :
  exists nbest,
    modified_adaptive_expansion_search logaddexp true Sample.BaseScore
      Sample.joint_batch Sample.batch_initialize_states
      Sample.batch_score_hypothesis Sample.batch_select_state 0%nat
      Sample.BeginSentenceWrite Sample.maes012 1 None = Ok nbest
    /\ nbest <> [].
Proof.
  destruct modified_adaptive_expansion_search_scenario as [s Hs]. eexists.
  split; [exact Hs |].
  exact (modified_adaptive_expansion_search_nonempty unit unit nat unit nat
           logaddexp true Sample.BaseScore Sample.joint_batch
           Sample.batch_initialize_states Sample.batch_score_hypothesis
           Sample.batch_select_state 0%nat Sample.BeginSentenceWrite
           Sample.maes012
           ltac:(repeat constructor; lia)
           ltac:(right; left; unfold INT64_MAX; lia)
           ltac:(cbn; lia) maes012_durations_indexed
           sample_expansions_nonempty 1 None _ ltac:(cbn; lia)
           ltac:(cbn; lia) Hs).
Defined.

Lemma modified_adaptive_expansion_search_no_duplicates_witness :
  exists nbest,
    modified_adaptive_expansion_search logaddexp true Sample.BaseScore
      Sample.joint_batch Sample.batch_initialize_states
      Sample.batch_score_hypothesis Sample.batch_select_state 0%nat
      Sample.BeginSentenceWrite Sample.maes012 1 None = Ok nbest
    /\ NoDup (map hkey nbest).
Proof.
  destruct modified_adaptive_expansion_search_scenario as [s Hs]. eexists.
  split; [exact Hs |].
  exact (modified_adaptive_expansion_search_no_duplicates unit unit nat unit nat
           logaddexp true Sample.BaseScore Sample.joint_batch
           Sample.batch_initialize_states Sample.batch_score_hypothesis
           Sample.batch_select_state 0%nat Sample.BeginSentenceWrite
           Sample.maes012
           1 None _ Hs).
Defined.

Lemma modified_adaptive_expansion_search_beam_witness :
  exists nbest,
    modified_adaptive_expansion_search logaddexp true Sample.BaseScore
      Sample.joint_batch Sample.batch_initialize_states
      Sample.batch_score_hypothesis Sample.batch_select_state 0%nat
      Sample.BeginSentenceWrite Sample.maes012 1 None = Ok nbest
    /\ (Z.of_nat (List.length nbest) <= 1)%Z.
Proof.
  destruct modified_adaptive_expansion_search_scenario as [s Hs]. eexists.
  split; [exact Hs |].
  exact (modified_adaptive_expansion_search_beam unit unit nat unit nat
           logaddexp true Sample.BaseScore Sample.joint_batch
           Sample.batch_initialize_states Sample.batch_score_hypothesis
           Sample.batch_select_state 0%nat Sample.BeginSentenceWrite
           Sample.maes012
           1 None _ ltac:(cbn; lia) Hs).
Defined.

Lemma modified_adaptive_expansion_search_without_lm_witness :
  modified_adaptive_expansion_search logaddexp true Sample.BaseScore
    Sample.joint_batch Sample.batch_initialize_states
    Sample.batch_score_hypothesis Sample.batch_select_state 0%nat
    Sample.BeginSentenceWrite Sample.maes012 1 None
  = modified_adaptive_expansion_search logaddexp false
      (fun _ state _ => (0, state))
      Sample.joint_batch Sample.batch_initialize_states
      Sample.batch_score_hypothesis Sample.batch_select_state 0%nat
      (fun _ => 1%nat) Sample.maes012 1 None.
Proof.
  apply (modified_adaptive_expansion_search_without_lm unit unit nat unit
           nat).
  reflexivity.
Defined.

Lemma call_decodes_every_sample_witness :
  exists hypotheses training,
    call logaddexp true Sample.BaseScore tt Sample.batch_initialize_states
      Sample.batch_score_hypothesis Sample.batch_select_state 0%nat
      Sample.BeginSentenceWrite (fun nbest_hyps => nbest_hyps) 3
      Sample.scenario true false
      [mkUtterance 2 Sample.scenario_joint Sample.joint_batch] None
    = Some (Ok hypotheses, training)
    /\ training = (true, false).
Proof.
  destruct default_beam_search_scenario as [s Hs].
  assert (Hc : call logaddexp true Sample.BaseScore tt
                 Sample.batch_initialize_states
                 Sample.batch_score_hypothesis Sample.batch_select_state
                 0%nat Sample.BeginSentenceWrite
                 (fun nbest_hyps => nbest_hyps) 3 Sample.scenario true false
                 [mkUtterance 2 Sample.scenario_joint Sample.joint_batch]
                 None
               = Some (Ok [Best (mkHyp (0 + -2 + -2) [2; 0; 0]%Z tt []
                                       [-1; 1; 2]%Z 2%Z 2%Z None)],
                       (true, false))).
  { unfold call, decode_samples, decode_sample, run_search_algorithm.
    cbn [search_algorithm Sample.scenario frame_scores encoded_length].
    rewrite Hs. reflexivity. }
  eexists _, _. split; [exact Hc |].
  exact (proj1 (call_decodes_every_sample _ _ _ _ _ _ _ _ _ _ _ _ _ _ _ _ _
                  _ _ _ _ _ _ Hc)).
Defined.

Lemma sort_nbest_rearranges_witness :
  Permutation
    (sort_nbest true [Sample.hyp (-2) [3; 0]%Z 1; Sample.hyp (-1) [3]%Z 1])
    [Sample.hyp (-2) [3; 0]%Z 1; Sample.hyp (-1) [3]%Z 1].
Proof.
  apply (sort_nbest_rearranges unit unit nat true).
  intros _. repeat constructor; discriminate.
Defined.
